(** * dask-searchcv, [methods.py]: the functions that run inside the task graph

    A shallow embedding of the fold cache ([CVCache]), of the failure
    propagating fit / score primitives, of the composite reconstruction
    helpers and of the [cv_results_] aggregator, together with the
    properties of these functions that the specification states.

    Conventions of the embedding:
    - a Python call that can raise returns a [result]; code that also
      mutates an object or emits warnings runs in the state-and-exception
      monad [M];
    - [np.float64] values are IEEE 754 binary64 numbers, computed with the
      Standard Library's executable specification [SpecFloat]
      (precision 53, maximal exponent 1024, round to nearest even);
    - Python dictionaries are [gmap]s, Python lists are [list]s. *)

From Stdlib Require Import ZArith List Bool Lia Sorting.Sorted Permutation.
From Stdlib Require Import Floats.SpecFloat.
From stdpp Require Import gmap strings pretty list fin_maps.

(* ===================================================================== *)
(** ** Python values: exceptions, results, sentinels                      *)
(* ===================================================================== *)

(** The exceptions that the embedded code raises itself or receives from
    numpy, plus [Fault], an [Exception] raised by an external collaborator
    (an estimator, a scorer, [copy_estimator]). *)
Inductive exn : Type :=
| ValueError (msg : string)
| IndexError
| TypeError
| ZeroDivisionError
| KeyError (key : string)
| Fault (tag : string).

Inductive result (A : Type) : Type :=
| Ok (a : A)
| Raise (e : exn).
Arguments Ok {A} a.
Arguments Raise {A} e.

Definition result_bind {A B} (r : result A) (k : A → result B) : result B :=
  match r with
  | Ok a => k a
  | Raise e => Raise e
  end.

Notation "'let?' x ':=' r 'in' k" := (result_bind r (λ x, k))
  (at level 10, x pattern, r at level 100, k at level 200, only parsing).

Definition is_ok {A} (r : result A) : bool :=
  match r with Ok _ => true | Raise _ => false end.

(** [FIT_FAILURE]: the singleton that stands for a failed estimator fit.
    A Python variable that holds either the sentinel or a real value is a
    [fitted A]. *)
Inductive fitted (A : Type) : Type :=
| FIT_FAILURE
| Val (a : A).
Arguments FIT_FAILURE {A}.
Arguments Val {A} a.

Definition is_FIT_FAILURE {A} (v : fitted A) : bool :=
  match v with FIT_FAILURE => true | Val _ => false end.

(** The values of a list that holds no [FIT_FAILURE] (the lists are read
    this way only after [any(s is FIT_FAILURE for s in steps)] was false). *)
Definition the_fitted {A} (steps : list (fitted A)) : list A :=
  omap (λ s, match s with Val e => Some e | FIT_FAILURE => None end) steps.

(** [MISSING]: the singleton that stands for a missing parameter. *)
Inductive param (A : Type) : Type :=
| MISSING
| Given (a : A).
Arguments MISSING {A}.
Arguments Given {A} a.

(** *** The state-and-exception monad

    [M S A] is a computation over a mutable state [S] that returns an [A]
    or raises; as in Python, the mutations made before an exception stay. *)
Definition M (S A : Type) : Type := S → result A * S.

Definition ret {S A} (a : A) : M S A := λ s, (Ok a, s).
Definition raise {S A} (e : exn) : M S A := λ s, (Raise e, s).
Definition lift {S A} (r : result A) : M S A := λ s, (r, s).
Definition bind {S A B} (m : M S A) (k : A → M S B) : M S B :=
  λ s, match m s with
       | (Ok a, s') => k a s'
       | (Raise e, s') => (Raise e, s')
       end.
Definition gets {S A} (f : S → A) : M S A := λ s, (Ok (f s), s).
Definition modify {S} (f : S → S) : M S unit := λ s, (Ok tt, f s).

(** [try: m except Exception as e: h e] *)
Definition try_except {S A} (m : M S A) (h : exn → M S A) : M S A :=
  λ s, match m s with
       | (Ok a, s') => (Ok a, s')
       | (Raise e, s') => h e s'
       end.

(** Running a computation on one component of a product state. *)
Definition on_fst {S T A} (m : M S A) : M (S * T) A :=
  λ st, let '(r, s') := m (fst st) in (r, (s', snd st)).
Definition on_snd {S T A} (m : M T A) : M (S * T) A :=
  λ st, let '(r, t') := m (snd st) in (r, (fst st, t')).

Notation "'let!' x ':=' m 'in' k" := (bind m (λ x, k))
  (at level 10, x pattern, m at level 100, k at level 200, only parsing).
Notation "m ';;!' k" := (bind m (λ _, k))
  (at level 100, k at level 200, right associativity, only parsing).

(** [l[n]] on a Python list or tuple: a negative index counts from the end,
    an index out of range raises [IndexError]. *)
Definition py_getitem {A} (l : list A) (n : Z) : result A :=
  let len := Z.of_nat (length l) in
  let i := if (n <? 0)%Z then (n + len)%Z else n in
  if ((0 <=? i)%Z && (i <? len)%Z)%bool then
    match l !! Z.to_nat i with
    | Some a => Ok a
    | None => Raise IndexError
    end
  else Raise IndexError.

(** [any(p(x) for x in l)] *)
Definition any {A} (p : A → bool) (l : list A) : bool := existsb p l.

(** [zip(a, b)]: stops at the shorter argument. *)
Definition zip {A B} (a : list A) (b : list B) : list (A * B) := combine a b.

(* ===================================================================== *)
(** ** binary64                                                           *)
(* ===================================================================== *)

Abbreviation float := spec_float.

Module F64.
Definition prec : Z := 53.
Definition emax : Z := 1024.

Definition add : float → float → float := SFadd prec emax.
Definition sub : float → float → float := SFsub prec emax.
Definition mul : float → float → float := SFmul prec emax.
Definition div : float → float → float := SFdiv prec emax.
Definition sqrt : float → float := SFsqrt prec emax.
Definition opp : float → float := SFopp.
Definition ltb : float → float → bool := SFltb.
Definition eqb : float → float → bool := SFeqb.
(** [a != b] on floats: true as soon as one side is NaN. *)
Definition neqb (a b : float) : bool := negb (SFeqb a b).

Definition is_nan (a : float) : bool :=
  match a with S754_nan => true | _ => false end.

Definition zero : float := S754_zero false.

(** The float of an integer (exact up to 2^53, rounded beyond). *)
Definition of_Z (z : Z) : float := binary_normalize prec emax z 0 false.
Definition of_nat (n : nat) : float := of_Z (Z.of_nat n).

(** The float that the decimal literal [p/q] denotes, for small
    integers [p] and [q]: the correctly rounded quotient. *)
Definition dec (p q : Z) : float := div (of_Z p) (of_Z q).
End F64.

(* ===================================================================== *)
(** ** Data containers and index sets                                     *)
(* ===================================================================== *)

(** One side of a fold, as [cv.split] yields it: an array of positions or
    a boolean mask over the samples. *)
Inductive index_set : Type :=
| IntIndex (idx : list Z)
| BoolMask (mask : list bool).

(** [i.sum() if i.dtype == bool else len(i)] *)
Definition index_count (i : index_set) : nat :=
  match i with
  | IntIndex idx => length idx
  | BoolMask mask => length (filter (λ b, b = true) mask)
  end.

(** What [X], [y], a fit parameter or a transformer output can be: a
    Python list (no [shape] attribute), a dense numpy array with its shape
    and its elements in row-major order, or a scipy sparse matrix (always
    two-dimensional; its entries are listed row-major, whatever the storage
    format). *)
Inductive container : Type :=
| PyList (items : list float)
| NdArray (shape : list nat) (data : list float)
| SpMatrix (nrows ncols : nat) (data : list float).

(** [hasattr(X, "shape")] and [X.shape] *)
Definition get_shape (X : container) : option (list nat) :=
  match X with
  | PyList _ => None
  | NdArray sh _ => Some sh
  | SpMatrix r c _ => Some [r; c]
  end.

(** The elements of a container, row-major. *)
Definition elements (X : container) : list float :=
  match X with
  | PyList l => l
  | NdArray _ d => d
  | SpMatrix _ _ d => d
  end.

(** [sparse.issparse(X)] *)
Definition issparse (X : container) : bool :=
  match X with SpMatrix _ _ _ => true | _ => false end.

(** [X.shape[k]] on the shape tuple *)
Definition shape_item (sh : list nat) (k : Z) : result nat := py_getitem sh k.

Fixpoint mapM {A B} (f : A → result B) (l : list A) : result (list B) :=
  match l with
  | [] => Ok []
  | a :: l' =>
      result_bind (f a) (λ b, result_bind (mapM f l') (λ bs, Ok (b :: bs)))
  end.

(** numpy's reading of one integer index on an axis of length [n]. *)
Definition np_index (n : nat) (i : Z) : result nat :=
  let len := Z.of_nat n in
  let j := if (i <? 0)%Z then (i + len)%Z else i in
  if ((0 <=? j)%Z && (j <? len)%Z)%bool then Ok (Z.to_nat j)
  else Raise IndexError.

(** The positions where a mask is true ([mask.nonzero()]). *)
Fixpoint nonzero_from (k : nat) (mask : list bool) : list nat :=
  match mask with
  | [] => []
  | b :: mask' =>
      if b then k :: nonzero_from (S k) mask' else nonzero_from (S k) mask'
  end.
Definition nonzero (mask : list bool) : list nat := nonzero_from 0 mask.

(** The positions that one argument of [np.ix_] selects on an axis of
    length [n]: [np.ix_] turns a boolean sequence into its nonzero
    positions, and indexing checks every position against the axis. *)
Definition ix_positions (n : nat) (i : index_set) : result (list nat) :=
  match i with
  | IntIndex idx => mapM (np_index n) idx
  | BoolMask mask => mapM (λ k, np_index n (Z.of_nat k)) (nonzero mask)
  end.

Definition prod_list (l : list nat) : nat := foldr Nat.mul 1 l.

(** The [b] consecutive elements of block [k] of a row-major array. *)
Definition block (b : nat) (data : list float) (k : nat) : list float :=
  take b (drop (k * b) data).

(** [X[np.ix_(rows, cols)]]: the open mesh of [rows] and [cols] on the
    first two axes; an array of less than two dimensions has too many
    indices, a Python list cannot be indexed by a tuple. *)
Definition ix_getitem (X : container) (rows cols : index_set)
  : result container :=
  match X with
  | PyList _ => Raise TypeError
  | NdArray (n0 :: n1 :: rest) data =>
      result_bind (ix_positions n0 rows) (λ rs,
      result_bind (ix_positions n1 cols) (λ cs,
        Ok (NdArray (length rs :: length cs :: rest)
              (r ← rs; c ← cs; block (prod_list rest) data (r * n1 + c)))))
  | NdArray _ _ => Raise IndexError
  | SpMatrix n0 n1 data =>
      result_bind (ix_positions n0 rows) (λ rs,
      result_bind (ix_positions n1 cols) (λ cs,
        Ok (SpMatrix (length rs) (length cs)
              (r ← rs; c ← cs; block 1 data (r * n1 + c)))))
  end.

(* ===================================================================== *)
(** ** [CVCache]: the fold cache                                          *)
(* ===================================================================== *)

(** The keys of [CVCache.cache]: the tuple [(n, is_x, is_train)] of
    [_extract] and [_extract_pairwise], or the tuple [(n, key)] of
    [extract_param]. *)
Definition cache_key : Type := (Z * bool * bool) + (Z * string).
Definition slot_key (n : Z) (is_x is_train : bool) : cache_key :=
  inl (n, is_x, is_train).
Definition param_key (n : Z) (key : string) : cache_key := inr (n, key).

Record CVCache : Type := mkCVCache {
  splits : list (index_set * index_set);
  pairwise : bool;
  cache : option (gmap cache_key container)
}.

(** [CVCache.__init__(splits, pairwise=False, cache=True)] *)
Definition CVCache_init (splits : list (index_set * index_set))
    (pairwise : bool) (cache : bool) : CVCache :=
  mkCVCache splits pairwise (if cache then Some ∅ else None).

(** [CVCache.__reduce__]: the constructor arguments that pickling keeps. *)
Definition CVCache_reduce (self : CVCache)
  : list (index_set * index_set) * bool * bool :=
  (splits self, pairwise self, bool_decide (cache self ≠ None)).

Definition num_test_samples (self : CVCache) : list nat :=
  map (λ s, index_count (snd s)) (splits self).

(** A physical extraction: one call of [safe_indexing] or one
    [X[np.ix_(...)]]. The log of extractions is not part of the Python
    object; it records what a probe wrapped around the data would see. *)
Inductive probe : Type :=
| SafeIndexing (x : option container) (inds : index_set)
| IxGetitem (X : container) (rows cols : index_set).

Record world : Type := mkWorld {
  self : CVCache;
  extractions : list probe
}.

Definition set_cache (c : option (gmap cache_key container)) (w : world)
  : world :=
  mkWorld (mkCVCache (splits (self w)) (pairwise (self w)) c) (extractions w).

Definition log_probe (p : probe) (w : world) : world :=
  mkWorld (self w) (extractions w ++ [p]).

(** [self.cache[k]] when [self.cache is not None and k in self.cache] *)
Definition cache_lookup (k : cache_key) (w : world) : option container :=
  c ← cache (self w); c !! k.

(** [if self.cache is not None: self.cache[k] = v] *)
Definition cache_store (k : cache_key) (v : container) : M world unit :=
  modify (λ w, match cache (self w) with
               | Some c => set_cache (Some (<[k := v]> c)) w
               | None => w
               end).

Section FoldCache.
(** The two helpers of [sklearn.utils] that the cache calls: row
    selection of a container, and the test whether a fit parameter is
    array-like. The first argument of [safe_indexing] is [None] when
    [_extract] is asked for the labels of a dataset that has none. *)
Variable safe_indexing : option container → index_set → result container.
Variable _is_arraylike : container → bool.

Definition call_safe_indexing (x : option container) (inds : index_set)
  : M world container :=
  modify (log_probe (SafeIndexing x inds)) ;;!
  lift (safe_indexing x inds).

Definition call_ix_getitem (X : container) (rows cols : index_set)
  : M world container :=
  modify (log_probe (IxGetitem X rows cols)) ;;!
  lift (ix_getitem X rows cols).

Definition _extract (X : container) (y : option container) (n : Z)
    (is_x is_train : bool) : M world container :=
  let! hit := gets (cache_lookup (slot_key n is_x is_train)) in
  match hit with
  | Some v => ret v
  | None =>
      let! split := bind (gets (λ w, splits (self w)))
                         (λ sp, lift (py_getitem sp n)) in
      let inds := if is_train then fst split else snd split in
      let! result := call_safe_indexing (if is_x then Some X else y) inds in
      cache_store (slot_key n is_x is_train) result ;;!
      ret result
  end.

Definition _extract_pairwise (X : container) (y : option container)
    (n : Z) (is_train : bool) : M world container :=
  let! hit := gets (cache_lookup (slot_key n true is_train)) in
  match hit with
  | Some v => ret v
  | None =>
      match get_shape X with
      | None =>
          raise (ValueError ("Precomputed kernels or affinity matrices "
                   +:+ "have to be passed as arrays or sparse matrices."))
      | Some sh =>
          let! d0 := lift (shape_item sh 0) in
          let! d1 := lift (shape_item sh 1) in
          if negb (d0 =? d1) then
            raise (ValueError "X should be a square kernel matrix")
          else
            let! split := bind (gets (λ w, splits (self w)))
                               (λ sp, lift (py_getitem sp n)) in
            let '(train, test) := split in
            let! result :=
              call_ix_getitem X (if is_train then train else test) train in
            cache_store (slot_key n true is_train) result ;;!
            ret result
      end
  end.

Definition extract (X : container) (y : option container) (n : Z)
    (is_x is_train : bool) : M world (option container) :=
  if is_x then
    let! self_pairwise := gets (λ w, pairwise (self w)) in
    if self_pairwise : bool then
      let! r := _extract_pairwise X y n is_train in ret (Some r)
    else
      let! r := _extract X y n true is_train in ret (Some r)
  else
    match y with
    | None => ret None
    | Some _ =>
        let! r := _extract X y n false is_train in ret (Some r)
    end.

Definition extract_param (key : string) (x : container) (n : Z)
  : M world container :=
  let! hit := gets (cache_lookup (param_key n key)) in
  match hit with
  | Some v => ret v
  | None =>
      let! out :=
        (if _is_arraylike x then
           let! split := bind (gets (λ w, splits (self w)))
                              (λ sp, lift (py_getitem sp n)) in
           call_safe_indexing (Some x) (fst split)
         else ret x) in
      cache_store (param_key n key) out ;;!
      ret out
  end.

Definition cv_n_samples : M world (list nat) :=
  gets (λ w, num_test_samples (self w)).

Definition cv_extract (X : container) (y : option container)
    (is_X is_train : bool) (n : Z) : M world (option container) :=
  extract X y n is_X is_train.

(** [{k: cvs.extract_param(tok, v, n) for (k, tok), v in zip(keys, vals)}] *)
Fixpoint cv_extract_params_loop (kvs : list (string * string * container))
    (n : Z) (acc : gmap string container)
  : M world (gmap string container) :=
  match kvs with
  | [] => ret acc
  | (k, tok, v) :: kvs' =>
      let! out := extract_param tok v n in
      cv_extract_params_loop kvs' n (<[k := out]> acc)
  end.

Definition cv_extract_params (keys : list (string * string))
    (vals : list container) (n : Z) : M world (gmap string container) :=
  cv_extract_params_loop (zip keys vals) n ∅.

(** *** Vocabulary of the properties of the cache

    The three memoizing methods share one shape: look the key up,
    return the hit, else compute, store and return. *)
Definition memoized (k : cache_key) (compute : M world container)
  : M world container :=
  λ w, match cache_lookup k w with
       | Some v => (Ok v, w)
       | None =>
           match compute w with
           | (Ok r, w1) =>
               (Ok r, match cache (self w1) with
                      | Some c => set_cache (Some (<[k := r]> c)) w1
                      | None => w1
                      end)
           | (Raise e, w1) => (Raise e, w1)
           end
       end.

(** A computation that leaves the Python object alone (it may log
    extractions). *)
Definition keeps_self (m : M world container) : Prop :=
  ∀ w r w1, m w = (r, w1) → self w1 = self w.

Definition compute_extract (X : container) (y : option container) (n : Z)
    (is_x is_train : bool) : M world container :=
  let! split := bind (gets (λ w, splits (self w)))
                     (λ sp, lift (py_getitem sp n)) in
  call_safe_indexing (if is_x then Some X else y)
    (if is_train then fst split else snd split).

Definition compute_pairwise (X : container) (n : Z) (is_train : bool)
  : M world container :=
  match get_shape X with
  | None =>
      raise (ValueError ("Precomputed kernels or affinity matrices "
               +:+ "have to be passed as arrays or sparse matrices."))
  | Some sh =>
      let! d0 := lift (shape_item sh 0) in
      let! d1 := lift (shape_item sh 1) in
      if negb (d0 =? d1) then
        raise (ValueError "X should be a square kernel matrix")
      else
        let! split := bind (gets (λ w, splits (self w)))
                           (λ sp, lift (py_getitem sp n)) in
        call_ix_getitem X (if is_train then fst split else snd split)
          (fst split)
  end.

Definition compute_param (x : container) (n : Z) : M world container :=
  if _is_arraylike x then
    let! split := bind (gets (λ w, splits (self w)))
                       (λ sp, lift (py_getitem sp n)) in
    call_safe_indexing (Some x) (fst split)
  else ret x.

(** The computation that [extract] memoizes, by mode. *)
Definition chosen_compute (self_pairwise : bool) (X : container)
    (y : option container) (n : Z) (is_x is_train : bool)
  : M world container :=
  if is_x && self_pairwise then compute_pairwise X n is_train
  else compute_extract X y n is_x is_train.

Definition some_result (rw : result container * world)
  : result (option container) * world :=
  match rw with
  | (Ok a, w') => (Ok (Some a), w')
  | (Raise e, w') => (Raise e, w')
  end.

(** The calls that reach a cache during its lifetime, and the world
    they leave behind, whether they return or raise. *)
Inductive cache_call : Type :=
| CallExtract (X : container) (y : option container) (n : Z)
              (is_x is_train : bool)
| CallExtractParam (key : string) (x : container) (n : Z).

Definition run_call (w : world) (c : cache_call) : world :=
  match c with
  | CallExtract X y n is_x is_train => snd (extract X y n is_x is_train w)
  | CallExtractParam key x n => snd (extract_param key x n w)
  end.

Definition run_calls (calls : list cache_call) (w : world) : world :=
  foldl run_call w calls.
End FoldCache.

(** Parameter values, as far as the search looks at them. *)
Inductive pyval : Type :=
| PyNone
| PyBool (b : bool)
| PyInt (z : Z)
| PyFloat (f : float)
| PyStr (s : string).

(** A Python dictionary built by inserting the pairs in order: the last
    occurrence of a key wins. *)
Definition dict_of_pairs {V} (kvs : list (string * V)) : gmap string V :=
  foldl (λ m kv, <[kv.1 := kv.2]> m) ∅ kvs.

(** [(f, p) for (f, p) in zip(fields, p) if p is not MISSING] *)
Definition given_pairs {V} (fields : list string) (p : list (param V))
  : list (string * V) :=
  omap (λ fp, match snd fp with
              | MISSING => None
              | Given v => Some (fst fp, v)
              end) (zip fields p).

Definition decompress_params (fields : list string)
    (params : list (list (param pyval))) : list (gmap string pyval) :=
  map (λ p, dict_of_pairs (given_pairs fields p)) params.

(* ===================================================================== *)
(** ** Estimators, parameter application, fit and score                   *)
(* ===================================================================== *)

(** [error_score]: the string ['raise'] or a number. *)
Inductive error_score_t : Type :=
| ErrorRaise
| ErrorScore (v : float).

(** [X], [y]: a container or [None]. *)
Abbreviation data := (option container).

(** What [score] returns for one (fold, candidate): the test score, or the
    tuple (test score, train score). *)
Inductive score_item : Type :=
| Single (test : fitted float)
| Pair (test train : fitted float).

Section Evaluation.
(** A leaf estimator is opaque. *)
Variable leaf : Type.

Inductive estimator : Type :=
| Leaf (l : leaf)
| Pipeline (steps : list (string * estimator))
| FeatureUnion (transformer_list : list (string * estimator))
               (transformer_weights : option (gmap string float)).

(** The capabilities of an estimator, of [copy_estimator] (in [utils.py])
    and of a scorer; each of them may raise. [est.fit] and
    [est.set_params] change the estimator in place: they return its new
    state. *)
Variable copy_estimator : estimator → result estimator.
Variable est_set_params : estimator → gmap string pyval → result estimator.
Variable est_fit :
  estimator → data → data → gmap string container → result estimator.
Variable has_fit_transform : estimator → bool.
Variable est_fit_transform :
  estimator → data → data → gmap string container
  → result (estimator * container).
Variable est_transform : estimator → data → result container.
(** [scorer(est, X)] and [scorer(est, X, y)] *)
Variable scorer2 : estimator → data → result float.
Variable scorer3 : estimator → data → container → result float.

(** What an observer of one evaluation sees: the calls made on the
    collaborators, the lock, and the warnings. *)
Inductive event : Type :=
| CopyEstimator (est : estimator)
| LockAcquire
| LockRelease
| SetParams (est : estimator) (params : gmap string pyval)
| Fit (est : estimator) (X y : data) (fit_params : gmap string container)
| FitTransform (est : estimator) (X y : data)
               (fit_params : gmap string container)
| Transform (est : estimator) (X : data)
| Score (est : estimator) (X y : data)
| FitFailedWarning (error_score : float) (e : exn).

Definition trace : Type := list event.

Definition emit (ev : event) : M trace unit := modify (λ t, t ++ [ev]).

Definition call {A} (ev : event) (r : result A) : M trace A :=
  emit ev ;;! lift r.

Definition warn_fit_failure (error_score : float) (e : exn) : M trace unit :=
  emit (FitFailedWarning error_score e).

(** [with SET_PARAMS_LOCK: m]: the lock is released on every exit. *)
Definition with_SET_PARAMS_LOCK {A} (m : M trace A) : M trace A :=
  λ t, let '(r, t') := m (t ++ [LockAcquire]) in (r, t' ++ [LockRelease]).

Definition set_params (est : estimator) (fields : option (list string))
    (params : option (list (param pyval))) (copy : bool)
  : M trace estimator :=
  let! est := (if copy then call (CopyEstimator est) (copy_estimator est)
               else ret est) in
  match fields with
  | None => ret est
  | Some fields =>
      match params with
      | None => raise TypeError
      | Some params =>
          let params := dict_of_pairs (given_pairs fields params) in
          with_SET_PARAMS_LOCK
            (call (SetParams est params) (est_set_params est params))
      end
  end.

(** [if not fit_params: fit_params = {}] *)
Definition or_empty (fit_params : option (gmap string container))
  : gmap string container := default ∅ fit_params.

Definition fit (est : fitted estimator) (X : fitted data) (y : data)
    (error_score : error_score_t) (fields : option (list string))
    (params : option (list (param pyval)))
    (fit_params : option (gmap string container))
  : M trace (fitted estimator) :=
  match est, X with
  | Val est, Val X =>
      let fit_params := or_empty fit_params in
      try_except
        (let! est := set_params est fields params true in
         let! est := call (Fit est X y fit_params)
                          (est_fit est X y fit_params) in
         ret (Val est))
        (λ e, match error_score with
              | ErrorRaise => raise e
              | ErrorScore v => warn_fit_failure v e ;;! ret FIT_FAILURE
              end)
  | _, _ => ret FIT_FAILURE
  end.

Definition fit_transform (est : fitted estimator) (X : fitted data)
    (y : data) (error_score : error_score_t) (fields : option (list string))
    (params : option (list (param pyval)))
    (fit_params : option (gmap string container))
  : M trace (fitted estimator * fitted container) :=
  match est, X with
  | Val est, Val X =>
      let fit_params := or_empty fit_params in
      try_except
        (let! est := set_params est fields params true in
         if has_fit_transform est then
           let! r := call (FitTransform est X y fit_params)
                          (est_fit_transform est X y fit_params) in
           ret (Val (fst r), Val (snd r))
         else
           let! est := call (Fit est X y fit_params)
                            (est_fit est X y fit_params) in
           let! Xt := call (Transform est X) (est_transform est X) in
           ret (Val est, Val Xt))
        (λ e, match error_score with
              | ErrorRaise => raise e
              | ErrorScore v =>
                  warn_fit_failure v e ;;! ret (FIT_FAILURE, FIT_FAILURE)
              end)
  | _, _ => ret (FIT_FAILURE, FIT_FAILURE)
  end.

Definition _score (est : fitted estimator) (X y : data)
  : M trace (fitted float) :=
  match est with
  | FIT_FAILURE => ret FIT_FAILURE
  | Val est =>
      let! s := call (Score est X y)
                     (match y with
                      | None => scorer2 est X
                      | Some y => scorer3 est X y
                      end) in
      ret (Val s)
  end.

Definition score (est : fitted estimator) (X_test y_test : data)
    (X_train y_train : data) : M trace score_item :=
  let! test_score := _score est X_test y_test in
  match X_train with
  | None => ret (Single test_score)
  | Some _ =>
      let! train_score := _score est X_train y_train in
      ret (Pair test_score train_score)
  end.

Section FitAndScore.
Variable safe_indexing : option container → index_set → result container.

Definition fit_and_score (est : fitted estimator) (X : container)
    (y : data) (n : Z) (error_score : error_score_t)
    (fields : option (list string)) (params : option (list (param pyval)))
    (fit_params : option (gmap string container))
    (return_train_score : bool) : M (world * trace) score_item :=
  let! X_train := on_fst (extract safe_indexing X y n true true) in
  let! y_train := on_fst (extract safe_indexing X y n false true) in
  let! X_test := on_fst (extract safe_indexing X y n true false) in
  let! y_test := on_fst (extract safe_indexing X y n false false) in
  let! est := on_snd (fit est (Val X_train) y_train error_score fields
                          params fit_params) in
  let X_train' := if return_train_score then X_train else None in
  let y_train' := if return_train_score then y_train else None in
  on_snd (score est X_test y_test X_train' y_train').
End FitAndScore.

Definition fit_best (estimator0 : estimator) (params : gmap string pyval)
    (X y : data) (fit_params : gmap string container) : M trace estimator :=
  let! est := call (CopyEstimator estimator0) (copy_estimator estimator0) in
  let! est := call (SetParams est params) (est_set_params est params) in
  call (Fit est X y fit_params) (est_fit est X y fit_params).

(** *** Composite reconstruction *)

Definition pipeline (names : list string) (steps : list (fitted estimator))
  : fitted estimator :=
  if any is_FIT_FAILURE steps then FIT_FAILURE
  else Val (Pipeline (zip names (the_fitted steps))).

Definition feature_union (names : list string)
    (steps : list (fitted estimator)) (weights : option (gmap string float))
  : fitted estimator :=
  if any is_FIT_FAILURE steps then FIT_FAILURE
  else Val (FeatureUnion (zip names (the_fitted steps)) weights).
End Evaluation.

(* ===================================================================== *)
(** ** Concatenation of the outputs of a [FeatureUnion]                   *)
(* ===================================================================== *)

(** [X * w] for a float [w]: elementwise on an array or a sparse matrix;
    a Python list cannot be multiplied by a float. *)
Definition scale (X : container) (w : float) : result container :=
  match X with
  | PyList _ => Raise TypeError
  | NdArray sh d => Ok (NdArray sh (map (λ v, F64.mul v w) d))
  | SpMatrix r c d => Ok (SpMatrix r c (map (λ v, F64.mul v w) d))
  end.

(** [np.zeros(shape)] *)
Definition np_zeros (sh : list nat) : container :=
  NdArray sh (replicate (prod_list sh) F64.zero).

(** [np.atleast_1d]: shape and elements of the array that a dense block
    denotes. *)
Definition atleast_1d (X : container) : result (list nat * list float) :=
  match X with
  | PyList l => Ok ([length l], l)
  | NdArray [] d => Ok ([1], d)
  | NdArray sh d => Ok (sh, d)
  | SpMatrix _ _ _ => Raise TypeError
  end.

Definition sum_list (l : list nat) : nat := foldr Nat.add 0 l.

(** Same shape on every axis but axis 1. *)
Definition hstack_compatible (sh0 sh : list nat) : bool :=
  match sh0, sh with
  | n0 :: _ :: rest0, n :: _ :: rest =>
      (n0 =? n) && bool_decide (rest0 = rest)
  | _, _ => false
  end.

(** [np.hstack(Xs)]: one-dimensional arrays are chained, the others are
    joined along axis 1 and must agree on every other axis. *)
Definition np_hstack (Xs : list container) : result container :=
  let? arrs := mapM atleast_1d Xs in
  match arrs with
  | [] => Raise (ValueError "need at least one array to concatenate")
  | (sh0, _) :: _ =>
      match sh0 with
      | [] => Raise (ValueError "zero-dimensional arrays cannot be concatenated")
      | [_] =>
          if forallb (λ a, length (fst a) =? 1) arrs then
            Ok (NdArray [sum_list (map (λ a, length (snd a)) arrs)]
                        (concat (map snd arrs)))
          else Raise (ValueError "all the input arrays must have same number of dimensions")
      | n0 :: _ :: rest =>
          if forallb (λ a, hstack_compatible sh0 (fst a)) arrs then
            Ok (NdArray
                  (n0 :: sum_list (map (λ a, nth 1 (fst a) 0) arrs) :: rest)
                  (i ← seq 0 n0; a ← arrs;
                   block (nth 1 (fst a) 0 * prod_list rest) (snd a) i))
          else Raise (ValueError "all the input array dimensions except for the concatenation axis must match exactly")
      end
  end.

(** [coo_matrix(X)]: rows, columns and entries of the matrix that a block
    of [sparse.hstack] denotes. *)
Definition as_matrix (X : container) : result (nat * nat * list float) :=
  match X with
  | SpMatrix r c d => Ok (r, c, d)
  | PyList l => Ok (1, length l, l)
  | NdArray [] d => Ok (1, 1, d)
  | NdArray [n] d => Ok (1, n, d)
  | NdArray [r; c] d => Ok (r, c, d)
  | NdArray _ _ => Raise TypeError
  end.

(** [sparse.hstack(Xs).tocsr()] *)
Definition sparse_hstack (Xs : list container) : result container :=
  let? ms := mapM as_matrix Xs in
  match ms with
  | [] => Raise (ValueError "blocks must be 2-D")
  | (r0, _, _) :: _ =>
      if forallb (λ m, fst (fst m) =? r0) ms then
        Ok (SpMatrix r0 (sum_list (map (λ m, snd (fst m)) ms))
              (i ← seq 0 r0; m ← ms; block (snd (fst m)) (snd m) i))
      else Raise (ValueError "blocks have incompatible row dimensions")
  end.

(** [[X if w is None else X * w for X, w in zip(Xs, weights)
      if X is not None]] *)
Definition weighted_branches (Xs : list data) (weights : list (option float))
  : result (list container) :=
  mapM (λ Xw, match snd Xw with
              | None => Ok (fst Xw)
              | Some w => scale (fst Xw) w
              end)
       (omap (λ Xw, match fst Xw with
                    | None => None
                    | Some X => Some (X, snd Xw)
                    end) (zip Xs weights)).

Definition feature_union_concat (Xs : list (fitted data)) (nsamples : nat)
    (weights : list (option float)) : result (fitted container) :=
  if any is_FIT_FAILURE Xs then Ok FIT_FAILURE
  else
    let? Xs := weighted_branches (the_fitted Xs) weights in
    match Xs with
    | [] => Ok (Val (np_zeros [nsamples; 0]))
    | _ =>
        if any issparse Xs then
          let? r := sparse_hstack Xs in Ok (Val r)
        else
          let? r := np_hstack Xs in Ok (Val r)
    end.

(** *** The concatenation as the specification words it

    [scaled_by w X X']: [X'] is [X] with every value multiplied by [w].
    [scaled_survivors Xs weights branches]: [branches] are the outputs of
    [Xs] that are not [None], in order, each scaled by its weight when it
    has one. *)
Definition scaled_by (w : float) (X X' : container) : Prop :=
  get_shape X ≠ None
  ∧ get_shape X' = get_shape X
  ∧ issparse X' = issparse X
  ∧ elements X' = map (λ v, F64.mul v w) (elements X).

Inductive scaled_survivors
  : list data → list (option float) → list container → Prop :=
| survivors_nil : scaled_survivors [] [] []
| survivors_dropped Xs ws bs w :
    scaled_survivors Xs ws bs →
    scaled_survivors (None :: Xs) (w :: ws) bs
| survivors_plain Xs ws bs X :
    scaled_survivors Xs ws bs →
    scaled_survivors (Some X :: Xs) (None :: ws) (X :: bs)
| survivors_scaled Xs ws bs X w X' :
    scaled_by w X X' →
    scaled_survivors Xs ws bs →
    scaled_survivors (Some X :: Xs) (Some w :: ws) (X' :: bs).

(** Row [i] of a block with [c] columns. *)
Definition row_of (c : nat) (X : container) (i : nat) : list float :=
  block c (elements X) i.

(* ===================================================================== *)
(** ** numpy and scipy helpers of the aggregator                          *)
(* ===================================================================== *)

(** A two-dimensional float64 array, given by its rows. *)
Record matrix : Type := mkMatrix {
  m_rows : nat;
  m_cols : nat;
  m_data : list (list float)
}.

(** [np.array(flat, dtype=np.float64).reshape(n_splits, n_candidates).T]:
    row [c] of the result holds the scores of candidate [c], one per
    split. *)
Definition reshape_T (flat : list float) (n_splits n_candidates : nat)
  : result matrix :=
  if length flat =? n_splits * n_candidates then
    Ok (mkMatrix n_candidates n_splits
          (map (λ c, map (λ s, nth (s * n_candidates + c) flat F64.zero)
                         (seq 0 n_splits))
               (seq 0 n_candidates)))
  else Raise (ValueError "cannot reshape array").

(** [array[:, j]] *)
Definition column_of (a : matrix) (j : nat) : list float :=
  map (λ row, nth j row F64.zero) (m_data a).

(** [np.add.reduce] along the split axis: the terms are added from left
    to right, starting from the first one. *)
Definition fsum (l : list float) : float :=
  match l with
  | [] => F64.zero
  | x :: l' => foldl F64.add x l'
  end.

(** [np.broadcast_to(weights[None, :], (n, len(weights)))] *)
Definition broadcast_rows (weights : list float) (n : nat) : matrix :=
  mkMatrix n (length weights) (replicate n weights).

(** [np.average(a, axis=1, weights=weights)] *)
Definition np_average (a : matrix) (weights : option matrix)
  : result (list float) :=
  match weights with
  | None =>
      Ok (map (λ row, F64.div (fsum row) (F64.of_nat (m_cols a))) (m_data a))
  | Some wgt =>
      if negb ((m_rows a =? m_rows wgt) && (m_cols a =? m_cols wgt)) then
        Raise TypeError
      else
        let scl := map fsum (m_data wgt) in
        if any (λ s, F64.eqb s F64.zero) scl then Raise ZeroDivisionError
        else
          Ok (zip_with F64.div
                (map fsum (zip_with (zip_with F64.mul) (m_data a) (m_data wgt)))
                scl)
  end.

(** [(array - array_means[:, np.newaxis]) ** 2] *)
Definition squared_deviations (a : matrix) (means : list float) : matrix :=
  mkMatrix (m_rows a) (m_cols a)
    (zip_with (λ row m, map (λ x, let d := F64.sub x m in F64.mul d d) row)
              (m_data a) means).

(** The conversion of an integer to [np.int32]. *)
Definition to_int32 (z : Z) : Z :=
  ((z + 2 ^ 31) `mod` 2 ^ 32 - 2 ^ 31)%Z.

Section Rankdata.
(** [scipy.stats.rankdata], over any element type with its sort order
    [lt] and its inequality test [neq]. *)
Context {A : Type}.
Variable lt : A → A → bool.
Variable neq : A → A → bool.

(** [np.argsort(arr)], as a stable insertion sort of the positions. *)
Fixpoint insert_by (x : nat * A) (l : list (nat * A)) : list (nat * A) :=
  match l with
  | [] => [x]
  | y :: l' =>
      if lt (snd y) (snd x) then y :: insert_by x l' else x :: y :: l'
  end.

Definition sort_pairs (l : list (nat * A)) : list (nat * A) :=
  foldr insert_by [] l.

Definition argsort (arr : list A) : list nat :=
  map fst (sort_pairs (imap (λ i x, (i, x)) arr)).

(** [arr[idx]] for an array of valid positions *)
Definition fancy {B} (arr : list B) (idx : list nat) : list B :=
  omap (λ i, arr !! i) idx.

(** [inv = np.empty(n); inv[sorter] = np.arange(n)] *)
Definition inverse_of (sorter : list nat) : list nat :=
  foldl (λ inv ks, <[snd ks := fst ks]> inv)
        (replicate (length sorter) 0)
        (imap (λ k s, (k, s)) sorter).

(** [np.r_[True, arr[1:] != arr[:-1]]] *)
Definition obs_of (sorted : list A) : list bool :=
  true :: zip_with neq (tail sorted) sorted.

(** [obs.cumsum()] *)
Fixpoint cumsum_from (acc : nat) (obs : list bool) : list nat :=
  match obs with
  | [] => []
  | b :: obs' =>
      let acc' := if b then S acc else acc in acc' :: cumsum_from acc' obs'
  end.
Definition cumsum (obs : list bool) : list nat := cumsum_from 0 obs.

(** [rankdata(arr, method='min')] *)
Definition rankdata_min (arr : list A) : list nat :=
  let sorter := argsort arr in
  let inv := inverse_of sorter in
  let sorted := fancy arr sorter in
  let obs := obs_of sorted in
  let dense := fancy (cumsum obs) inv in
  let count := nonzero obs ++ [length obs] in
  map (λ c, c + 1) (fancy count (map (λ d, d - 1) dense)).
End Rankdata.

(** The order in which numpy sorts floats: NaN comes last. *)
Definition np_sort_lt (a b : float) : bool :=
  F64.ltb a b || (F64.is_nan b && negb (F64.is_nan a)).

(* ===================================================================== *)
(** ** The aggregator: [cv_results_]                                      *)
(* ===================================================================== *)

(** The columns of [cv_results_]. A masked cell of a [MaskedArray] is
    [None]. *)
Inductive column : Type :=
| ParamsCol (params : list (gmap string pyval))
| FloatCol (values : list float)
| RankCol (ranks : list Z)
| MaskedCol (cells : list (option pyval)).

(** ["split%d_%s" % (split_i, key_name)] *)
Definition split_name (split_i : nat) (key_name : string) : string :=
  "split" +:+ pretty split_i +:+ "_" +:+ key_name.

Definition store_splits (results : gmap string column) (key_name : string)
    (a : matrix) (n_splits : nat) : gmap string column :=
  foldl (λ res split_i,
           <[split_name split_i key_name := FloatCol (column_of a split_i)]> res)
        results (seq 0 n_splits).

Definition _store (results : gmap string column) (key_name : string)
    (array : list float) (n_splits n_candidates : nat)
    (weights : option matrix) (splits rank : bool)
  : result (gmap string column) :=
  let? array := reshape_T array n_splits n_candidates in
  let results :=
    if splits then store_splits results key_name array n_splits
    else results in
  let? array_means := np_average array weights in
  let results := <["mean_" +:+ key_name := FloatCol array_means]> results in
  let? array_vars :=
    np_average (squared_deviations array array_means) weights in
  let array_stds := map F64.sqrt array_vars in
  let results := <["std_" +:+ key_name := FloatCol array_stds]> results in
  if rank then
    Ok (<["rank_" +:+ key_name :=
            RankCol (map (λ r, to_int32 (Z.of_nat r))
                       (rankdata_min np_sort_lt F64.neqb
                          (map F64.opp array_means)))]> results)
  else Ok results.

(** A score after the replacement of [FIT_FAILURE] by [error_score]: a
    float, or the string ['raise'] when that was the error score. *)
Inductive scalar : Type :=
| Num (v : float)
| RaiseStr.

(** [error_score if s is FIT_FAILURE else s] *)
Definition replace_failure (error_score : error_score_t) (s : fitted float)
  : scalar :=
  match s with
  | FIT_FAILURE =>
      match error_score with
      | ErrorRaise => RaiseStr
      | ErrorScore v => Num v
      end
  | Val v => Num v
  end.

(** [np.array(l, dtype=np.float64)]: a string that is no number cannot be
    converted. *)
Definition to_float64 (l : list scalar) : result (list float) :=
  mapM (λ s, match s with
             | Num v => Ok v
             | RaiseStr => Raise (ValueError "could not convert string to float")
             end) l.

(** [isinstance(scores[0], tuple)] *)
Definition first_is_tuple (scores : list score_item) : result bool :=
  let? s := py_getitem scores 0 in
  Ok (match s with Pair _ _ => true | Single _ => false end).

(** [zip] of the unpacked [scores]: every item has to be a tuple. *)
Definition unzip_scores (scores : list score_item)
  : result (list (fitted float) * list (fitted float)) :=
  let? pairs := mapM (λ s, match s with
                           | Pair a b => Ok (a, b)
                           | Single _ => Raise TypeError
                           end) scores in
  Ok (map fst pairs, map snd pairs).

(** The scores taken as they are: a tuple among numbers cannot become an
    element of a float64 array. *)
Definition plain_scores (scores : list score_item)
  : result (list (fitted float)) :=
  mapM (λ s, match s with
             | Single a => Ok a
             | Pair _ _ =>
                 Raise (ValueError "setting an array element with a sequence")
             end) scores.

(** [MaskedArray(np.empty(n_candidates), mask=True, dtype=object)] *)
Definition masked_column (n_candidates : nat) : list (option pyval) :=
  replicate n_candidates None.

(** [param_results["param_%s" % name][cand_i] = value], on the
    [defaultdict] of masked columns. *)
Definition set_param_cell (n_candidates cand_i : nat)
    (param_results : gmap string (list (option pyval)))
    (name : string) (value : pyval) : gmap string (list (option pyval)) :=
  let key := "param_" +:+ name in
  let col := default (masked_column n_candidates) (param_results !! key) in
  <[key := <[cand_i := Some value]> col]> param_results.

(** The inner loop, over [params.items()] of candidate [cand_i]. *)
Definition fill_candidate (n_candidates : nat)
    (param_results : gmap string (list (option pyval)))
    (cand_i : nat) (items : list (string * pyval))
  : gmap string (list (option pyval)) :=
  foldl (λ acc nv, set_param_cell n_candidates cand_i acc (fst nv) (snd nv))
        param_results items.

(** The outer loop, over [enumerate(candidate_params)]. *)
Definition fill_params (n_candidates : nat)
    (candidate_params : list (gmap string pyval))
  : gmap string (list (option pyval)) :=
  foldl (λ acc ip, fill_candidate n_candidates acc (fst ip)
                     (map_to_list (snd ip)))
        ∅ (imap (λ i p, (i, p)) candidate_params).

(** Whether a candidate gives a value to [name]. *)
Definition specifies (name : string) (params : gmap string pyval) : bool :=
  match params !! name with Some _ => true | None => false end.

(** [results.update(param_results)] *)
Definition update_results (results : gmap string column)
    (param_results : gmap string (list (option pyval))) : gmap string column :=
  (MaskedCol <$> param_results) ∪ results.

(** The test scores and, when the items are tuples, the train scores. *)
Definition split_scores (scores : list score_item)
  : result (list (fitted float) * option (list (fitted float))) :=
  let? paired := first_is_tuple scores in
  if paired : bool then
    let? ts := unzip_scores scores in Ok (fst ts, Some (snd ts))
  else
    let? t := plain_scores scores in Ok (t, None).

Definition create_cv_results (scores : list score_item)
    (candidate_params : list (gmap string pyval)) (n_splits : nat)
    (error_score : error_score_t) (weights : option (list float))
  : result (gmap string column) :=
  let? test_train := split_scores scores in
  let test_scores := map (replace_failure error_score) (fst test_train) in
  let train_scores := map (replace_failure error_score) <$> snd test_train in
  let results : gmap string column := {["params" := ParamsCol candidate_params]} in
  let n_candidates := length candidate_params in
  let weights :=
    (λ w, broadcast_rows w (length candidate_params)) <$> weights in
  let? test_array := to_float64 test_scores in
  let? results :=
    _store results "test_score" test_array n_splits n_candidates
           weights true true in
  let? results :=
    match train_scores with
    | Some train_scores =>
        let? train_array := to_float64 train_scores in
        _store results "train_score" train_array n_splits n_candidates
               None true false
    | None => Ok results
    end in
  Ok (update_results results (fill_params n_candidates candidate_params)).

(** [np.flatnonzero(ranks == 1)[0]] *)
Fixpoint first_rank_one (ranks : list Z) : option nat :=
  match ranks with
  | [] => None
  | r :: ranks' => if (r =? 1)%Z then Some 0 else S <$> first_rank_one ranks'
  end.

Definition get_best_params (candidate_params : list (gmap string pyval))
    (cv_results : gmap string column) : result (gmap string pyval) :=
  match cv_results !! "rank_test_score" with
  | Some (RankCol ranks) =>
      match first_rank_one ranks with
      | Some best_index =>
          py_getitem candidate_params (Z.of_nat best_index)
      | None => Raise IndexError
      end
  | Some _ => Raise TypeError
  | None => Raise (KeyError "rank_test_score")
  end.

(* ===================================================================== *)
(** ** Vocabulary of the properties                                       *)
(* ===================================================================== *)

(** The number of elements of [arr] strictly below [x]. *)
Definition count_lt {A} (lt : A → A → bool) (arr : list A) (x : A) : nat :=
  length (List.filter (λ y, lt y x) arr).

(** The number of true entries. *)
Definition count_true (obs : list bool) : nat :=
  length (List.filter (λ b, b) obs).

(** An array with its positions, as [argsort] sorts it. *)
Definition pairs_of {A} (arr : list A) : list (nat * A) :=
  imap (λ i x, (i, x)) arr.

(** The number of means strictly greater than [x]. *)
Definition count_gt (means : list float) (x : float) : nat :=
  length (List.filter (λ y, F64.ltb x y) means).

(** The rank as the specification words it: the number of distinct means
    strictly greater than [x], plus 1. *)
Fixpoint distinct_floats (l : list float) : list float :=
  match l with
  | [] => []
  | x :: l' =>
      if existsb (F64.eqb x) l' then distinct_floats l'
      else x :: distinct_floats l'
  end.

Definition rank_by_distinct_greater (means : list float) (x : float) : Z :=
  (Z.of_nat (length (distinct_floats
                       (List.filter (λ y, F64.ltb x y) means))) + 1)%Z.

(** A positive finite float; a finite float that is positive or +0.0; a
    positive float that may be infinite. *)
Definition is_pos_finite (x : float) : bool :=
  match x with S754_finite false _ _ => true | _ => false end.

Definition is_nonneg_finite (x : float) : bool :=
  match x with S754_zero false | S754_finite false _ _ => true | _ => false end.

Definition is_pos (x : float) : bool :=
  match x with
  | S754_finite false _ _ | S754_infinity false => true
  | _ => false
  end.

(** A score record in which [v] stands where [FIT_FAILURE] stood. *)
Definition penalized (v : float) (s : fitted float) : fitted float :=
  match s with FIT_FAILURE => Val v | Val x => Val x end.

Definition penalize (v : float) (s : score_item) : score_item :=
  match s with
  | Single a => Single (penalized v a)
  | Pair a b => Pair (penalized v a) (penalized v b)
  end.

(** A float that is not NaN. *)
Abbreviation not_nan := (λ x : float, F64.is_nan x = false).

(** The weights that the search passes: none, or the sizes of the test
    folds, finite and not negative, with a positive sum. *)
Definition weights_ok (weights : option (list float)) : Prop :=
  match weights with
  | None => True
  | Some ws =>
      Forall (λ w, is_nonneg_finite w = true) ws ∧ is_pos (fsum ws) = true
  end.

(** The float that stands for a score in the array of scores. *)
Definition score_value (v : float) (s : fitted float) : float :=
  match s with FIT_FAILURE => v | Val x => x end.

(** Three candidates, one fold, two equal means. *)
Definition ties_scores : list score_item :=
  map (λ v, Single (Val v)) [F64.dec 9 10; F64.dec 9 10; F64.dec 8 10].

(** The scenario: the test scores of 3 candidates (rows) on 2 folds
    (columns), and the list in which the scheduler hands them over, fold
    after fold. *)
Definition scenario_matrix : list (list float) :=
  [[F64.dec 7 10; F64.dec 8 10];
   [F64.dec 9 10; F64.dec 9 10];
   [F64.dec 5 10; F64.dec 5 10]].

Definition scenario_scores : list score_item :=
  fold ← seq 0 2;
  map (λ row, Single (Val (nth fold row F64.zero))) scenario_matrix.

(* ===================================================================== *)
(** ** Sample collaborators and inputs                                    *)
(* ===================================================================== *)

Module Sample.
(** A dataset provider: [safe_indexing] as the selection of rows along
    the first axis. *)
Definition take_rows (x : option container) (inds : index_set)
  : result container :=
  match x with
  | None => Raise TypeError
  | Some (PyList l) =>
      let? ps := ix_positions (length l) inds in
      Ok (PyList (i ← ps; block 1 l i))
  | Some (NdArray [] _) => Raise IndexError
  | Some (NdArray (n0 :: rest) d) =>
      let? ps := ix_positions n0 inds in
      Ok (NdArray (length ps :: rest) (i ← ps; block (prod_list rest) d i))
  | Some (SpMatrix r c d) =>
      let? ps := ix_positions r inds in
      Ok (SpMatrix (length ps) c (i ← ps; block c d i))
  end.

Definition is_arraylike (x : container) : bool :=
  match x with NdArray [] _ => false | _ => true end.

Definition floats (l : list Z) : list float := map F64.of_Z l.

(** Three samples, two folds. *)
Definition folds : list (index_set * index_set) :=
  [(IntIndex [0; 1], IntIndex [2]); (IntIndex [1; 2], IntIndex [0])]%Z.

Definition X : container := NdArray [3; 2] (floats [1; 2; 3; 4; 5; 6]%Z).
Definition y : option container := Some (NdArray [3] (floats [0; 1; 0]%Z)).

(** A fresh cache with memoization, and what the first extraction of the
    train features of fold 0 leaves. *)
Definition fresh : world := mkWorld (CVCache_init folds false true) [].
Definition after_first : world := snd (extract take_rows X y 0 true true fresh).
Definition X_train0 : container := NdArray [2; 2] (floats [1; 2; 3; 4]%Z).

(** Pairwise mode: a 3 x 3 kernel, a one-dimensional array, a list, and a
    2 x 3 array. *)
Definition fresh_pairwise : world :=
  mkWorld (CVCache_init folds true true) [].
Definition kernel : container :=
  NdArray [3; 3] (floats [1; 2; 3; 4; 5; 6; 7; 8; 9]%Z).
Definition flat_array : container := NdArray [3] (floats [1; 2; 3]%Z).
Definition plain_list : container := PyList (floats [1; 2; 3]%Z).
Definition wide : container := NdArray [2; 3] (floats [1; 2; 3; 4; 5; 6]%Z).
Definition after_kernel : world :=
  snd (extract take_rows kernel None 0 true true fresh_pairwise).

(** Estimators: the leaves are names; cloning and setting parameters
    succeed or fail, fitting fails. *)
Definition est : estimator string := Leaf string "svc".
Definition clone_ok (e : estimator string) : result (estimator string) := Ok e.
Definition clone_fails (e : estimator string) : result (estimator string) :=
  Raise (Fault "cannot clone").
Definition set_ok (e : estimator string) (p : gmap string pyval)
  : result (estimator string) := Ok e.
Definition set_fails (e : estimator string) (p : gmap string pyval)
  : result (estimator string) := Raise (ValueError "Invalid parameter").
Definition fit_fails (e : estimator string) (X y : data)
    (fit_params : gmap string container) : result (estimator string) :=
  Raise (Fault "fit failed").
Definition no_fit_transform (e : estimator string) : bool := false.
Definition fit_transform_fails (e : estimator string) (X y : data)
    (fit_params : gmap string container)
  : result (estimator string * container) := Raise (Fault "fit failed").
Definition transform_fails (e : estimator string) (X : data)
  : result container := Raise (Fault "not fitted").

Definition fields : option (list string) := Some ["C"].
Definition params : option (list (param pyval)) := Some [Given (PyInt 10)].
Definition params_dict : gmap string pyval :=
  dict_of_pairs (given_pairs ["C"] [Given (PyInt 10)]).

(** Branch outputs of a feature union: a dense 2 x 1 block with weight
    2.0, a dropped branch, a sparse 2 x 2 block without weight. *)
Definition dense_block : container := NdArray [2; 1] (floats [1; 2]%Z).
Definition dense_block_scaled : container := NdArray [2; 1] (floats [2; 4]%Z).
Definition sparse_block : container := SpMatrix 2 2 (floats [0; 3; 4; 0]%Z).
Definition branch_outputs : list data :=
  [Some dense_block; None; Some sparse_block].
Definition branch_weights : list (option float) :=
  [Some (F64.of_Z 2); None; None].

(** Tables. *)
Definition table_of (t : result (gmap string column)) : gmap string column :=
  match t with Ok r => r | Raise _ => ∅ end.

Definition cand_A : gmap string pyval := {["n" := PyInt 3]}.
Definition cand_B : gmap string pyval := {["k" := PyInt 5]}.
Definition masked_table : gmap string column :=
  table_of (create_cv_results
              [Single (Val (F64.dec 5 10)); Single (Val (F64.dec 6 10))]
              [cand_A; cand_B] 1 (ErrorScore F64.zero) None).

Definition ties_means : list float :=
  [F64.dec 9 10; F64.dec 9 10; F64.dec 8 10].
Definition ties_table : gmap string column :=
  table_of (create_cv_results ties_scores [∅; ∅; ∅] 1
              (ErrorScore F64.zero) None).

(** Two candidates on two folds; the first one fails on both. *)
Definition failing_scores : list score_item :=
  [Single FIT_FAILURE; Single (Val (F64.dec 8 10));
   Single FIT_FAILURE; Single (Val (F64.dec 6 10))].
Definition fold_sizes : option (list float) := Some (floats [5; 4]%Z).
Definition failing_table : gmap string column :=
  table_of (create_cv_results failing_scores [cand_A; cand_B] 2
              (ErrorScore F64.zero) fold_sizes).
End Sample.

(* ===================================================================== *)
(** ** Further vocabulary and samples                                    *)
(* ===================================================================== *)

(** Unpickling: the class is called on the arguments that [__reduce__]
    returned. *)
Definition CVCache_rebuild
    (args : list (index_set * index_set) * bool * bool) : CVCache :=
  CVCache_init (fst (fst args)) (snd (fst args)) (snd args).

(** The key under which a call memoizes. *)
Definition call_key (c : cache_call) : cache_key :=
  match c with
  | CallExtract _ _ n is_x is_train => slot_key n is_x is_train
  | CallExtractParam key _ n => param_key n key
  end.

(** [n] is no position of a sequence of [len] items, from the front or
    from the end. *)
Definition out_of_range (len : nat) (n : Z) : Prop :=
  (n < - Z.of_nat len ∨ Z.of_nat len <= n)%Z.

(** The dictionary that [cv_extract_params] builds from the outputs
    [outs] of [extract_param]. *)
Definition params_dict_of (keys : list (string * string))
    (outs : list container) : gmap string container :=
  dict_of_pairs (zip (map fst keys) outs).

(** The events of the lock, and the warnings of a trace. *)
Definition is_lock_event {leaf} (ev : event leaf) : bool :=
  match ev with
  | LockAcquire _ | LockRelease _ => true
  | _ => false
  end.

Definition warnings {leaf} (evs : trace leaf) : list (float * exn) :=
  omap (λ ev, match ev with
              | FitFailedWarning _ v e => Some (v, e)
              | _ => None
              end) evs.

(** The trace as an observer that does not see the lock reads it. *)
Definition without_lock {leaf} (evs : trace leaf) : trace leaf :=
  List.filter (λ ev, negb (is_lock_event ev)) evs.

(** [Ok] of the image, or the same exception. *)
Definition result_map {A B} (f : A → B) (r : result A) : result B :=
  match r with Ok a => Ok (f a) | Raise e => Raise e end.

Section FoldData.
Variable safe_indexing : option container → index_set → result container.

(** The four extractions that open [fit_and_score], in their order. *)
Definition extract_fold (X : container) (y : data) (n : Z)
  : M world (data * data * data * data) :=
  let! X_train := extract safe_indexing X y n true true in
  let! y_train := extract safe_indexing X y n false true in
  let! X_test := extract safe_indexing X y n true false in
  let! y_test := extract safe_indexing X y n false false in
  ret (X_train, y_train, X_test, y_test).
End FoldData.

(** The scores of a model that failed to fit. *)
Definition failure_item (return_train_score : bool) : score_item :=
  if return_train_score then Pair FIT_FAILURE FIT_FAILURE
  else Single FIT_FAILURE.

(** The value of a parameter that is not [MISSING]. *)
Definition given {V} (p : param V) : option V :=
  match p with MISSING => None | Given v => Some v end.

Module SampleMore.
(** A fit parameter that is a scalar, the labels of the test fold 1, the
    train rows of a vector of sample weights on fold 0. *)
Definition scalar_param : container := NdArray [] (Sample.floats [7]%Z).
Definition y_test1 : container := NdArray [1] (Sample.floats [0]%Z).
Definition weights_train0 : container := NdArray [2] (Sample.floats [1; 2]%Z).

(** Collaborators that succeed. *)
Definition fitted_est : estimator string := Leaf string "svc, fitted".
Definition fit_ok (e : estimator string) (X y : data)
    (fit_params : gmap string container) : result (estimator string) :=
  Ok fitted_est.
Definition score_unsupervised (e : estimator string) (X : data)
  : result float := Ok (F64.dec 5 10).
Definition score_supervised (e : estimator string) (X : data)
    (y : container) : result float := Ok (F64.of_Z 1).
Definition scorer_fails (e : estimator string) (X : data) (y : container)
  : result float := Raise (Fault "scorer failed").

(** One evaluation of fold 0 that succeeds, with train scores. *)
Definition evaluated : result score_item * (world * trace string) :=
  fit_and_score string Sample.clone_ok Sample.set_ok fit_ok
    score_unsupervised score_supervised Sample.take_rows
    (Val Sample.est) Sample.X Sample.y 0 ErrorRaise None None None true
    (Sample.fresh, []).

(** A block of three rows. *)
Definition tall_block : container := NdArray [3; 1] (Sample.floats [1; 2; 3]%Z).

(** The table of the failing scores under the error score 0.1. *)
Definition penalized_table : gmap string column :=
  Sample.table_of (create_cv_results Sample.failing_scores
                     [Sample.cand_A; Sample.cand_B] 2
                     (ErrorScore (F64.dec 1 10)) Sample.fold_sizes).

(** Candidates given by fields in compressed form. *)
Definition compressed : list (list (param pyval)) :=
  [[Given (PyInt 10); MISSING]; [MISSING; Given (PyStr "rbf")]].
End SampleMore.

(* ===================================================================== *)
(** * Properties                                                          *)
(* ===================================================================== *)

(** ** Sentinels and lists *)

Lemma any_FIT_FAILURE_app {A} (pre post : list (fitted A)) :
  any is_FIT_FAILURE (pre ++ FIT_FAILURE :: post) = true.
Proof.
  unfold any. rewrite existsb_app. simpl. apply orb_true_r.
Qed.

Lemma any_FIT_FAILURE_Val {A} (l : list A) :
  any is_FIT_FAILURE (map Val l) = false.
Proof.
  induction l as [|a l IH]; [reflexivity | exact IH].
Qed.

Lemma the_fitted_Val {A} (l : list A) : the_fitted (map Val l) = l.
Proof.
  induction l as [|a l IH]; [reflexivity|].
  change (the_fitted (map Val (a :: l))) with (a :: the_fitted (map Val l)).
  now rewrite IH.
Qed.

(** A list without [FIT_FAILURE] is the list of its values. *)
Lemma no_failure_Val {A} (l : list (fitted A)) :
  any is_FIT_FAILURE l = false → l = map Val (the_fitted l).
Proof.
  induction l as [|[|a] l IH]; simpl; intros H; [reflexivity | discriminate |].
  change (the_fitted (Val a :: l)) with (a :: the_fitted l).
  simpl. f_equal. now apply IH.
Qed.

Lemma any_FIT_FAILURE_elem_of {A} (l : list (fitted A)) :
  any is_FIT_FAILURE l = true ↔ FIT_FAILURE ∈ l.
Proof.
  unfold any. rewrite existsb_exists. split.
  - intros ([|a] & Hin & Hf); [|discriminate]. now apply list_elem_of_In.
  - intros Hin. exists FIT_FAILURE. split; [now apply list_elem_of_In | reflexivity].
Qed.

(** ** Python indexing *)

Lemma py_getitem_nat {A} (l : list A) (i : nat) (a : A) :
  l !! i = Some a → py_getitem l (Z.of_nat i) = Ok a.
Proof.
  intros H. pose proof (lookup_lt_Some _ _ _ H) as Hlt.
  unfold py_getitem.
  destruct (Z.ltb_spec (Z.of_nat i) 0) as [?|_]; [lia|].
  destruct (Z.leb_spec 0 (Z.of_nat i)) as [_|?]; [|lia].
  destruct (Z.ltb_spec (Z.of_nat i) (Z.of_nat (length l))) as [_|?]; [|lia].
  simpl. rewrite Nat2Z.id. now rewrite H.
Qed.

(** ** The fold cache *)

Lemma cache_lookup_set_cache k c (w : world) :
  cache_lookup k (set_cache (Some c) w) = c !! k.
Proof. reflexivity. Qed.

Lemma cache_lookup_log_probe k p (w : world) :
  cache_lookup k (log_probe p w) = cache_lookup k w.
Proof. reflexivity. Qed.

Lemma cache_lookup_Some_enabled k v (w : world) :
  cache_lookup k w = Some v → ∃ c, cache (self w) = Some c ∧ c !! k = Some v.
Proof.
  unfold cache_lookup. destruct (cache (self w)) as [c|]; simpl; [|discriminate].
  intros H. now exists c.
Qed.

Section FoldCacheProperties.
Variable safe_indexing : option container → index_set → result container.
Variable _is_arraylike : container → bool.

Local Abbreviation extract' := (extract safe_indexing).
Local Abbreviation _extract' := (_extract safe_indexing).
Local Abbreviation extract_param' :=
  (extract_param safe_indexing _is_arraylike).
Local Abbreviation run_calls' := (run_calls safe_indexing _is_arraylike).
Local Abbreviation compute_extract' := (compute_extract safe_indexing).
Local Abbreviation compute_param' :=
  (compute_param safe_indexing _is_arraylike).
Local Abbreviation chosen_compute' := (chosen_compute safe_indexing).

Ltac run_cache :=
  unfold _extract, _extract_pairwise, extract_param, memoized,
    compute_extract, compute_pairwise, compute_param,
    call_safe_indexing,
    call_ix_getitem, cache_store, bind, gets, ret, raise, lift, modify
    in *.

Lemma _extract_memoized X y n is_x is_train w :
  _extract' X y n is_x is_train w =
    memoized (slot_key n is_x is_train)
             (compute_extract' X y n is_x is_train) w.
Proof.
  run_cache. destruct (cache_lookup _ w); [reflexivity|].
  destruct (py_getitem _ n); [|reflexivity]. simpl.
  destruct (safe_indexing _ _); reflexivity.
Qed.

Lemma _extract_pairwise_memoized X y n is_train w :
  _extract_pairwise X y n is_train w =
    memoized (slot_key n true is_train) (compute_pairwise X n is_train) w.
Proof.
  run_cache. destruct (cache_lookup _ w); [reflexivity|].
  destruct (get_shape X) as [sh|]; [|reflexivity].
  destruct (shape_item sh 0); [|reflexivity].
  destruct (shape_item sh 1); [|reflexivity].
  destruct (negb _); [reflexivity|].
  destruct (py_getitem _ n) as [[train test]|]; [|reflexivity]. simpl.
  destruct (ix_getitem _ _ _); reflexivity.
Qed.

Lemma extract_param_memoized key x n w :
  extract_param' key x n w =
    memoized (param_key n key) (compute_param' x n) w.
Proof.
  run_cache. destruct (cache_lookup _ w); [reflexivity|].
  destruct (_is_arraylike x); [|reflexivity].
  destruct (py_getitem _ n); [|reflexivity]. simpl.
  destruct (safe_indexing _ _); reflexivity.
Qed.

Lemma compute_extract_keeps_self X y n is_x is_train :
  keeps_self (compute_extract' X y n is_x is_train).
Proof.
  intros w r w1. run_cache.
  destruct (py_getitem _ n); simpl; intros H; now inversion H.
Qed.

Lemma compute_pairwise_keeps_self X n is_train :
  keeps_self (compute_pairwise X n is_train).
Proof.
  intros w r w1. run_cache.
  destruct (get_shape X) as [sh|]; [|intros H; now inversion H].
  destruct (shape_item sh 0); [|intros H; now inversion H].
  destruct (shape_item sh 1); [|intros H; now inversion H].
  destruct (negb _); [intros H; now inversion H|].
  destruct (py_getitem _ n); simpl; intros H; now inversion H.
Qed.

Lemma compute_param_keeps_self x n : keeps_self (compute_param' x n).
Proof.
  intros w r w1. run_cache.
  destruct (_is_arraylike x); [|intros H; now inversion H].
  destruct (py_getitem _ n); simpl; intros H; now inversion H.
Qed.

(** *** The memoization pattern *)

Lemma memoized_hit k compute w v :
  cache_lookup k w = Some v → memoized k compute w = (Ok v, w).
Proof. intros H. unfold memoized. now rewrite H. Qed.

Lemma memoized_self k compute w r w' :
  keeps_self compute →
  memoized k compute w = (r, w') →
  splits (self w') = splits (self w)
  ∧ pairwise (self w') = pairwise (self w)
  ∧ (cache (self w) = None → cache (self w') = None)
  ∧ (cache (self w) ≠ None → cache (self w') ≠ None).
Proof.
  intros Hk H. unfold memoized in H.
  destruct (cache_lookup k w); [inversion H; subst; tauto|].
  destruct (compute w) as [[v|e] w1] eqn:Hc; apply Hk in Hc;
    inversion H; subst; clear H; rewrite <- Hc.
  - destruct (cache (self w1)) eqn:E; simpl; rewrite ?E; intuition congruence.
  - tauto.
Qed.

Lemma memoized_stores k compute w v w' :
  keeps_self compute →
  cache (self w) ≠ None →
  memoized k compute w = (Ok v, w') →
  cache_lookup k w' = Some v.
Proof.
  intros Hk Hen H. unfold memoized in H.
  destruct (cache_lookup k w) eqn:Hhit; [now inversion H; subst|].
  destruct (compute w) as [[r|e] w1] eqn:Hc; [|discriminate].
  apply Hk in Hc. inversion H; subst; clear H.
  destruct (cache (self w1)) as [c|] eqn:Hc1; [|congruence].
  rewrite cache_lookup_set_cache. apply lookup_insert_eq.
Qed.

Lemma memoized_keeps_entries k compute w r w' k0 c0 :
  keeps_self compute →
  memoized k compute w = (r, w') →
  cache_lookup k0 w = Some c0 →
  cache_lookup k0 w' = Some c0.
Proof.
  intros Hk H H0. unfold memoized in H.
  destruct (cache_lookup k w) eqn:Hhit; [now inversion H; subst|].
  assert (k ≠ k0) as Hne by congruence.
  destruct (compute w) as [[v|e] w1] eqn:Hc; apply Hk in Hc;
    inversion H; subst; clear H.
  - unfold cache_lookup in H0 |- *. rewrite <- Hc in H0.
    destruct (cache (self w1)) as [c|]; simpl in *; [|discriminate].
    now rewrite lookup_insert_ne.
  - unfold cache_lookup in *. now rewrite Hc.
Qed.

(** *** [extract] and [extract_param] through the pattern *)

Lemma chosen_compute_keeps_self p X y n is_x is_train :
  keeps_self (chosen_compute' p X y n is_x is_train).
Proof.
  unfold chosen_compute. destruct (is_x && p).
  - apply compute_pairwise_keeps_self.
  - apply compute_extract_keeps_self.
Qed.

Lemma extract_as_memoized X y n is_x is_train w :
  extract' X y n is_x is_train w =
    match is_x, y with
    | false, None => (Ok None, w)
    | _, _ =>
        some_result
          (memoized (slot_key n is_x is_train)
             (chosen_compute' (pairwise (self w)) X y n is_x is_train) w)
    end.
Proof.
  unfold extract, chosen_compute, some_result.
  destruct is_x; simpl.
  - unfold bind at 1. unfold gets at 1.
    destruct (pairwise (self w)).
    + unfold bind, ret. rewrite _extract_pairwise_memoized.
      destruct y; destruct (memoized _ _ w) as [[a|e] w1]; reflexivity.
    + unfold bind, ret. rewrite _extract_memoized.
      destruct y; destruct (memoized _ _ w) as [[a|e] w1]; reflexivity.
  - destruct y as [y0|]; [|reflexivity].
    unfold bind, ret. rewrite _extract_memoized.
    destruct (memoized _ _ w) as [[a|e] w1]; reflexivity.
Qed.

Lemma run_call_keeps_entries w c k v :
  cache_lookup k w = Some v →
  cache_lookup k (run_call safe_indexing _is_arraylike w c) = Some v.
Proof.
  intros Hk. destruct c as [X y n is_x is_train | key x n]; simpl.
  - rewrite extract_as_memoized.
    assert (∀ rw, cache_lookup k (some_result rw).2 = cache_lookup k rw.2)
      as Hsome by (intros [[a|e] w1]; reflexivity).
    destruct is_x, y; simpl; try exact Hk; rewrite Hsome;
      destruct (memoized _ _ w) as [r w1] eqn:Hm; simpl;
      eapply memoized_keeps_entries; eauto using chosen_compute_keeps_self.
  - rewrite extract_param_memoized.
    destruct (memoized _ _ w) as [r w1] eqn:Hm; simpl.
    eapply memoized_keeps_entries; eauto using compute_param_keeps_self.
Qed.

Lemma run_calls_keep_entries calls w k v :
  cache_lookup k w = Some v →
  cache_lookup k (run_calls' calls w) = Some v.
Proof.
  revert w. induction calls as [|c calls IH]; intros w Hk; [exact Hk|].
  simpl. apply IH. now apply run_call_keeps_entries.
Qed.

Lemma extract_hit (w : world) X y n is_x is_train r :
  cache_lookup (slot_key n is_x is_train) w = Some r →
  (is_x = false → y ≠ None) →
  extract' X y n is_x is_train w = (Ok (Some r), w).
Proof.
  intros Hhit Hy. rewrite extract_as_memoized.
  rewrite (memoized_hit _ _ _ _ Hhit).
  destruct is_x; [reflexivity|].
  destruct y; [reflexivity|]. now destruct (Hy eq_refl).
Qed.

(** What [extract] returns: [None] for the labels of a dataset without
    labels, a subset otherwise. *)
Lemma extract_value (w w' : world) X y n is_x is_train v :
  extract' X y n is_x is_train w = (Ok v, w') →
  (v = None ∧ is_x = false ∧ y = None)
  ∨ (∃ r, v = Some r ∧ (is_x = false → y ≠ None)).
Proof.
  rewrite extract_as_memoized.
  destruct (memoized (slot_key n is_x is_train)
              (chosen_compute' (pairwise (self w)) X y n is_x is_train) w)
    as [[a|e] w1].
  - destruct is_x, y; simpl; intros H; inversion H; subst;
      try (right; eexists; split; [reflexivity|]; intros; discriminate);
      left; auto.
  - destruct is_x, y; simpl; intros H; inversion H; subst; left; auto.
Qed.

(** C1. On a cache with memoization enabled, when [extract] has returned
    [v] for [(n, is_x, is_train)], a second call with the same arguments
    returns [v] again and leaves the world as it is: the cache is the same
    and no extraction is added to the log, so nothing is computed again.
    The subset returned is the entry stored under the key, and whatever
    calls of [extract] and [extract_param] follow, every entry of the
    cache keeps the value it was stored with. The same holds at any later
    time of the life of the cache: after any calls of [extract] and
    [extract_param], the call with these arguments still returns [v], and
    it changes neither the cache nor the log of extractions. *)
Theorem extract_is_memoized :
  ∀ (w w' : world) X y n is_x is_train v,
    cache (self w) ≠ None →
    extract' X y n is_x is_train w = (Ok v, w') →
    extract' X y n is_x is_train w' = (Ok v, w')
    ∧ (∀ r, v = Some r →
            cache_lookup (slot_key n is_x is_train) w' = Some r)
    ∧ (∀ calls k c,
          cache_lookup k w' = Some c →
          cache_lookup k (run_calls' calls w') = Some c)
    ∧ (∀ calls,
          extract' X y n is_x is_train (run_calls' calls w')
          = (Ok v, run_calls' calls w')).
Proof.
  intros w w' X y n is_x is_train v Hen H.
  assert (∀ r, v = Some r →
               cache_lookup (slot_key n is_x is_train) w' = Some r) as Hstored.
  { intros r ->. rewrite extract_as_memoized in H.
    destruct (memoized (slot_key n is_x is_train)
                (chosen_compute' (pairwise (self w)) X y n is_x is_train) w)
      as [[a|e] w1] eqn:Hm.
    + pose proof (memoized_stores _ _ _ _ _
                    (chosen_compute_keeps_self _ _ _ _ _ _) Hen Hm) as Hst.
      destruct is_x, y; simpl in H; inversion H; subst; exact Hst.
    + destruct is_x, y; simpl in H; inversion H. }
  assert (∀ calls,
            extract' X y n is_x is_train (run_calls' calls w')
            = (Ok v, run_calls' calls w')) as Hlater.
  { intros calls.
    destruct (extract_value _ _ _ _ _ _ _ _ H)
      as [(-> & -> & ->) | (r & -> & Hy)]; [reflexivity|].
    apply extract_hit; [|exact Hy].
    apply run_calls_keep_entries. now apply Hstored. }
  split; [exact (Hlater [])|]. split; [exact Hstored|].
  split; [|exact Hlater].
  intros; now apply run_calls_keep_entries.
Qed.
(** *** Pairwise mode *)

Lemma mapM_length {A B} (f : A → result B) (l : list A) (l' : list B) :
  mapM f l = Ok l' → length l' = length l.
Proof.
  revert l'. induction l as [|a l IH]; simpl; intros l' H.
  - now inversion H.
  - destruct (f a) as [b|e]; simpl in H; [|discriminate].
    destruct (mapM f l) as [bs|e]; simpl in H; [|discriminate].
    inversion H; subst. simpl. f_equal. now apply IH.
Qed.

Lemma nonzero_from_length k (mask : list bool) :
  length (nonzero_from k mask) = length (filter (λ b, b = true) mask).
Proof.
  revert k. induction mask as [|b mask IH]; intros k; [reflexivity|].
  destruct b; cbn [nonzero_from].
  - rewrite filter_cons_True by reflexivity. cbn [length]. f_equal. apply IH.
  - rewrite filter_cons_False by discriminate. apply IH.
Qed.

Lemma ix_positions_length n i ps :
  ix_positions n i = Ok ps → length ps = index_count i.
Proof.
  destruct i as [idx|mask]; simpl; intros H; apply mapM_length in H.
  - exact H.
  - rewrite H. apply nonzero_from_length.
Qed.

Lemma shape_item_0 d0 rest : shape_item (d0 :: rest) 0 = Ok d0.
Proof. apply (py_getitem_nat (d0 :: rest) 0). reflexivity. Qed.

Lemma shape_item_1 d0 d1 rest : shape_item (d0 :: d1 :: rest) 1 = Ok d1.
Proof. apply (py_getitem_nat (d0 :: d1 :: rest) 1). reflexivity. Qed.

(** On a container that is square on its first two axes and has exactly
    two of them, [X[np.ix_(rows, cols)]] is the mesh of the selected rows
    and columns. *)
Lemma ix_getitem_square X m rows cols rs cs :
  get_shape X = Some [m; m] →
  ix_positions m rows = Ok rs →
  ix_positions m cols = Ok cs →
  ∃ r, ix_getitem X rows cols = Ok r
       ∧ get_shape r = Some [index_count rows; index_count cols]
       ∧ issparse r = issparse X
       ∧ elements r = (i ← rs; j ← cs; block 1 (elements X) (i * m + j)).
Proof.
  intros Hsh Hr Hc.
  pose proof (ix_positions_length _ _ _ Hr) as Hlr.
  pose proof (ix_positions_length _ _ _ Hc) as Hlc.
  destruct X as [l | sh d | r0 c0 d]; simpl in Hsh; [discriminate | |];
    inversion Hsh; subst; simpl; rewrite Hr, Hc; simpl;
    eexists; (split; [reflexivity|]); simpl; rewrite Hlr, Hlc; auto.
Qed.

(** C7 (as amended). In pairwise mode, when nothing is cached under the
    key: feature extraction raises [ValueError] on a container without a
    [shape] attribute, and on a container whose shape has at least two
    axes with different first two lengths; on a two-dimensional square
    container, for a fold whose positions are all within the axis, it
    returns the rows of the train (test) index set and the columns of the
    train index set, of shape (|train|, |train|) for the train slice and
    (|test|, |train|) for the test slice. *)
Theorem pairwise_extraction_validates_and_slices :
  ∀ (w : world) X y n is_train,
    pairwise (self w) = true →
    cache_lookup (slot_key n true is_train) w = None →
    (get_shape X = None →
       ∃ msg, extract' X y n true is_train w = (Raise (ValueError msg), w))
    ∧ (∀ d0 d1 rest,
          get_shape X = Some (d0 :: d1 :: rest) → d0 ≠ d1 →
          ∃ msg, extract' X y n true is_train w = (Raise (ValueError msg), w))
    ∧ (∀ m train test rs cs,
          get_shape X = Some [m; m] →
          py_getitem (splits (self w)) n = Ok (train, test) →
          ix_positions m (if is_train then train else test) = Ok rs →
          ix_positions m train = Ok cs →
          ∃ r w',
            extract' X y n true is_train w = (Ok (Some r), w')
            ∧ get_shape r =
                Some [index_count (if is_train then train else test);
                      index_count train]
            ∧ elements r = (i ← rs; j ← cs; block 1 (elements X) (i * m + j))).
Proof.
  intros w X y n is_train Hp Hmiss.
  assert (extract' X y n true is_train w
          = some_result (_extract_pairwise X y n is_train w)) as Hex.
  { unfold extract, some_result. simpl.
    unfold bind at 1. unfold gets at 1. rewrite Hp.
    unfold bind, ret.
    now destruct (_extract_pairwise X y n is_train w) as [[a|e] w1]. }
  rewrite Hex. clear Hex.
  assert (∀ sh, get_shape X = Some sh →
            _extract_pairwise X y n is_train w =
            (let! d0 := lift (shape_item sh 0) in
             let! d1 := lift (shape_item sh 1) in
             if negb (d0 =? d1) then
               raise (ValueError "X should be a square kernel matrix")
             else
               let! split := bind (gets (λ w, splits (self w)))
                                  (λ sp, lift (py_getitem sp n)) in
               let '(train, test) := split in
               let! result :=
                 call_ix_getitem X (if is_train then train else test) train in
               cache_store (slot_key n true is_train) result ;;!
               ret result) w) as Hbody.
  { intros sh Hsh. unfold _extract_pairwise. unfold bind at 1.
    unfold gets at 1. now rewrite Hmiss, Hsh. }
  repeat apply conj.
  - intros Hsh. unfold _extract_pairwise. unfold bind at 1. unfold gets at 1.
    rewrite Hmiss, Hsh. eexists. reflexivity.
  - intros d0 d1 rest Hsh Hne. rewrite (Hbody _ Hsh).
    unfold bind, lift. rewrite shape_item_0, shape_item_1.
    assert (negb (d0 =? d1) = true) as ->
      by (apply negb_true_iff, Nat.eqb_neq, Hne).
    eexists. reflexivity.
  - intros m train test rs cs Hsh Hsplit Hr Hc. rewrite (Hbody _ Hsh).
    unfold bind, lift, gets. rewrite shape_item_0, shape_item_1.
    rewrite Nat.eqb_refl. cbn [negb]. cbv beta iota. rewrite Hsplit.
    destruct (ix_getitem_square X m _ train rs cs Hsh Hr Hc)
      as (r & Hix & Hshape & _ & Hel).
    unfold call_ix_getitem, cache_store, bind, modify, lift, ret.
    rewrite Hix. simpl. eexists r, _. split; [reflexivity|]. split; assumption.
Qed.
End FoldCacheProperties.

(** ** Concatenation of branch outputs *)

Lemma container_eq_intro (X X' : container) :
  get_shape X ≠ None →
  get_shape X' = get_shape X →
  issparse X' = issparse X →
  elements X' = elements X →
  X' = X.
Proof.
  destruct X as [l|sh d|r c d], X' as [l'|sh' d'|r' c' d']; simpl;
    intros Hn Hs Hsp He; try congruence.
Qed.

Lemma scale_scaled_by w X X' : scaled_by w X X' → scale X w = Ok X'.
Proof.
  intros (Hn & Hs & Hsp & He).
  destruct X as [l|sh d|r c d]; simpl in *; [congruence | |]; f_equal;
    symmetry; apply container_eq_intro; simpl; auto; congruence.
Qed.

Lemma weighted_branches_cons X Xs w ws :
  weighted_branches (X :: Xs) (w :: ws) =
    match X with
    | None => weighted_branches Xs ws
    | Some X =>
        let? X' := (match w with None => Ok X | Some w => scale X w end) in
        let? bs := weighted_branches Xs ws in Ok (X' :: bs)
    end.
Proof. destruct X; reflexivity. Qed.

Lemma weighted_branches_survivors Xs ws bs :
  scaled_survivors Xs ws bs → weighted_branches Xs ws = Ok bs.
Proof.
  induction 1 as [|Xs ws bs w _ IH|Xs ws bs X _ IH|Xs ws bs X w X' Hs _ IH];
    rewrite ?weighted_branches_cons.
  - reflexivity.
  - exact IH.
  - now rewrite IH.
  - rewrite (scale_scaled_by _ _ _ Hs). simpl. now rewrite IH.
Qed.

Lemma mapM_Forall2 {A B} (f : A → result B) (R : A → B → Prop) l l' :
  (∀ a b, R a b → f a = Ok b) → Forall2 R l l' → mapM f l = Ok l'.
Proof.
  intros Hf. induction 1 as [|a b l l' Hab _ IH]; simpl; [reflexivity|].
  now rewrite (Hf _ _ Hab), IH.
Qed.

Lemma bind_map_list {A B C} (f : A → B) (g : B → list C) (l : list A) :
  (b ← map f l; g b) = (a ← l; g (f a)).
Proof.
  induction l as [|a l IH]; [reflexivity|].
  cbn [map]. now rewrite !bind_cons, IH.
Qed.

Lemma map_snd_zip_Forall2 {A B C} (R : A → B → Prop) (f : A * B → C)
    (g : C → B) (l : list A) (k : list B) :
  (∀ ab, g (f ab) = snd ab) → Forall2 R l k → map g (map f (zip l k)) = k.
Proof.
  intros Hg. induction 1 as [|a b l k _ _ IH]; [reflexivity|].
  simpl. rewrite Hg. simpl. f_equal. exact IH.
Qed.

Lemma forallb_map_zip {A B C} (p : C → bool) (f : A * B → C)
    (l : list A) (k : list B) :
  (∀ ab, p (f ab) = true) → forallb p (map f (zip l k)) = true.
Proof.
  intros Hp. apply forallb_forall. intros c Hin.
  apply in_map_iff in Hin as (ab & <- & _). apply Hp.
Qed.

(** Dense blocks of [n] rows: [np.hstack] chains their rows. *)
Lemma np_hstack_2d n (bs : list container) (cols : list nat) :
  bs ≠ [] →
  any issparse bs = false →
  Forall2 (λ b c, get_shape b = Some [n; c]) bs cols →
  np_hstack bs =
    Ok (NdArray [n; sum_list cols]
          (i ← seq 0 n; bc ← zip bs cols; row_of (snd bc) (fst bc) i)).
Proof.
  intros Hne Hsp Hsh. unfold np_hstack.
  set (f := λ bc : container * nat, ([n; snd bc], elements (fst bc))).
  assert (mapM atleast_1d bs = Ok (map f (zip bs cols))) as ->.
  { clear Hne. induction Hsh as [|b c bs cols Hb _ IH]; [reflexivity|].
    simpl in Hsp. apply orb_false_iff in Hsp as [Hb' Hsp].
    simpl. rewrite (IH Hsp).
    destruct b as [l|sh d|r0 c0 d]; simpl in *; try discriminate.
    inversion Hb; subst. reflexivity. }
  simpl. destruct Hsh as [|b c bs cols Hb Hsh]; [congruence|].
  cbn [zip combine map fst snd f]. fold f.
  change (f (b, c) :: map f (combine bs cols))
    with (map f (zip (b :: bs) (c :: cols))).
  rewrite forallb_map_zip
    by (intros [b' c']; unfold f; simpl; rewrite Nat.eqb_refl; reflexivity).
  change (combine bs cols) with (zip bs cols).
  rewrite (map_snd_zip_Forall2 _ f (λ a, nth 1 (fst a) 0) bs cols)
    by (intros; reflexivity || eassumption).
  cbn [nth].
  do 2 f_equal. apply list_bind_ext; [|reflexivity]. intros i.
  rewrite bind_map_list. apply list_bind_ext; [|reflexivity].
  intros [b' c']. unfold row_of, f. simpl. now rewrite Nat.mul_1_r.
Qed.

(** Blocks of [n] rows, one of them sparse: [sparse.hstack] chains their
    rows into a sparse matrix. *)
Lemma sparse_hstack_2d n (bs : list container) (cols : list nat) :
  bs ≠ [] →
  Forall2 (λ b c, get_shape b = Some [n; c]) bs cols →
  sparse_hstack bs =
    Ok (SpMatrix n (sum_list cols)
          (i ← seq 0 n; bc ← zip bs cols; row_of (snd bc) (fst bc) i)).
Proof.
  intros Hne Hsh. unfold sparse_hstack.
  set (f := λ bc : container * nat, (n, snd bc, elements (fst bc))).
  assert (mapM as_matrix bs = Ok (map f (zip bs cols))) as ->.
  { clear Hne. induction Hsh as [|b c bs cols Hb _ IH]; [reflexivity|].
    simpl. rewrite IH.
    destruct b as [l|sh d|r0 c0 d]; simpl in *; try discriminate;
      inversion Hb; subst; reflexivity. }
  simpl. destruct Hsh as [|b c bs cols Hb Hsh]; [congruence|].
  cbn [zip combine map fst snd f]. fold f.
  change (f (b, c) :: map f (combine bs cols))
    with (map f (zip (b :: bs) (c :: cols))).
  rewrite forallb_map_zip by (intros [b' c']; unfold f; simpl; apply Nat.eqb_refl).
  change (combine bs cols) with (zip bs cols).
  rewrite (map_snd_zip_Forall2 _ f (λ m, snd (fst m)) bs cols)
    by (intros; reflexivity || eassumption).
  do 2 f_equal. apply list_bind_ext; [|reflexivity]. intros i.
  rewrite bind_map_list. apply list_bind_ext; [|reflexivity].
  intros [b' c']. reflexivity.
Qed.

Lemma np_zeros_no_columns n : np_zeros [n; 0] = NdArray [n; 0] [].
Proof.
  unfold np_zeros, prod_list. simpl. now rewrite Nat.mul_0_r.
Qed.

(** C6. [feature_union_concat] returns [FIT_FAILURE] when a branch output
    is [FIT_FAILURE]. Otherwise, with [branches] the outputs that are not
    [None], each scaled elementwise by its weight when it has one: when
    every branch is dropped the result is the empty block of shape
    (nsamples, 0); when the surviving blocks have [n] rows each, the result
    has [n] rows and the sum of their columns, each of its rows chains the
    rows of the blocks in order, and it is sparse exactly when one of the
    surviving blocks is sparse. *)
Theorem feature_union_concat_spec :
  ∀ (nsamples : nat),
    (∀ pre post weights,
        feature_union_concat (pre ++ FIT_FAILURE :: post) nsamples weights
        = Ok FIT_FAILURE)
    ∧ (∀ (Xs : list data) weights branches,
          scaled_survivors Xs weights branches →
          (branches = [] →
             feature_union_concat (map Val Xs) nsamples weights
             = Ok (Val (NdArray [nsamples; 0] [])))
          ∧ (∀ n cols,
                branches ≠ [] →
                Forall2 (λ b c, get_shape b = Some [n; c]) branches cols →
                ∃ out,
                  feature_union_concat (map Val Xs) nsamples weights
                  = Ok (Val out)
                  ∧ issparse out = any issparse branches
                  ∧ get_shape out = Some [n; sum_list cols]
                  ∧ elements out =
                      (i ← seq 0 n; bc ← zip branches cols;
                       row_of (snd bc) (fst bc) i))).
Proof.
  intros nsamples. split.
  - intros pre post weights. unfold feature_union_concat.
    now rewrite any_FIT_FAILURE_app.
  - intros Xs weights branches Hsurv.
    apply weighted_branches_survivors in Hsurv.
    unfold feature_union_concat.
    rewrite any_FIT_FAILURE_Val, the_fitted_Val, Hsurv. simpl.
    split.
    + intros ->. now rewrite np_zeros_no_columns.
    + intros n cols Hne Hsh.
      destruct branches as [|b bs]; [congruence|].
      destruct (any issparse (b :: bs)) eqn:Hsp.
      * rewrite (sparse_hstack_2d n _ cols Hne Hsh). simpl.
        eexists. repeat split; reflexivity.
      * rewrite (np_hstack_2d n _ cols Hne Hsp Hsh). simpl.
        eexists. repeat split; reflexivity.
Qed.

(** ** binary64: order and small integers *)

(** The order of two floats that are not NaN, as an integer comparison of
    keys: class first, then exponent, then mantissa. *)
Lemma SFcompare_finite_pos m1 e1 m2 e2 :
  SFcompare (S754_finite false m1 e1) (S754_finite false m2 e2) =
    Some (match (e1 ?= e2)%Z with
          | Lt => Lt | Gt => Gt | Eq => (m1 ?= m2)%positive end).
Proof. reflexivity. Qed.

Lemma SFcompare_finite_neg m1 e1 m2 e2 :
  SFcompare (S754_finite true m1 e1) (S754_finite true m2 e2) =
    Some (match (e1 ?= e2)%Z with
          | Lt => Gt | Gt => Lt | Eq => CompOpp (m1 ?= m2)%positive end).
Proof. reflexivity. Qed.

Ltac cmp_cases :=
  repeat match goal with
  | |- context [(?a ?= ?b)%Z] =>
      destruct (Z.compare_spec a b); subst
  | |- context [(?a ?= ?b)%positive] =>
      destruct (Pos.compare_spec a b); subst
  | H : context [(?a ?= ?b)%Z] |- _ =>
      destruct (Z.compare_spec a b); subst
  | H : context [(?a ?= ?b)%positive] |- _ =>
      destruct (Pos.compare_spec a b); subst
  end; simpl in *; try congruence; try lia.

Lemma SFltb_trans x y z :
  SFltb x y = true → SFltb y z = true → SFltb x z = true.
Proof.
  unfold SFltb.
  destruct x as [sx|sx| |sx mx ex], y as [sy|sy| |sy my ey],
    z as [sz|sz| |sz mz ez];
    try (destruct sx); try (destruct sy); try (destruct sz);
    try (simpl; congruence);
    rewrite ?SFcompare_finite_pos, ?SFcompare_finite_neg; intros H1 H2;
    cmp_cases.
Qed.

Lemma SFltb_irrefl x : SFltb x x = false.
Proof.
  unfold SFltb. destruct x as [[]|[]| |[] m e]; try reflexivity;
    rewrite ?SFcompare_finite_pos, ?SFcompare_finite_neg;
    rewrite Z.compare_refl, Pos.compare_refl; reflexivity.
Qed.

Lemma SFltb_negtrans x y z :
  F64.is_nan y = false →
  SFltb x y = false → SFltb y z = false → SFltb x z = false.
Proof.
  unfold SFltb.
  destruct x as [sx|sx| |sx mx ex], y as [sy|sy| |sy my ey],
    z as [sz|sz| |sz mz ez];
    try (destruct sx); try (destruct sy); try (destruct sz);
    try (simpl; congruence);
    rewrite ?SFcompare_finite_pos, ?SFcompare_finite_neg; intros _ H1 H2;
    cmp_cases.
Qed.

Lemma neqb_ltb x y :
  F64.is_nan x = false → F64.is_nan y = false →
  F64.neqb x y = SFltb x y || SFltb y x.
Proof.
  unfold F64.neqb, SFeqb, SFltb.
  destruct x as [sx|sx| |sx mx ex], y as [sy|sy| |sy my ey];
    try (destruct sx); try (destruct sy);
    try (simpl; congruence);
    rewrite ?SFcompare_finite_pos, ?SFcompare_finite_neg; intros _ _;
    cmp_cases.
Qed.

Lemma digits2_iter_xO p q :
  digits2_pos (Pos.iter xO p q) = (digits2_pos p + q)%positive.
Proof.
  induction q as [|q IH] using Pos.peano_ind.
  - simpl. lia.
  - rewrite Pos.iter_succ. simpl. rewrite IH. lia.
Qed.

Lemma binary_round_small p :
  (Zpos (digits2_pos p) <= 53)%Z →
  is_pos_finite (binary_round 53 1024 false p 0) = true.
Proof.
  intros Hd. unfold binary_round.
  set (d := digits2_pos p) in *.
  assert (fexp 53 1024 (Z.pos d + 0) = (Z.pos d - 53)%Z) as ->.
  { unfold fexp, emin. lia. }
  assert (∃ mz ez, shl_align p 0 (Z.pos d - 53) = (mz, ez)
                   ∧ Zpos (digits2_pos mz) = 53%Z ∧ (-52 <= ez <= 0)%Z)
    as (mz & ez & -> & Hmz & Hez).
  { unfold shl_align. destruct (Z.pos d - 53 - 0)%Z as [|q|q] eqn:E.
    - exists p, 0%Z. repeat split; try fold d; lia.
    - lia.
    - exists (Pos.iter xO p q), (Z.pos d - 53)%Z.
      repeat split; rewrite ?digits2_iter_xO; try fold d; lia. }
  unfold binary_round_aux, shr_fexp. cbn [Zdigits2]. rewrite Hmz.
  assert (fexp 53 1024 (53 + ez) - ez = 0)%Z as ->
    by (unfold fexp, emin; lia).
  cbn. rewrite Hmz.
  assert (fexp 53 1024 (53 + ez) - ez = 0)%Z as ->
    by (unfold fexp, emin; lia).
  cbn. destruct (Z.leb_spec ez (1024 - 53)); [reflexivity | lia].
Qed.

Lemma digits2_pos_bound p k :
  (Zpos p < 2 ^ Z.of_nat k)%Z → (Zpos (digits2_pos p) <= Z.of_nat k)%Z.
Proof.
  revert p. induction k as [|k IH]; intros p Hp.
  - simpl in Hp. lia.
  - rewrite Nat2Z.inj_succ, Z.pow_succ_r in Hp by lia.
    destruct p as [p|p|]; simpl; try lia.
    + assert (Zpos p < 2 ^ Z.of_nat k)%Z as H by lia. apply IH in H. lia.
    + assert (Zpos p < 2 ^ Z.of_nat k)%Z as H by lia. apply IH in H. lia.
Qed.

Lemma of_nat_pos_finite n :
  0 < n → (Z.of_nat n < 2 ^ 53)%Z → is_pos_finite (F64.of_nat n) = true.
Proof.
  intros Hn Hb. unfold F64.of_nat, F64.of_Z, binary_normalize.
  destruct (Z.of_nat n) as [|p|p] eqn:E; try lia.
  apply binary_round_small. apply (digits2_pos_bound p 53). exact Hb.
Qed.

(** ** [rankdata] *)

(** *** Index arithmetic of [rankdata] *)

Lemma inverse_fold (l : list nat) (base : list nat) (k0 : nat) :
  NoDup l → Forall (λ s, s < length base) l →
  let r := foldl (λ inv ks, <[snd ks := fst ks]> inv) base
                 (imap (λ k s, (k0 + k, s)) l) in
  length r = length base
  ∧ (∀ k s, l !! k = Some s → r !! s = Some (k0 + k))
  ∧ (∀ s, s ∉ l → r !! s = base !! s).
Proof.
  revert base k0. induction l as [|s0 l IH]; intros base k0 Hnd Hlt r.
  - subst r. simpl. repeat split; auto. intros k s H. discriminate.
  - apply NoDup_cons in Hnd as [Hnotin Hnd].
    apply Forall_cons in Hlt as [Hs0 Hlt].
    subst r. rewrite imap_cons. cbn [foldl fst snd].
    rewrite (imap_ext _ (λ k s, (S k0 + k, s)))
      by (intros; unfold compose; f_equal; lia).
    destruct (IH (<[s0 := k0 + 0]> base) (S k0) Hnd) as (Hlen & Hin & Hout).
    { now rewrite length_insert. }
    rewrite length_insert in Hlen. repeat split.
    + exact Hlen.
    + intros [|k] s Hk; simpl in Hk.
      * inversion Hk; subst. rewrite (Hout _ Hnotin).
        now rewrite list_lookup_insert_eq.
      * rewrite (Hin _ _ Hk). f_equal. lia.
    + intros s Hs. apply not_elem_of_cons in Hs as [Hne Hs].
      rewrite (Hout _ Hs). now rewrite list_lookup_insert_ne.
Qed.

Lemma inverse_of_lookup (sorter : list nat) :
  Permutation sorter (seq 0 (length sorter)) →
  length (inverse_of sorter) = length sorter
  ∧ ∀ k s, sorter !! k = Some s → inverse_of sorter !! s = Some k.
Proof.
  intros Hp. unfold inverse_of.
  destruct (inverse_fold sorter (replicate (length sorter) 0) 0)
    as (Hlen & Hin & _).
  - rewrite Hp. apply NoDup_ListNoDup, List.seq_NoDup.
  - rewrite length_replicate. rewrite Forall_forall. intros s Hs.
    rewrite Hp in Hs. apply elem_of_seq in Hs. lia.
  - rewrite length_replicate in Hlen. split; [exact Hlen|].
    intros k s Hk. apply (Hin k s Hk).
Qed.

Lemma cumsum_from_lookup acc (obs : list bool) k :
  k < length obs →
  cumsum_from acc obs !! k = Some (acc + count_true (take (S k) obs)).
Proof.
  revert acc k. induction obs as [|b obs IH]; intros acc k Hk; simpl in Hk;
    [lia|].
  destruct k as [|k].
  - simpl. unfold count_true. destruct b; simpl; f_equal; lia.
  - cbn [cumsum_from lookup list_lookup]. rewrite IH by lia.
    unfold count_true. cbn [take List.filter].
    destruct b; simpl; f_equal; lia.
Qed.

Lemma nonzero_from_lookup k0 (obs : list bool) c :
  obs !! c = Some true →
  nonzero_from k0 obs !! count_true (take c obs) = Some (k0 + c).
Proof.
  revert k0 c. induction obs as [|b obs IH]; intros k0 c Hc; [discriminate|].
  destruct c as [|c]; simpl in Hc.
  - inversion Hc; subst. simpl. f_equal. lia.
  - unfold count_true. cbn [take List.filter nonzero_from].
    destruct b; simpl; fold (count_true (take c obs));
      rewrite (IH _ _ Hc); f_equal; lia.
Qed.

Lemma count_true_take_false (obs : list bool) c k :
  c ≤ k →
  (∀ j, c ≤ j < k → obs !! j = Some false) →
  count_true (take k obs) = count_true (take c obs).
Proof.
  intros Hck Hf. induction k as [|k IH].
  - now replace c with 0 by lia.
  - destruct (decide (c = S k)) as [->|Hne]; [reflexivity|].
    rewrite <- IH by (try lia; intros; apply Hf; lia).
    assert (obs !! k = Some false) as Hk by (apply Hf; lia).
    rewrite (take_S_r _ _ _ Hk). unfold count_true.
    rewrite List.filter_app. simpl. now rewrite app_nil_r.
Qed.

Lemma fancy_Forall2 {B} (arr : list B) (idx : list nat) (l : list B) :
  Forall2 (λ i c, arr !! i = Some c) idx l → fancy arr idx = l.
Proof.
  induction 1 as [|i c idx l Hi _ IH]; [reflexivity|].
  unfold fancy in *. cbn [omap list_omap]. now rewrite Hi, IH.
Qed.

Lemma fancy_map {B} (arr : list B) (idx : list nat) (f : nat → B) :
  Forall (λ i, arr !! i = Some (f i)) idx → fancy arr idx = map f idx.
Proof.
  induction 1 as [|i idx Hi _ IH]; [reflexivity|].
  unfold fancy in *. cbn [omap list_omap map]. now rewrite Hi, IH.
Qed.

Lemma count_lt_perm {A} (lt : A → A → bool) (l l' : list A) x :
  Permutation l l' → count_lt lt l x = count_lt lt l' x.
Proof.
  induction 1 as [|y l l' _ IH|y z l|l l' l'' _ IH1 _ IH2];
    unfold count_lt in *; simpl.
  - reflexivity.
  - destruct (lt y x); simpl; congruence.
  - destruct (lt y x), (lt z x); reflexivity.
  - congruence.
Qed.

Section RankdataProperties.
Context {A : Type}.
Variable lt : A → A → bool.
Variable neq : A → A → bool.
(** The elements that the order treats as a strict weak order. *)
Variable good : A → Prop.
Hypothesis lt_irrefl : ∀ x, good x → lt x x = false.
Hypothesis lt_trans :
  ∀ x y z, good x → good y → good z →
    lt x y = true → lt y z = true → lt x z = true.
Hypothesis lt_negtrans :
  ∀ x y z, good x → good y → good z →
    lt x y = false → lt y z = false → lt x z = false.
Hypothesis neq_lt :
  ∀ x y, good x → good y → neq x y = lt x y || lt y x.

Lemma lt_asym x y : good x → good y → lt x y = true → lt y x = false.
Proof.
  intros Hx Hy H. destruct (lt y x) eqn:E; [|reflexivity].
  rewrite <- (lt_irrefl x Hx). symmetry. now apply (lt_trans x y x).
Qed.

(** *** The sort *)

Local Abbreviation le_pair := (λ p q : nat * A, lt (snd q) (snd p) = false).

Lemma insert_by_perm x l : Permutation (insert_by lt x l) (x :: l).
Proof.
  induction l as [|y l IH]; simpl; [reflexivity|].
  destruct (lt (snd y) (snd x)); [|reflexivity].
  rewrite IH. apply perm_swap.
Qed.

Lemma sort_pairs_perm l : Permutation (sort_pairs lt l) l.
Proof.
  induction l as [|x l IH]; simpl; [reflexivity|].
  rewrite insert_by_perm. now constructor.
Qed.

Lemma insert_by_sorted x l :
  good (snd x) → Forall (λ p, good (snd p)) l →
  StronglySorted le_pair l → StronglySorted le_pair (insert_by lt x l).
Proof.
  intros Hx Hl Hs. induction Hs as [|y l Hs IH Hy]; simpl.
  - repeat constructor.
  - apply Forall_cons in Hl as [Hgy Hl].
    destruct (lt (snd y) (snd x)) eqn:E.
    + constructor; [now apply IH|].
      rewrite (insert_by_perm x l). constructor; [|exact Hy].
      now apply lt_asym.
    + constructor; [now constructor|].
      constructor; [exact E|].
      rewrite Forall_forall in Hy, Hl |- *. intros z Hz.
      apply (lt_negtrans (snd z) (snd y) (snd x)); auto.
Qed.

Lemma sort_pairs_sorted l :
  Forall (λ p, good (snd p)) l → StronglySorted le_pair (sort_pairs lt l).
Proof.
  induction 1 as [|x l Hx Hl IH]; simpl; [constructor|].
  apply insert_by_sorted; auto.
  now rewrite (sort_pairs_perm l).
Qed.

(** *** Positions and values of the sorted pairs *)

Lemma imap_pair_lookup (arr : list A) k0 :
  Forall (λ p : nat * A, k0 ≤ fst p ∧ arr !! (fst p - k0) = Some (snd p))
         (imap (λ i x, (k0 + i, x)) arr).
Proof.
  revert k0. induction arr as [|a arr IH]; intros k0; [constructor|].
  rewrite imap_cons. constructor.
  - simpl. split; [lia|]. now replace (k0 + 0 - k0) with 0 by lia.
  - specialize (IH (S k0)).
    rewrite (imap_ext _ (λ i x, (S k0 + i, x)))
      by (intros; unfold compose; f_equal; lia).
    eapply Forall_impl; [exact IH|]. intros [i x] [Hle Hl]. simpl in *.
    split; [lia|]. now replace (i - k0) with (S (i - S k0)) by lia.
Qed.

Lemma imap_pair_fst (arr : list A) k0 :
  map fst (imap (λ i x, (k0 + i, x)) arr) = seq k0 (length arr).
Proof.
  revert k0. induction arr as [|a arr IH]; intros k0; [reflexivity|].
  rewrite imap_cons. simpl. f_equal; [lia|].
  rewrite <- (IH (S k0)). f_equal. apply imap_ext. intros.
  unfold compose. f_equal. lia.
Qed.

Lemma imap_pair_snd (arr : list A) k0 :
  map snd (imap (λ i x, (k0 + i, x)) arr) = arr.
Proof.
  revert k0. induction arr as [|a arr IH]; intros k0; [reflexivity|].
  rewrite imap_cons. simpl. f_equal.
  rewrite <- (IH (S k0)) at 2. f_equal. apply imap_ext. intros.
  unfold compose. f_equal. lia.
Qed.

Lemma sorted_pairs_lookup (arr : list A) :
  Forall (λ p : nat * A, arr !! fst p = Some (snd p))
         (sort_pairs lt (pairs_of arr)).
Proof.
  rewrite (sort_pairs_perm (pairs_of arr)).
  eapply Forall_impl; [apply (imap_pair_lookup arr 0)|].
  intros [i x] [_ H]. simpl in *. now rewrite Nat.sub_0_r in H.
Qed.

Lemma argsort_perm (arr : list A) :
  Permutation (argsort lt arr) (seq 0 (length arr)).
Proof.
  unfold argsort. rewrite <- (imap_pair_fst arr 0).
  apply Permutation_map. apply sort_pairs_perm.
Qed.

Lemma fancy_map_fst (arr : list A) (ps : list (nat * A)) :
  Forall (λ p : nat * A, arr !! fst p = Some (snd p)) ps →
  fancy arr (map fst ps) = map snd ps.
Proof.
  induction 1 as [|[i x] ps Hp _ IH]; [reflexivity|].
  unfold fancy in *. cbn [map fst snd] in *. rewrite <- IH.
  cbn [omap list_omap]. now rewrite Hp.
Qed.

Lemma sorted_values_perm (arr : list A) :
  Permutation (fancy arr (argsort lt arr)) arr.
Proof.
  unfold argsort. rewrite fancy_map_fst by apply sorted_pairs_lookup.
  rewrite <- (imap_pair_snd arr 0) at 2.
  apply Permutation_map. apply sort_pairs_perm.
Qed.

(** *** A sorted array: the elements below a value form a prefix *)

Local Abbreviation le_val := (λ a b : A, lt b a = false).

Lemma sorted_map_snd (l : list (nat * A)) :
  StronglySorted le_pair l → StronglySorted le_val (map snd l).
Proof.
  induction 1 as [|p l Hs IH Hp]; simpl; constructor; [exact IH|].
  rewrite Forall_forall in Hp. rewrite Forall_forall. intros y Hy.
  apply list_elem_of_fmap in Hy as (q & -> & Hq). now apply Hp.
Qed.

Lemma sorted_values_sorted (arr : list A) :
  Forall good arr →
  StronglySorted le_val (fancy arr (argsort lt arr)).
Proof.
  intros Hg. unfold argsort.
  rewrite fancy_map_fst by apply sorted_pairs_lookup.
  assert (Forall (λ p : nat * A, good (snd p)) (pairs_of arr)) as Hgp.
  { rewrite Forall_forall in Hg. rewrite Forall_forall. intros [i x] Hin.
    pose proof (imap_pair_lookup arr 0) as Hl.
    rewrite Forall_forall in Hl. apply Hl in Hin as [_ Hin]. simpl in *.
    apply Hg. eapply list_elem_of_lookup_2. exact Hin. }
  apply sorted_map_snd, sort_pairs_sorted, Hgp.
Qed.

Lemma sorted_lookup_le (vals : list A) i j x y :
  StronglySorted le_val vals → i < j →
  vals !! i = Some x → vals !! j = Some y → lt y x = false.
Proof.
  intros Hs. revert i j. induction Hs as [|a l Hs IH Ha]; intros i j Hij Hi Hj;
    [discriminate|].
  destruct j as [|j]; [lia|]. simpl in Hj. destruct i as [|i]; simpl in Hi.
  - inversion Hi; subst. rewrite Forall_forall in Ha. apply Ha.
    eapply list_elem_of_lookup_2. exact Hj.
  - apply (IH i j); auto. lia.
Qed.

Lemma sorted_prefix (vals : list A) v :
  Forall good vals → good v → StronglySorted le_val vals →
  (∀ j y, vals !! j = Some y → j < count_lt lt vals v → lt y v = true)
  ∧ (∀ j y, vals !! j = Some y → count_lt lt vals v ≤ j → lt y v = false).
Proof.
  intros Hg Hv Hs. induction Hs as [|a l Hs IH Ha]; [split; discriminate|].
  apply Forall_cons in Hg as [Hga Hg]. destruct (IH Hg) as [IH1 IH2].
  unfold count_lt in *. cbn [List.filter].
  destruct (lt a v) eqn:Hav; cbn [length].
  - split; intros [|j] y Hy Hj; simpl in Hy.
    + now inversion Hy; subst.
    + apply (IH1 j); auto. lia.
    + lia.
    + apply (IH2 j); auto. lia.
  - assert (∀ y, y ∈ l → lt y v = false) as Hall.
    { intros y Hy. rewrite Forall_forall in Ha, Hg.
      apply (lt_negtrans y a v); auto. }
    assert (List.filter (λ y, lt y v) l = []) as Hnil.
    { clear -Hall. induction l as [|y l IHl]; [reflexivity|]. simpl.
      rewrite (Hall y) by constructor. apply IHl. intros z Hz. apply Hall.
      now constructor. }
    rewrite Hnil. simpl. split; intros [|j] y Hy Hj; simpl in Hy; try lia.
    + now inversion Hy; subst.
    + apply Hall. eapply list_elem_of_lookup_2. exact Hy.
Qed.

Lemma obs_of_lookup_0 (vals : list A) : obs_of neq vals !! 0 = Some true.
Proof. reflexivity. Qed.

Lemma obs_of_lookup_S (vals : list A) j x y :
  vals !! j = Some x → vals !! S j = Some y →
  obs_of neq vals !! S j = Some (neq y x).
Proof.
  intros Hx Hy. unfold obs_of. cbn [lookup list_lookup].
  change (zip_with neq (tail vals) vals !! j = Some (neq y x)).
  rewrite lookup_zip_with, lookup_tail, Hy. simpl. now rewrite Hx.
Qed.

Lemma obs_of_length (vals : list A) :
  vals ≠ [] → length (obs_of neq vals) = length vals.
Proof.
  destruct vals as [|a l]; [congruence|]. intros _. unfold obs_of. simpl.
  f_equal. rewrite length_zip_with. simpl. lia.
Qed.

(** In a sorted array, the first position of the block of [v] is the
    number of elements below [v]: [obs] is true there and false on the
    rest of the block. *)
Lemma sorted_block (vals : list A) k v :
  Forall good vals → StronglySorted le_val vals →
  vals !! k = Some v →
  let c := count_lt lt vals v in
  c ≤ k
  ∧ obs_of neq vals !! c = Some true
  ∧ (∀ j, c < j ≤ k → obs_of neq vals !! j = Some false).
Proof.
  intros Hg Hs Hk c.
  assert (good v) as Hv.
  { rewrite Forall_forall in Hg. apply Hg. eapply list_elem_of_lookup_2; eauto. }
  destruct (sorted_prefix vals v Hg Hv Hs) as [Hbelow Hnot]. fold c in Hbelow, Hnot.
  assert (c ≤ k) as Hck.
  { destruct (le_lt_dec c k) as [|Hlt]; [assumption|].
    specialize (Hbelow k v Hk Hlt). rewrite (lt_irrefl v Hv) in Hbelow.
    discriminate. }
  assert (∀ j y, c ≤ j ≤ k → vals !! j = Some y →
            good y ∧ lt y v = false ∧ lt v y = false) as Hblock.
  { intros j y [Hcj Hjk] Hy. split; [|split].
    - rewrite Forall_forall in Hg. apply Hg.
      eapply list_elem_of_lookup_2; eauto.
    - now apply (Hnot j).
    - destruct (decide (j = k)) as [->|Hne].
      + rewrite Hk in Hy. inversion Hy; subst. now apply lt_irrefl.
      + apply (sorted_lookup_le vals j k y v Hs); auto. lia. }
  assert (∀ j, j ≤ k → is_Some (vals !! j)) as Hsome.
  { intros j Hj. apply lookup_lt_is_Some.
    apply lookup_lt_Some in Hk. lia. }
  split; [exact Hck|]. split.
  - destruct c as [|c'] eqn:Hc; [reflexivity|].
    destruct (Hsome c' ltac:(lia)) as [x Hx].
    destruct (Hsome (S c') ltac:(lia)) as [y Hy].
    rewrite (obs_of_lookup_S _ _ _ _ Hx Hy). f_equal.
    destruct (Hblock (S c') y ltac:(lia) Hy) as (Hgy & Hyv & Hvy).
    assert (good x) as Hgx.
    { rewrite Forall_forall in Hg. apply Hg.
      eapply list_elem_of_lookup_2; eauto. }
    assert (lt x v = true) as Hxv by (apply (Hbelow c'); auto; lia).
    rewrite neq_lt by assumption.
    destruct (lt x y) eqn:Hxy; [apply orb_true_r|].
    rewrite (lt_negtrans x y v) in Hxv by assumption. discriminate.
  - intros j [Hcj Hjk]. destruct j as [|j]; [lia|].
    destruct (Hsome j ltac:(lia)) as [x Hx].
    destruct (Hsome (S j) ltac:(lia)) as [y Hy].
    rewrite (obs_of_lookup_S _ _ _ _ Hx Hy). f_equal.
    destruct (Hblock j x ltac:(lia) Hx) as (Hgx & Hxv & Hvx).
    destruct (Hblock (S j) y ltac:(lia) Hy) as (Hgy & Hyv & Hvy).
    rewrite neq_lt by assumption.
    rewrite (lt_negtrans y v x), (lt_negtrans x v y) by assumption.
    reflexivity.
Qed.

(** *** [rankdata(arr, method='min')] counts the elements below *)

Lemma rankdata_min_count (arr : list A) :
  Forall good arr →
  rankdata_min lt neq arr = map (λ x, count_lt lt arr x + 1) arr.
Proof.
  intros Hg. destruct (decide (arr = [])) as [->|Hne]; [reflexivity|].
  unfold rankdata_min.
  set (sorter := argsort lt arr).
  set (vals := fancy arr sorter).
  set (obs := obs_of neq vals).
  set (D := λ k, count_true (take (S k) obs)).
  pose proof (argsort_perm arr) as Hperm. fold sorter in Hperm.
  assert (length sorter = length arr) as Hlen
    by (rewrite Hperm; apply length_seq).
  rewrite <- Hlen in Hperm.
  destruct (inverse_of_lookup sorter Hperm) as [Hilen Hinv].
  pose proof (sorted_pairs_lookup arr) as Hpairs.
  assert (sorter = map fst (sort_pairs lt (pairs_of arr))) as Hsorter
    by reflexivity.
  assert (vals = map snd (sort_pairs lt (pairs_of arr))) as Hvals
    by (unfold vals, sorter, argsort; now apply fancy_map_fst).
  assert (Permutation vals arr) as Hvperm by apply sorted_values_perm.
  assert (Forall good vals) as Hgv by now rewrite Hvperm.
  pose proof (sorted_values_sorted arr Hg) as Hsorted.
  fold sorter in Hsorted. fold vals in Hsorted.
  assert (length vals = length arr) as Hvlen by now rewrite Hvperm.
  assert (length obs = length arr) as Holen.
  { unfold obs. rewrite obs_of_length; [exact Hvlen|].
    intros E. rewrite E in Hvlen. destruct arr; [congruence|discriminate]. }
  (* every position of [arr] finds its value in the sorted array *)
  assert (Forall2 (λ k x, vals !! k = Some x) (inverse_of sorter) arr) as R1.
  { apply Forall2_same_length_lookup. split; [congruence|].
    intros i k' x Hi Hx.
    assert (i ∈ sorter) as Hin.
    { rewrite Hperm. apply elem_of_seq. apply lookup_lt_Some in Hx. lia. }
    apply list_elem_of_lookup in Hin as [k Hk].
    rewrite (Hinv _ _ Hk) in Hi. inversion Hi; subst k'.
    rewrite Hsorter, list_lookup_fmap in Hk.
    destruct (sort_pairs lt (pairs_of arr) !! k) as [[i' y]|] eqn:Hp;
      [|discriminate].
    simpl in Hk. inversion Hk; subst i'.
    rewrite Forall_forall in Hpairs.
    assert (arr !! i = Some y) as Hy
      by (apply (Hpairs (i, y)); eapply list_elem_of_lookup_2; eauto).
    rewrite Hvals, list_lookup_fmap, Hp. simpl. congruence. }
  assert (Forall2 (λ k x,
             cumsum obs !! k = Some (D k)
             ∧ (nonzero obs ++ [length obs]) !! (D k - 1)
               = Some (count_lt lt arr x))
            (inverse_of sorter) arr) as R2.
  { eapply Forall2_impl; [exact R1|]. intros k x Hk. simpl in Hk.
    destruct (sorted_block vals k x Hgv Hsorted Hk) as (Hck & Htrue & Hfalse).
    fold obs in Htrue, Hfalse.
    split.
    - unfold cumsum. rewrite cumsum_from_lookup; [reflexivity|].
      apply lookup_lt_Some in Hk. lia.
    - assert (D k = S (count_true (take (count_lt lt vals x) obs))) as ->.
      { unfold D.
        rewrite (count_true_take_false obs (S (count_lt lt vals x)) (S k))
          by (try lia; intros; apply Hfalse; lia).
        rewrite (take_S_r _ _ _ Htrue). unfold count_true.
        rewrite List.filter_app, length_app. simpl. lia. }
      replace (S (count_true (take (count_lt lt vals x) obs)) - 1)
        with (count_true (take (count_lt lt vals x) obs)) by lia.
      pose proof (nonzero_from_lookup 0 obs _ Htrue) as Hnz.
      unfold nonzero. rewrite (lookup_app_l_Some _ _ _ _ Hnz). simpl.
      now rewrite (count_lt_perm lt vals arr x Hvperm). }
  assert (fancy (cumsum obs) (inverse_of sorter)
          = map D (inverse_of sorter)) as ->.
  { apply fancy_map. eapply Forall2_Forall_l; [exact R2|].
    apply Forall_true. intros x k [H _]. exact H. }
  rewrite map_map.
  assert (fancy (nonzero obs ++ [length obs])
            (map (λ k, D k - 1) (inverse_of sorter))
          = map (count_lt lt arr) arr) as ->.
  { apply fancy_Forall2. apply Forall2_fmap. eapply Forall2_impl; [exact R2|].
    intros k x [_ H]. exact H. }
  now rewrite map_map.
Qed.
End RankdataProperties.

(** ** The masked parameter columns *)

Lemma param_key_inj (a b : string) : "param_" +:+ a = "param_" +:+ b → a = b.
Proof. intros H. injection H as H. exact H. Qed.

Lemma set_param_cell_lookup n i pr nm v name :
  set_param_cell n i pr nm v !! ("param_" +:+ name) =
    if decide (nm = name)
    then Some (<[i := Some v]>
                 (default (masked_column n) (pr !! ("param_" +:+ name))))
    else pr !! ("param_" +:+ name).
Proof.
  unfold set_param_cell. cbv zeta. destruct (decide (nm = name)) as [->|Hne].
  - apply lookup_insert_eq.
  - apply lookup_insert_ne. intros H. now apply param_key_inj in H.
Qed.

Lemma set_param_cell_other n i pr nm v k :
  (∀ name, k ≠ "param_" +:+ name) →
  set_param_cell n i pr nm v !! k = pr !! k.
Proof.
  intros Hk. unfold set_param_cell. cbv zeta.
  apply lookup_insert_ne. intros H. now apply (Hk nm).
Qed.

Lemma fill_candidate_lookup n i items pr name :
  NoDup (items.*1) →
  fill_candidate n pr i items !! ("param_" +:+ name) =
    match (list_to_map items : gmap string pyval) !! name with
    | Some v => Some (<[i := Some v]>
                        (default (masked_column n)
                                 (pr !! ("param_" +:+ name))))
    | None => pr !! ("param_" +:+ name)
    end.
Proof.
  unfold fill_candidate. revert pr.
  induction items as [|[nm v] items IH]; intros pr Hnd; [reflexivity|].
  apply NoDup_cons in Hnd as [Hnotin Hnd].
  cbn [foldl fst snd list_to_map foldr]. rewrite (IH _ Hnd).
  rewrite set_param_cell_lookup.
  destruct (decide (nm = name)) as [->|Hne].
  - rewrite lookup_insert_eq.
    rewrite (not_elem_of_list_to_map_1 items name) by exact Hnotin.
    reflexivity.
  - rewrite lookup_insert_ne by exact Hne. reflexivity.
Qed.

Lemma fill_candidate_other n i items pr k :
  (∀ name, k ≠ "param_" +:+ name) →
  fill_candidate n pr i items !! k = pr !! k.
Proof.
  intros Hk. unfold fill_candidate. revert pr.
  induction items as [|[nm v] items IH]; intros pr; [reflexivity|].
  cbn [foldl fst snd]. rewrite IH. now apply set_param_cell_other.
Qed.

Lemma fill_params_snoc n (l : list (gmap string pyval)) p :
  fill_params n (l ++ [p]) =
    fill_candidate n (fill_params n l) (length l) (map_to_list p).
Proof.
  unfold fill_params. rewrite imap_app, foldl_app. simpl.
  now rewrite Nat.add_0_r.
Qed.

Lemma unspecified_cells name (l : list (gmap string pyval)) :
  existsb (specifies name) l = false →
  map (λ p, p !! name) l = replicate (length l) None.
Proof.
  induction l as [|p l IH]; [reflexivity|]. simpl.
  intros H. apply orb_false_iff in H as [Hp Hl].
  unfold specifies in Hp. destruct (p !! name); [discriminate|].
  f_equal. now apply IH.
Qed.

(** The column of a name after the first candidates [l] of [n]: their
    cells, then the cells not reached yet, still masked. *)
Lemma fill_params_lookup n (l : list (gmap string pyval)) name :
  length l ≤ n →
  fill_params n l !! ("param_" +:+ name) =
    if existsb (specifies name) l
    then Some (map (λ p, p !! name) l ++ replicate (n - length l) None)
    else None.
Proof.
  induction l as [|p l IH] using rev_ind; intros Hn; [reflexivity|].
  rewrite length_app in Hn. simpl in Hn.
  rewrite fill_params_snoc, fill_candidate_lookup
    by apply NoDup_fst_map_to_list.
  rewrite list_to_map_to_list, IH by lia.
  assert (default (masked_column n)
            (if existsb (specifies name) l
             then Some (map (λ p, p !! name) l
                          ++ replicate (n - length l) None)
             else None)
          = map (λ p, p !! name) l ++ replicate (n - length l) None) as Hcol.
  { destruct (existsb (specifies name) l) eqn:Hex; [reflexivity|].
    simpl. rewrite (unspecified_cells _ _ Hex). unfold masked_column.
    rewrite <- replicate_add. f_equal. lia. }
  rewrite existsb_app, map_app, length_app. simpl. rewrite orb_false_r.
  replace (n - length l) with (S (n - (length l + 1))) in * by lia.
  destruct (p !! name) as [v|] eqn:Hp.
  - assert (specifies name p = true) as ->
      by (unfold specifies; now rewrite Hp).
    rewrite orb_true_r, Hcol. f_equal.
    rewrite insert_app_r_alt by (rewrite length_map; lia).
    rewrite length_map, Nat.sub_diag. simpl. now rewrite <- app_assoc.
  - assert (specifies name p = false) as ->
      by (unfold specifies; now rewrite Hp).
    rewrite orb_false_r. destruct (existsb (specifies name) l); [|reflexivity].
    simpl. now rewrite <- app_assoc.
Qed.

Lemma fill_params_other n (l : list (gmap string pyval)) k :
  (∀ name, k ≠ "param_" +:+ name) → fill_params n l !! k = None.
Proof.
  intros Hk. induction l as [|p l IH] using rev_ind; [reflexivity|].
  rewrite fill_params_snoc, fill_candidate_other by exact Hk. exact IH.
Qed.

(** ** What [_store] and [create_cv_results] write *)

Lemma store_splits_other results key_name a n k :
  (∀ i, k ≠ split_name i key_name) →
  store_splits results key_name a n !! k = results !! k.
Proof.
  intros Hk. unfold store_splits. generalize (seq 0 n) as l. intros l.
  revert results. induction l as [|i l IH]; intros results; [reflexivity|].
  simpl. rewrite IH. apply lookup_insert_ne. intros H. now apply (Hk i).
Qed.

(** The columns that one call of [_store] adds. *)
Lemma _store_columns results key_name array n_splits n_candidates weights
    splits rank results' :
  _store results key_name array n_splits n_candidates weights splits rank
    = Ok results' →
  ∃ a means vars,
    reshape_T array n_splits n_candidates = Ok a
    ∧ np_average a weights = Ok means
    ∧ np_average (squared_deviations a means) weights = Ok vars
    ∧ results' !! ("mean_" +:+ key_name) = Some (FloatCol means)
    ∧ results' !! ("std_" +:+ key_name) = Some (FloatCol (map F64.sqrt vars))
    ∧ (rank = true →
       results' !! ("rank_" +:+ key_name) =
         Some (RankCol (map (λ r, to_int32 (Z.of_nat r))
                          (rankdata_min np_sort_lt F64.neqb
                             (map F64.opp means))))).
Proof.
  unfold _store. intros H.
  destruct (reshape_T array n_splits n_candidates) as [a|e] eqn:Ha;
    [|discriminate].
  simpl in H.
  destruct (np_average a weights) as [means|e] eqn:Hm; [|discriminate].
  simpl in H.
  destruct (np_average (squared_deviations a means) weights) as [vars|e]
    eqn:Hv; [|discriminate].
  simpl in H. exists a, means, vars. do 3 (split; [assumption || reflexivity|]).
  destruct rank; inversion H; subst; clear H;
    repeat apply conj; try discriminate; intros;
    repeat (rewrite lookup_insert_eq
            || rewrite lookup_insert_ne by discriminate);
    reflexivity.
Qed.

(** The entries that one call of [_store] leaves alone. *)
Lemma _store_other results key_name array n_splits n_candidates weights
    splits rank results' k :
  _store results key_name array n_splits n_candidates weights splits rank
    = Ok results' →
  (∀ i, k ≠ split_name i key_name) →
  k ≠ "mean_" +:+ key_name → k ≠ "std_" +:+ key_name →
  k ≠ "rank_" +:+ key_name →
  results' !! k = results !! k.
Proof.
  unfold _store. intros H Hsplit Hmean Hstd Hrank.
  destruct (reshape_T array n_splits n_candidates) as [a|e]; [|discriminate].
  simpl in H.
  destruct (np_average a weights) as [means|e]; [|discriminate]. simpl in H.
  destruct (np_average (squared_deviations a means) weights) as [vars|e];
    [|discriminate].
  simpl in H.
  assert ((if splits then store_splits results key_name a n_splits
           else results) !! k = results !! k) as Hs
    by (destruct splits; [now apply store_splits_other | reflexivity]).
  destruct rank; inversion H; subst; clear H;
    rewrite ?lookup_insert_ne by congruence; exact Hs.
Qed.

Lemma split_name_not_param i key_name name :
  split_name i key_name ≠ "param_" +:+ name.
Proof. discriminate. Qed.

(** The steps of a [create_cv_results] that returns. *)
Lemma create_cv_results_inv scores candidate_params n_splits error_score
    weights results :
  create_cv_results scores candidate_params n_splits error_score weights
    = Ok results →
  ∃ tests trains test_array r1 r2,
    split_scores scores = Ok (tests, trains)
    ∧ to_float64 (map (replace_failure error_score) tests) = Ok test_array
    ∧ _store {["params" := ParamsCol candidate_params]} "test_score"
        test_array n_splits (length candidate_params)
        ((λ w, broadcast_rows w (length candidate_params)) <$> weights)
        true true = Ok r1
    ∧ match trains with
      | Some trains =>
          ∃ train_array,
            to_float64 (map (replace_failure error_score) trains)
              = Ok train_array
            ∧ _store r1 "train_score" train_array n_splits
                (length candidate_params) None true false = Ok r2
      | None => r2 = r1
      end
    ∧ results =
        update_results r2
          (fill_params (length candidate_params) candidate_params).
Proof.
  unfold create_cv_results. intros H.
  destruct (split_scores scores) as [[tests trains]|e]; [|discriminate].
  simpl in H.
  destruct (to_float64 (map (replace_failure error_score) tests))
    as [test_array|e] eqn:Ht; [|discriminate].
  simpl in H.
  destruct (_store _ "test_score" test_array _ _ _ true true) as [r1|e]
    eqn:Hs1; [|discriminate].
  simpl in H.
  destruct trains as [trains|]; simpl in H.
  - destruct (to_float64 (map (replace_failure error_score) trains))
      as [train_array|e] eqn:Htr; [|discriminate].
    simpl in H.
    destruct (_store r1 "train_score" train_array _ _ None true false)
      as [r2|e] eqn:Hs2; [|discriminate].
    simpl in H. inversion H; subst.
    exists tests, (Some trains), test_array, r1, r2.
    repeat (split; [reflexivity || assumption|]).
    split; [|reflexivity]. now exists train_array.
  - inversion H; subst.
    exists tests, None, test_array, r1, r1.
    repeat (split; [reflexivity || assumption|]). split; reflexivity.
Qed.

Lemma update_results_param results pr name :
  results !! ("param_" +:+ name) = None →
  update_results results pr !! ("param_" +:+ name)
  = MaskedCol <$> pr !! ("param_" +:+ name).
Proof.
  intros H. unfold update_results. rewrite lookup_union, lookup_fmap, H.
  now destruct (pr !! ("param_" +:+ name)).
Qed.

Lemma update_results_other results n cands k :
  (∀ name, k ≠ "param_" +:+ name) →
  update_results results (fill_params n cands) !! k = results !! k.
Proof.
  intros Hk. unfold update_results.
  rewrite lookup_union, lookup_fmap, (fill_params_other _ _ _ Hk).
  now destruct (results !! k).
Qed.

(** The statistics of the test scores in the table that
    [create_cv_results] returns. *)
Lemma create_cv_results_test_columns scores candidate_params n_splits
    error_score weights results :
  create_cv_results scores candidate_params n_splits error_score weights
    = Ok results →
  ∃ tests trains test_array a means vars,
    split_scores scores = Ok (tests, trains)
    ∧ to_float64 (map (replace_failure error_score) tests) = Ok test_array
    ∧ reshape_T test_array n_splits (length candidate_params) = Ok a
    ∧ np_average a ((λ w, broadcast_rows w (length candidate_params))
                      <$> weights) = Ok means
    ∧ np_average (squared_deviations a means)
        ((λ w, broadcast_rows w (length candidate_params)) <$> weights)
      = Ok vars
    ∧ results !! "mean_test_score" = Some (FloatCol means)
    ∧ results !! "std_test_score" = Some (FloatCol (map F64.sqrt vars))
    ∧ results !! "rank_test_score" =
        Some (RankCol (map (λ r, to_int32 (Z.of_nat r))
                         (rankdata_min np_sort_lt F64.neqb
                            (map F64.opp means)))).
Proof.
  intros H.
  apply create_cv_results_inv in H
    as (tests & trains & test_array & r1 & r2 & Hsp & Hta & Hs1 & Htr & ->).
  apply _store_columns in Hs1
    as (a & means & vars & Ha & Hm & Hv & Hmean & Hstd & Hrank).
  specialize (Hrank eq_refl).
  exists tests, trains, test_array, a, means, vars.
  do 5 (split; [assumption|]).
  assert (r2 !! "mean_test_score" = r1 !! "mean_test_score"
          ∧ r2 !! "std_test_score" = r1 !! "std_test_score"
          ∧ r2 !! "rank_test_score" = r1 !! "rank_test_score")
    as (E1 & E2 & E3).
  { destruct trains as [trains|]; [|subst; auto].
    destruct Htr as (train_array & _ & Hs2).
    repeat split; eapply _store_other; try exact Hs2; try discriminate. }
  rewrite !update_results_other by discriminate.
  rewrite E1, E2, E3. auto.
Qed.

(** C9. The table that [create_cv_results] returns has a column
    [param_<name>] exactly for the names that some candidate specifies;
    the cell of a candidate in that column is its value for the name when
    it specifies the name, and is masked when it does not. *)
Theorem masked_parameter_columns :
  ∀ scores (candidate_params : list (gmap string pyval)) n_splits
    error_score weights results,
    create_cv_results scores candidate_params n_splits error_score weights
      = Ok results →
    ∀ name,
      results !! ("param_" +:+ name) =
        if existsb (specifies name) candidate_params
        then Some (MaskedCol (map (λ p, p !! name) candidate_params))
        else None.
Proof.
  intros scores cands n_splits es weights results H name.
  apply create_cv_results_inv in H
    as (tests & trains & test_array & r1 & r2 & _ & _ & Hs1 & Htr & ->).
  assert (r1 !! ("param_" +:+ name) = None) as H1.
  { erewrite _store_other; try exact Hs1; try discriminate.
    apply lookup_singleton_ne. discriminate. }
  assert (r2 !! ("param_" +:+ name) = None) as H2.
  { destruct trains as [trains|]; [|now subst].
    destruct Htr as (train_array & _ & Hs2).
    erewrite _store_other; try exact Hs2; try discriminate. exact H1. }
  rewrite (update_results_param _ _ _ H2).
  rewrite fill_params_lookup by reflexivity.
  rewrite Nat.sub_diag. simpl. rewrite app_nil_r.
  now destruct (existsb (specifies name) cands).
Qed.

(** ** The rank column *)

Lemma np_sort_lt_not_nan x y :
  not_nan x → not_nan y → np_sort_lt x y = SFltb x y.
Proof.
  intros Hx Hy. unfold np_sort_lt, F64.ltb. rewrite Hy. apply orb_false_r.
Qed.

Lemma is_nan_opp x : F64.is_nan (F64.opp x) = F64.is_nan x.
Proof. now destruct x. Qed.

Lemma SFltb_opp x y : SFltb (SFopp y) (SFopp x) = SFltb x y.
Proof.
  unfold SFltb.
  destruct x as [sx|sx| |sx mx ex], y as [sy|sy| |sy my ey];
    try (destruct sx); try (destruct sy); try reflexivity;
    cbn [SFopp negb];
    rewrite ?SFcompare_finite_pos, ?SFcompare_finite_neg;
    cmp_cases.
Qed.

Lemma SFltb_eqb_l x y z : SFeqb x y = true → SFltb x z = SFltb y z.
Proof.
  unfold SFeqb, SFltb.
  destruct x as [sx|sx| |sx mx ex], y as [sy|sy| |sy my ey],
    z as [sz|sz| |sz mz ez];
    try (destruct sx); try (destruct sy); try (destruct sz);
    try (simpl; congruence);
    rewrite ?SFcompare_finite_pos, ?SFcompare_finite_neg; intros H;
    cmp_cases.
Qed.

Lemma filter_length_ext_in {A} (f g : A → bool) (l : list A) :
  (∀ x, x ∈ l → f x = g x) →
  length (List.filter f l) = length (List.filter g l).
Proof.
  induction l as [|a l IH]; intros H; [reflexivity|]. simpl.
  rewrite (H a) by constructor.
  assert (length (List.filter f l) = length (List.filter g l)) as IH'
    by (apply IH; intros; apply H; now constructor).
  destruct (g a); simpl; now rewrite IH'.
Qed.

Lemma filter_length_lt {A} (f : A → bool) (l : list A) x :
  x ∈ l → f x = false → length (List.filter f l) < length l.
Proof.
  induction 1 as [x l|x y l Hin IH]; intros Hf; simpl.
  - rewrite Hf. pose proof (List.filter_length_le f l). lia.
  - specialize (IH Hf). destruct (f y); simpl; lia.
Qed.

Lemma count_lt_opp (means : list float) m :
  Forall not_nan means → not_nan m →
  count_lt np_sort_lt (map F64.opp means) (F64.opp m) = count_gt means m.
Proof.
  intros Hg Hm. unfold count_lt, count_gt.
  induction Hg as [|y l Hy _ IH]; [reflexivity|]. simpl.
  rewrite np_sort_lt_not_nan by now rewrite is_nan_opp.
  unfold F64.opp, F64.ltb in *. rewrite SFltb_opp.
  destruct (SFltb m y); simpl; congruence.
Qed.

Lemma to_int32_small z : (- 2 ^ 31 <= z < 2 ^ 31)%Z → to_int32 z = z.
Proof.
  intros H. unfold to_int32. rewrite Z.mod_small; lia.
Qed.

(** On means without NaN, [rankdata(-means, method='min')] is one more
    than the number of strictly greater means. *)
Lemma rankdata_min_opp_means (means : list float) :
  Forall not_nan means →
  rankdata_min np_sort_lt F64.neqb (map F64.opp means)
  = map (λ m, count_gt means m + 1) means.
Proof.
  intros Hg.
  rewrite (rankdata_min_count np_sort_lt F64.neqb not_nan).
  - rewrite map_map. apply map_ext_in. intros m Hm.
    rewrite count_lt_opp; [reflexivity | exact Hg |].
    rewrite List.Forall_forall in Hg. now apply Hg.
  - intros x Hx. rewrite np_sort_lt_not_nan by assumption.
    apply SFltb_irrefl.
  - intros x y z Hx Hy Hz. rewrite !np_sort_lt_not_nan by assumption.
    apply SFltb_trans.
  - intros x y z Hx Hy Hz. rewrite !np_sort_lt_not_nan by assumption.
    now apply SFltb_negtrans.
  - intros x y Hx Hy. rewrite !np_sort_lt_not_nan by assumption.
    now apply neqb_ltb.
  - rewrite List.Forall_forall in Hg. apply List.Forall_forall.
    intros x Hx. apply in_map_iff in Hx as (m & <- & Hm).
    rewrite is_nan_opp. now apply Hg.
Qed.

(** C4 (as amended). In the table of [create_cv_results], when no mean
    test score is NaN, the rank of a candidate is one more than the number
    of candidates whose mean test score is strictly greater than its own;
    candidates with equal means have the same rank, the smallest of their
    block. Mean test scores [0.9, 0.9, 0.8] receive the ranks
    [1, 1, 3]. *)
Theorem rank_test_score_counts_greater_means :
  (∀ scores candidate_params n_splits error_score weights results means,
      create_cv_results scores candidate_params n_splits error_score weights
        = Ok results →
      results !! "mean_test_score" = Some (FloatCol means) →
      Forall not_nan means →
      (Z.of_nat (length means) < 2 ^ 31)%Z →
      results !! "rank_test_score" =
        Some (RankCol (map (λ m, (Z.of_nat (count_gt means m) + 1)%Z) means))
      ∧ ∀ x y, F64.eqb x y = true → count_gt means x = count_gt means y)
  ∧ (∀ p0 p1 p2 error_score,
        ∃ results,
          create_cv_results ties_scores [p0; p1; p2] 1 error_score None
            = Ok results
          ∧ results !! "mean_test_score" =
              Some (FloatCol [F64.dec 9 10; F64.dec 9 10; F64.dec 8 10])
          ∧ results !! "rank_test_score" = Some (RankCol [1; 1; 3]%Z)).
Proof.
  split.
  - intros scores cands n_splits es weights results means H Hmean Hg Hlen.
    apply create_cv_results_test_columns in H
      as (tests & trains & test_array & a & means' & vars & _ & _ & _ & _ & _
          & Hmean' & _ & Hrank).
    rewrite Hmean in Hmean'. inversion Hmean'; subst means'. clear Hmean'.
    split.
    + rewrite Hrank. do 2 f_equal.
      rewrite (rankdata_min_opp_means means Hg), map_map.
      apply map_ext_in. intros m Hm.
      assert (count_gt means m < length means) as Hlt.
      { apply (filter_length_lt _ means m).
        - now apply list_elem_of_In.
        - rewrite List.Forall_forall in Hg. specialize (Hg m Hm).
          apply SFltb_irrefl. }
      rewrite to_int32_small by lia. lia.
    + intros x y Hxy. unfold count_gt. apply filter_length_ext_in.
      intros z _. unfold F64.ltb. now apply SFltb_eqb_l.
  - intros p0 p1 p2 es.
    eexists. split; [reflexivity|].
    rewrite !update_results_other by discriminate.
    split; vm_compute; reflexivity.
Qed.

(** ** Names of the columns *)

Lemma append_length (a b : string) :
  String.length (a +:+ b) = String.length a + String.length b.
Proof. induction a as [|c a IH]; simpl; [reflexivity | now rewrite IH]. Qed.

Lemma append_inv_tail (a b s : string) : a +:+ s = b +:+ s → a = b.
Proof.
  revert b. induction a as [|c a IH]; intros [|d b] H.
  - reflexivity.
  - apply (f_equal String.length) in H.
    rewrite !append_length in H. simpl in H. lia.
  - apply (f_equal String.length) in H.
    rewrite !append_length in H. simpl in H. lia.
  - injection H as -> H. f_equal. now apply IH.
Qed.

Lemma split_name_inj i j key_name :
  split_name i key_name = split_name j key_name → i = j.
Proof.
  unfold split_name. intros H.
  apply (String.app_inj "split") in H.
  change (pretty i +:+ ("_" +:+ key_name) = pretty j +:+ ("_" +:+ key_name))
    in H.
  apply append_inv_tail in H. now apply (inj pretty) in H.
Qed.

(** A string that ends in two different ways has one ending inside the
    other. *)
Lemma append_eq_longer (a b c d : string) :
  a +:+ b = c +:+ d → String.length c ≤ String.length a →
  ∃ e, a = c +:+ e ∧ d = e +:+ b.
Proof.
  revert c. induction a as [|x a IH]; intros [|y c] H Hlen; simpl in *.
  - exists "". split; [reflexivity | now subst].
  - lia.
  - exists (String x a). split; [reflexivity | now subst].
  - injection H as -> H. destruct (IH c H) as (e & -> & ->); [lia|].
    now exists e.
Qed.

Lemma split_name_test_train i j :
  split_name i "test_score" ≠ split_name j "train_score".
Proof.
  unfold split_name. intros H.
  apply (String.app_inj "split") in H.
  change (pretty i +:+ "_test_score" = pretty j +:+ "_train_score") in H.
  pose proof (f_equal String.length H) as Hl.
  rewrite !append_length in Hl. simpl in Hl.
  apply append_eq_longer in H as (e & _ & He); [|lia].
  destruct e as [|x [|y e]]; try discriminate.
  apply (f_equal String.length) in He. rewrite append_length in He.
  simpl in He. lia.
Qed.

Lemma store_splits_S results key_name a n :
  store_splits results key_name a (S n)
  = <[split_name n key_name := FloatCol (column_of a n)]>
      (store_splits results key_name a n).
Proof.
  unfold store_splits. rewrite seq_S, foldl_app. reflexivity.
Qed.

Lemma store_splits_lookup results key_name a n i :
  i < n →
  store_splits results key_name a n !! split_name i key_name
  = Some (FloatCol (column_of a i)).
Proof.
  induction n as [|n IH]; intros Hi; [lia|].
  rewrite store_splits_S.
  destruct (decide (i = n)) as [->|Hne]; [apply lookup_insert_eq|].
  rewrite lookup_insert_ne; [apply IH; lia|].
  intros H. apply split_name_inj in H. lia.
Qed.

(** A column of the reshaped array is a chunk of the flat list of
    scores. *)
Lemma nth_chunk {B} (l : list B) (d : B) k n :
  k + n ≤ length l →
  map (λ c, nth (k + c) l d) (seq 0 n) = take n (drop k l).
Proof.
  intros H. apply list_eq. intros c.
  change (map ?f ?x) with (f <$> x). rewrite list_lookup_fmap.
  destruct (decide (c < n)) as [Hc|Hc].
  - rewrite lookup_seq_lt by exact Hc. simpl.
    rewrite lookup_take_lt by exact Hc. rewrite lookup_drop.
    destruct (l !! (k + c)) eqn:E.
    + f_equal. now apply nth_lookup_Some with (d := d) in E.
    + apply lookup_ge_None in E. lia.
  - rewrite lookup_seq_ge by lia. simpl. symmetry.
    apply lookup_take_ge. lia.
Qed.

Lemma column_of_reshape_T flat n_splits n_candidates a i :
  reshape_T flat n_splits n_candidates = Ok a →
  i < n_splits →
  column_of a i = take n_candidates (drop (i * n_candidates) flat).
Proof.
  unfold reshape_T. destruct (Nat.eqb_spec (length flat)
                                (n_splits * n_candidates)) as [Hl|]; [|discriminate].
  intros H Hi. inversion H; subst; clear H. unfold column_of. simpl.
  rewrite map_map.
  rewrite <- nth_chunk with (d := F64.zero) by nia.
  apply map_ext_in. intros c Hc. apply in_seq in Hc.
  change (map ?f ?x) with (f <$> x).
  rewrite nth_lookup, list_lookup_fmap, lookup_seq_lt by exact Hi.
  reflexivity.
Qed.

Lemma _store_split_columns results key_name array n_splits n_candidates
    weights rank results' i :
  _store results key_name array n_splits n_candidates weights true rank
    = Ok results' →
  i < n_splits →
  length array = n_splits * n_candidates
  ∧ results' !! split_name i key_name
    = Some (FloatCol (take n_candidates (drop (i * n_candidates) array))).
Proof.
  unfold _store. intros H Hi.
  destruct (reshape_T array n_splits n_candidates) as [a|e] eqn:Ha;
    [|discriminate].
  simpl in H.
  destruct (np_average a weights) as [means|e]; [|discriminate]. simpl in H.
  destruct (np_average (squared_deviations a means) weights) as [vars|e];
    [|discriminate].
  simpl in H. split.
  - unfold reshape_T in Ha.
    destruct (Nat.eqb_spec (length array) (n_splits * n_candidates));
      [assumption | discriminate].
  - rewrite <- (column_of_reshape_T _ _ _ _ _ Ha Hi).
    destruct rank; inversion H; subst; clear H;
      rewrite ?lookup_insert_ne by discriminate;
      now apply store_splits_lookup.
Qed.

Lemma split_scores_length scores tests trains :
  split_scores scores = Ok (tests, trains) →
  length tests = length scores
  ∧ (∀ trs, trains = Some trs → length trs = length scores)
  ∧ (trains ≠ None ↔ ∃ a b rest, scores = Pair a b :: rest).
Proof.
  unfold split_scores, first_is_tuple.
  destruct scores as [|s0 scores]; [discriminate|].
  change (py_getitem (s0 :: scores) 0) with (Ok (A := score_item) s0).
  cbn [result_bind]. destruct s0 as [a|a b].
  - destruct (plain_scores (Single a :: scores)) as [t|e] eqn:E;
      [|discriminate].
    intros H. inversion H; subst. apply mapM_length in E.
    split; [exact E|]. split; [discriminate|].
    split; [congruence|]. intros (? & ? & ? & ?). discriminate.
  - unfold unzip_scores.
    destruct (mapM _ (Pair a b :: scores)) as [ps|e] eqn:E; [|discriminate].
    cbn [result_bind fst snd]. intros H. inversion H; subst.
    apply mapM_length in E. rewrite !length_map.
    split; [exact E|]. split.
    + intros trs Ht. inversion Ht; subst. now rewrite length_map.
    + split; [eauto | discriminate].
Qed.

Lemma to_float64_length l arr :
  to_float64 l = Ok arr → length arr = length l.
Proof. apply mapM_length. Qed.

Lemma _store_no_rank results key_name array n_splits n_candidates weights
    splits results' k :
  _store results key_name array n_splits n_candidates weights splits false
    = Ok results' →
  (∀ i, k ≠ split_name i key_name) →
  k ≠ "mean_" +:+ key_name → k ≠ "std_" +:+ key_name →
  results' !! k = results !! k.
Proof.
  unfold _store. intros H Hsplit Hmean Hstd.
  destruct (reshape_T array n_splits n_candidates) as [a|e]; [|discriminate].
  simpl in H.
  destruct (np_average a weights) as [means|e]; [|discriminate]. simpl in H.
  destruct (np_average (squared_deviations a means) weights) as [vars|e];
    [|discriminate].
  simpl in H.
  assert ((if splits then store_splits results key_name a n_splits
           else results) !! k = results !! k) as Hs
    by (destruct splits; [now apply store_splits_other | reflexivity]).
  inversion H; subst; clear H.
  rewrite ?lookup_insert_ne by congruence. exact Hs.
Qed.

(** ** Penalized failures *)

Lemma to_float64_replace v (tests : list (fitted float)) :
  to_float64 (map (replace_failure (ErrorScore v)) tests)
  = Ok (map (score_value v) tests).
Proof.
  unfold to_float64. induction tests as [|[|x] tests IH]; simpl;
    [reflexivity | |]; now rewrite IH.
Qed.

Lemma replace_failure_penalized v s :
  replace_failure (ErrorScore v) (penalized v s)
  = replace_failure (ErrorScore v) s.
Proof. now destruct s. Qed.

Lemma split_scores_penalize v scores :
  split_scores (map (penalize v) scores) =
    match split_scores scores with
    | Ok (tests, trains) =>
        Ok (map (penalized v) tests, map (penalized v) <$> trains)
    | Raise e => Raise e
    end.
Proof.
  unfold split_scores, first_is_tuple.
  destruct scores as [|s0 scores]; [reflexivity|].
  change (py_getitem (map (penalize v) (s0 :: scores)) 0)
    with (Ok (A := score_item) (penalize v s0)).
  change (py_getitem (s0 :: scores) 0) with (Ok (A := score_item) s0).
  cbn [result_bind].
  assert (unzip_scores (map (penalize v) (s0 :: scores)) =
          match unzip_scores (s0 :: scores) with
          | Ok ts => Ok (map (penalized v) (fst ts), map (penalized v) (snd ts))
          | Raise e => Raise e
          end) as Hun.
  { unfold unzip_scores. generalize (s0 :: scores) as l. intros l.
    induction l as [|[a|a b] l IH]; [reflexivity | reflexivity |].
    cbn [map mapM penalize result_bind] in *.
    destruct (mapM _ (map (penalize v) l)) as [ps|e] eqn:E1;
      destruct (mapM _ l) as [qs|e'] eqn:E2; simpl in *;
      try discriminate; try reflexivity.
    - inversion IH. simpl. congruence.
    - congruence. }
  assert (plain_scores (map (penalize v) (s0 :: scores)) =
          match plain_scores (s0 :: scores) with
          | Ok t => Ok (map (penalized v) t)
          | Raise e => Raise e
          end) as Hpl.
  { unfold plain_scores. generalize (s0 :: scores) as l. intros l.
    induction l as [|[a|a b] l IH]; [reflexivity | | reflexivity].
    cbn [map mapM penalize result_bind] in *.
    rewrite IH. now destruct (mapM _ l). }
  destruct s0 as [a|a b]; cbn [penalize].
  - cbv iota. rewrite Hpl.
    destruct (plain_scores (Single a :: scores)); reflexivity.
  - cbv iota. rewrite Hun.
    destruct (unzip_scores (Pair a b :: scores)) as [[t1 t2]|]; reflexivity.
Qed.

Lemma map_replace_penalized v (l : list (fitted float)) :
  map (replace_failure (ErrorScore v)) (map (penalized v) l)
  = map (replace_failure (ErrorScore v)) l.
Proof.
  rewrite map_map. apply map_ext. intros s. apply replace_failure_penalized.
Qed.

Lemma create_cv_results_penalize scores candidate_params n_splits v weights :
  create_cv_results (map (penalize v) scores) candidate_params n_splits
    (ErrorScore v) weights
  = create_cv_results scores candidate_params n_splits (ErrorScore v) weights.
Proof.
  unfold create_cv_results. rewrite split_scores_penalize.
  destruct (split_scores scores) as [[tests trains]|e]; [|reflexivity].
  cbn [result_bind fst snd]. rewrite map_replace_penalized.
  destruct trains as [trains|]; [|reflexivity].
  cbn [fmap option_fmap option_map]. now rewrite map_replace_penalized.
Qed.

(** *** A candidate whose folds all failed *)

Lemma fsum_zeros n : fsum (replicate n F64.zero) = F64.zero.
Proof.
  destruct n as [|n]; [reflexivity|]. simpl.
  induction n as [|n IH]; [reflexivity|]. simpl. exact IH.
Qed.

Lemma div_zero_pos x : is_pos x = true → F64.div F64.zero x = F64.zero.
Proof.
  destruct x as [[]|[]| |[] m e]; simpl; intros H; try discriminate;
    reflexivity.
Qed.

Lemma is_pos_finite_is_pos x : is_pos_finite x = true → is_pos x = true.
Proof. destruct x as [[]|[]| |[] m e]; simpl; congruence. Qed.

Lemma zip_with_mul_zeros (ws : list float) :
  Forall (λ w, is_nonneg_finite w = true) ws →
  zip_with F64.mul (replicate (length ws) F64.zero) ws
  = replicate (length ws) F64.zero.
Proof.
  induction 1 as [|w ws Hw _ IH]; [reflexivity|]. simpl. rewrite IH.
  f_equal. destruct w as [[]|[]| |[] m e]; simpl in Hw; try discriminate;
    reflexivity.
Qed.

Lemma reshape_T_shape flat n_splits n_candidates a :
  reshape_T flat n_splits n_candidates = Ok a →
  m_rows a = n_candidates ∧ m_cols a = n_splits
  ∧ ∀ c, c < n_candidates →
      m_data a !! c =
        Some (map (λ s, nth (s * n_candidates + c) flat F64.zero)
                  (seq 0 n_splits)).
Proof.
  unfold reshape_T. destruct (_ =? _); [|discriminate].
  intros H. inversion H; subst; clear H. simpl. repeat split.
  intros c Hc. rewrite list_lookup_fmap.
  rewrite lookup_seq_lt by exact Hc. reflexivity.
Qed.

(** The average of a row of zeros is zero. *)
Lemma np_average_zero_row a (weights : option (list float)) n c means :
  np_average a ((λ w, broadcast_rows w n) <$> weights) = Ok means →
  weights_ok weights →
  is_pos_finite (F64.of_nat (m_cols a)) = true →
  c < n →
  m_data a !! c = Some (replicate (m_cols a) F64.zero) →
  means !! c = Some F64.zero.
Proof.
  intros Havg Hw Hn Hc Hrow. destruct weights as [ws|]; simpl in Havg.
  - destruct Hw as [Hws Hsum].
    destruct (negb _) eqn:Hshape; [discriminate|].
    apply negb_false_iff, andb_true_iff in Hshape as [_ Hcols].
    apply Nat.eqb_eq in Hcols.
    destruct (any _ _); [discriminate|]. inversion Havg; subst; clear Havg.
    rewrite lookup_zip_with, !list_lookup_fmap, lookup_zip_with, Hrow.
    rewrite lookup_replicate_2 by exact Hc. simpl.
    rewrite Hcols, zip_with_mul_zeros, fsum_zeros by exact Hws.
    now rewrite div_zero_pos.
  - inversion Havg; subst; clear Havg.
    rewrite list_lookup_fmap, Hrow. simpl. rewrite fsum_zeros.
    now rewrite div_zero_pos by now apply is_pos_finite_is_pos.
Qed.

Lemma squared_deviations_zero_row a means c :
  m_data a !! c = Some (replicate (m_cols a) F64.zero) →
  means !! c = Some F64.zero →
  m_data (squared_deviations a means) !! c
  = Some (replicate (m_cols (squared_deviations a means)) F64.zero).
Proof.
  intros Hrow Hmean. unfold squared_deviations. simpl.
  rewrite lookup_zip_with, Hrow. simpl. rewrite Hmean. simpl. f_equal.
  generalize (m_cols a) as n. intros n.
  induction n as [|n IH]; [reflexivity|]. simpl. now rewrite IH.
Qed.

(** The cell of a column that is a chunk of the scores. *)
Lemma chunk_lookup {B} (l : list B) n i c x :
  c < n → l !! (i * n + c) = Some x → take n (drop (i * n) l) !! c = Some x.
Proof.
  intros Hc Hx. rewrite lookup_take_lt by exact Hc. now rewrite lookup_drop.
Qed.

(** The statistics of the train scores in the table. *)
Lemma create_cv_results_train_columns scores candidate_params n_splits
    error_score weights results tests trs :
  create_cv_results scores candidate_params n_splits error_score weights
    = Ok results →
  split_scores scores = Ok (tests, Some trs) →
  ∃ train_array a means vars,
    to_float64 (map (replace_failure error_score) trs) = Ok train_array
    ∧ reshape_T train_array n_splits (length candidate_params) = Ok a
    ∧ np_average a None = Ok means
    ∧ np_average (squared_deviations a means) None = Ok vars
    ∧ results !! "mean_train_score" = Some (FloatCol means)
    ∧ results !! "std_train_score" = Some (FloatCol (map F64.sqrt vars))
    ∧ ∀ i, i < n_splits →
        results !! split_name i "train_score"
        = Some (FloatCol (take (length candidate_params)
                            (drop (i * length candidate_params)
                               train_array))).
Proof.
  intros H Hsp.
  apply create_cv_results_inv in H
    as (tests' & trains & test_array & r1 & r2 & Hsp' & _ & _ & Htr & ->).
  rewrite Hsp in Hsp'. inversion Hsp'; subst tests' trains.
  destruct Htr as (train_array & Hta & Hs2).
  pose proof (_store_columns _ _ _ _ _ _ _ _ _ Hs2)
    as (a & means & vars & Ha & Hm & Hv & Hmean & Hstd & _).
  exists train_array, a, means, vars.
  do 4 (split; [assumption|]).
  rewrite !update_results_other by discriminate.
  split; [exact Hmean|]. split; [exact Hstd|].
  intros i Hi.
  rewrite update_results_other by (intros name; apply split_name_not_param).
  now destruct (_store_split_columns _ _ _ _ _ _ _ _ i Hs2 Hi).
Qed.

(** The columns of the test scores of each split in the table. *)
Lemma create_cv_results_test_splits scores candidate_params n_splits
    error_score weights results tests trains test_array i :
  create_cv_results scores candidate_params n_splits error_score weights
    = Ok results →
  split_scores scores = Ok (tests, trains) →
  to_float64 (map (replace_failure error_score) tests) = Ok test_array →
  i < n_splits →
  results !! split_name i "test_score"
  = Some (FloatCol (take (length candidate_params)
                      (drop (i * length candidate_params) test_array))).
Proof.
  intros H Hsp Hta Hi.
  apply create_cv_results_inv in H
    as (tests' & trains' & test_array' & r1 & r2 & Hsp' & Hta' & Hs1 & Htr
        & ->).
  rewrite Hsp in Hsp'. inversion Hsp'; subst tests' trains'.
  rewrite Hta in Hta'. inversion Hta'; subst test_array'.
  rewrite update_results_other by (intros name; apply split_name_not_param).
  destruct (_store_split_columns _ _ _ _ _ _ _ _ i Hs1 Hi) as [_ Hcol].
  destruct trains as [trs|]; [|now subst].
  destruct Htr as (train_array & _ & Hs2).
  rewrite (_store_no_rank _ _ _ _ _ _ _ _ _ Hs2); [exact Hcol | | |].
  - intros j. apply split_name_test_train.
  - discriminate.
  - discriminate.
Qed.

(** C5. [create_cv_results] treats a [FIT_FAILURE] entry of the test
    scores or of the train scores as the score [error_score]: the table is
    the one of the scores in which every failure is replaced by it. For a
    candidate all of whose folds returned [FIT_FAILURE], with the error
    score 0.0, the mean test score is exactly 0.0 and its standard
    deviation is exactly 0.0. The replacement is by the error score [v]
    itself and comes before the statistics: the cell of a failed fold in
    the column of its split holds [v], the cell of any other fold holds
    its score, and the means, the standard deviations and the ranks are
    those of the array of scores in which [v] stands for every failure,
    for the test scores and for the train scores. *)
Theorem failures_are_penalized :
  (∀ scores candidate_params n_splits v weights,
      create_cv_results scores candidate_params n_splits (ErrorScore v)
        weights
      = create_cv_results (map (penalize v) scores) candidate_params n_splits
          (ErrorScore v) weights)
  ∧ (∀ scores candidate_params n_splits weights results tests trains c,
        create_cv_results scores candidate_params n_splits
          (ErrorScore F64.zero) weights = Ok results →
        split_scores scores = Ok (tests, trains) →
        0 < n_splits → (Z.of_nat n_splits < 2 ^ 53)%Z →
        weights_ok weights →
        c < length candidate_params →
        (∀ s, s < n_splits →
              tests !! (s * length candidate_params + c) = Some FIT_FAILURE) →
        ∃ means stds,
          results !! "mean_test_score" = Some (FloatCol means)
          ∧ means !! c = Some F64.zero
          ∧ results !! "std_test_score" = Some (FloatCol stds)
          ∧ stds !! c = Some F64.zero)
  ∧ (∀ scores candidate_params n_splits v weights results tests trains,
        create_cv_results scores candidate_params n_splits (ErrorScore v)
          weights = Ok results →
        split_scores scores = Ok (tests, trains) →
        let n := length candidate_params in
        let fold_weights := (λ w, broadcast_rows w n) <$> weights in
        (∀ i c s,
            i < n_splits → c < n → tests !! (i * n + c) = Some s →
            ∃ col,
              results !! split_name i "test_score" = Some (FloatCol col)
              ∧ col !! c = Some (score_value v s))
        ∧ (∃ a means vars,
              reshape_T (map (score_value v) tests) n_splits n = Ok a
              ∧ np_average a fold_weights = Ok means
              ∧ np_average (squared_deviations a means) fold_weights
                = Ok vars
              ∧ results !! "mean_test_score" = Some (FloatCol means)
              ∧ results !! "std_test_score"
                = Some (FloatCol (map F64.sqrt vars))
              ∧ results !! "rank_test_score"
                = Some (RankCol (map (λ r, to_int32 (Z.of_nat r))
                                   (rankdata_min np_sort_lt F64.neqb
                                      (map F64.opp means)))))
        ∧ (∀ trs,
              trains = Some trs →
              (∀ i c s,
                  i < n_splits → c < n → trs !! (i * n + c) = Some s →
                  ∃ col,
                    results !! split_name i "train_score"
                    = Some (FloatCol col)
                    ∧ col !! c = Some (score_value v s))
              ∧ ∃ a means vars,
                  reshape_T (map (score_value v) trs) n_splits n = Ok a
                  ∧ np_average a None = Ok means
                  ∧ np_average (squared_deviations a means) None = Ok vars
                  ∧ results !! "mean_train_score" = Some (FloatCol means)
                  ∧ results !! "std_train_score"
                    = Some (FloatCol (map F64.sqrt vars)))).
Proof.
  split; [|split].
  - intros. symmetry. apply create_cv_results_penalize.
  - intros scores cands n_splits weights results tests trains c H Hsplit
      Hn Hb Hw Hc Hfail.
    apply create_cv_results_test_columns in H
      as (tests' & trains' & test_array & a & means & vars & Hsplit' & Hta
          & Ha & Hm & Hv & Hmean & Hstd & _).
    rewrite Hsplit in Hsplit'. inversion Hsplit'; subst tests' trains'.
    rewrite to_float64_replace in Hta. inversion Hta; subst test_array.
    destruct (reshape_T_shape _ _ _ _ Ha) as (Hrows & Hcols & Hdata).
    assert (m_data a !! c = Some (replicate (m_cols a) F64.zero)) as Hrow.
    { rewrite (Hdata c Hc), Hcols. f_equal.
      apply list_eq. intros s. rewrite list_lookup_fmap.
      destruct (decide (s < n_splits)) as [Hs|Hs].
      - rewrite lookup_seq_lt, lookup_replicate_2 by exact Hs. simpl.
        f_equal. apply nth_lookup_Some with (d := F64.zero).
        rewrite list_lookup_fmap, (Hfail s Hs). reflexivity.
      - rewrite lookup_seq_ge by lia. symmetry.
        apply lookup_replicate_None. lia. }
    assert (is_pos_finite (F64.of_nat (m_cols a)) = true) as Hpos
      by (rewrite Hcols; now apply of_nat_pos_finite).
    assert (means !! c = Some F64.zero) as Hmc
      by (eapply np_average_zero_row; eauto).
    exists means, (map F64.sqrt vars). repeat split; try assumption.
    rewrite list_lookup_fmap.
    erewrite (np_average_zero_row _ weights _ c vars Hv Hw); eauto.
    now apply squared_deviations_zero_row.
  - intros scores cands n_splits v weights results tests trains H Hsplit n
      fold_weights. subst n fold_weights.
    split; [|split].
    + intros i c s Hi Hc Hs. eexists. split.
      * exact (create_cv_results_test_splits _ _ _ _ _ _ _ _ _ i H Hsplit
                 (to_float64_replace v tests) Hi).
      * apply chunk_lookup; [exact Hc|].
        change (map (score_value v) tests) with (score_value v <$> tests).
        now rewrite list_lookup_fmap, Hs.
    + pose proof (create_cv_results_test_columns _ _ _ _ _ _ H)
        as (tests' & trains' & test_array & a & means & vars & Hsplit' & Hta
            & Ha & Hm & Hv & Hmean & Hstd & Hrank).
      rewrite Hsplit in Hsplit'. inversion Hsplit'; subst tests' trains'.
      rewrite to_float64_replace in Hta. inversion Hta; subst test_array.
      exists a, means, vars. repeat (split; [assumption|]). exact Hrank.
    + intros trs ->.
      destruct (create_cv_results_train_columns _ _ _ _ _ _ _ _ H Hsplit)
        as (train_array & a & means & vars & Hta & Ha & Hm & Hv & Hmean
            & Hstd & Hcols).
      rewrite to_float64_replace in Hta. inversion Hta; subst train_array.
      split.
      * intros i c s Hi Hc Hs. eexists. split; [exact (Hcols i Hi)|].
        apply chunk_lookup; [exact Hc|].
        change (map (score_value v) trs) with (score_value v <$> trs).
        now rewrite list_lookup_fmap, Hs.
      * exists a, means, vars. repeat (split; [assumption|]). exact Hstd.
Qed.

(** ** Selection of the best candidate *)

Lemma first_rank_one_spec (ranks : list Z) i :
  ranks !! i = Some 1%Z →
  (∀ j, j < i → ranks !! j ≠ Some 1%Z) →
  first_rank_one ranks = Some i.
Proof.
  revert i. induction ranks as [|r ranks IH]; intros i Hi Hfirst;
    [discriminate|].
  destruct i as [|i]; simpl in *.
  - inversion Hi; subst. reflexivity.
  - destruct (Z.eqb_spec r 1) as [->|_].
    + exfalso. apply (Hfirst 0); [lia | reflexivity].
    + rewrite (IH i Hi); [reflexivity|].
      intros j Hj. apply (Hfirst (S j)). lia.
Qed.

(** C8. In the scenario the table has the mean test scores
    [0.75, 0.9, 0.5] and the ranks [2, 1, 3], and [get_best_params]
    returns the parameters of candidate 1, without fold weights and also
    with two test folds of 5 samples each. In general [get_best_params]
    returns the parameters of the first candidate, in the order of the
    candidates, whose rank is 1. *)
Theorem scenario_and_best_params :
  (∀ p0 p1 p2 error_score,
      ∃ results,
        create_cv_results scenario_scores [p0; p1; p2] 2 error_score None
          = Ok results
        ∧ results !! "split0_test_score" =
            Some (FloatCol [F64.dec 7 10; F64.dec 9 10; F64.dec 5 10])
        ∧ results !! "split1_test_score" =
            Some (FloatCol [F64.dec 8 10; F64.dec 9 10; F64.dec 5 10])
        ∧ results !! "mean_test_score" =
            Some (FloatCol [F64.dec 75 100; F64.dec 9 10; F64.dec 5 10])
        ∧ results !! "rank_test_score" = Some (RankCol [2; 1; 3]%Z)
        ∧ get_best_params [p0; p1; p2] results = Ok p1)
  ∧ (∀ p0 p1 p2 error_score,
        ∃ results,
          create_cv_results scenario_scores [p0; p1; p2] 2 error_score
            (Some [F64.of_Z 5; F64.of_Z 5]) = Ok results
          ∧ results !! "mean_test_score" =
              Some (FloatCol [F64.dec 75 100; F64.dec 9 10; F64.dec 5 10])
          ∧ results !! "rank_test_score" = Some (RankCol [2; 1; 3]%Z)
          ∧ get_best_params [p0; p1; p2] results = Ok p1)
  ∧ (∀ (candidate_params : list (gmap string pyval)) cv_results ranks i p,
        cv_results !! "rank_test_score" = Some (RankCol ranks) →
        ranks !! i = Some 1%Z →
        (∀ j, j < i → ranks !! j ≠ Some 1%Z) →
        candidate_params !! i = Some p →
        get_best_params candidate_params cv_results = Ok p).
Proof.
  split; [|split].
  - intros p0 p1 p2 es. eexists. split; [reflexivity|].
    unfold get_best_params.
    rewrite !update_results_other by discriminate.
    repeat split; vm_compute; reflexivity.
  - intros p0 p1 p2 es. eexists. split; [reflexivity|].
    unfold get_best_params.
    rewrite !update_results_other by discriminate.
    repeat split; vm_compute; reflexivity.
  - intros cands results ranks i p Hrank Hi Hfirst Hp.
    unfold get_best_params. rewrite Hrank.
    rewrite (first_rank_one_spec ranks i Hi Hfirst).
    now apply py_getitem_nat.
Qed.

(** ** Failure propagation through reconstruction, fit and score *)

Section EvaluationProperties.
Context {leaf : Type}.
Variable copy_estimator : estimator leaf → result (estimator leaf).
Variable est_set_params :
  estimator leaf → gmap string pyval → result (estimator leaf).
Variable est_fit :
  estimator leaf → data → data → gmap string container
  → result (estimator leaf).
Variable has_fit_transform : estimator leaf → bool.
Variable est_fit_transform :
  estimator leaf → data → data → gmap string container
  → result (estimator leaf * container).
Variable est_transform : estimator leaf → data → result container.
Variable scorer2 : estimator leaf → data → result float.
Variable scorer3 : estimator leaf → data → container → result float.

Local Abbreviation set_params' := (set_params leaf copy_estimator est_set_params).
Local Abbreviation fit' := (fit leaf copy_estimator est_set_params est_fit).
Local Abbreviation fit_transform' :=
  (fit_transform leaf copy_estimator est_set_params est_fit
     has_fit_transform est_fit_transform est_transform).
Local Abbreviation score' := (score leaf scorer2 scorer3).

Lemma score_FIT_FAILURE (X_test y_test X_train y_train : data)
    (t : trace leaf) :
  score' FIT_FAILURE X_test y_test X_train y_train t =
    (Ok (match X_train with
         | None => Single FIT_FAILURE
         | Some _ => Pair FIT_FAILURE FIT_FAILURE
         end), t).
Proof. destruct X_train; reflexivity. Qed.

(** C2. Reconstruction of a pipeline or of a feature union from step
    results that hold a [FIT_FAILURE], wherever it stands, is
    [FIT_FAILURE]; from step results that are all fitted it is the
    composite of the names zipped with the steps in order. The score of
    a [FIT_FAILURE] model is [FIT_FAILURE], for the test score and, when
    [X_train] is not [None], for the train score as well; the scorer is
    not called. *)
Theorem failure_propagates_through_composites_and_score :
  (∀ names (pre post : list (fitted (estimator leaf))),
      pipeline leaf names (pre ++ FIT_FAILURE :: post) = FIT_FAILURE)
  ∧ (∀ names (steps : list (estimator leaf)),
      pipeline leaf names (map Val steps) = Val (Pipeline leaf (zip names steps)))
  ∧ (∀ names (pre post : list (fitted (estimator leaf))) weights,
      feature_union leaf names (pre ++ FIT_FAILURE :: post) weights
      = FIT_FAILURE)
  ∧ (∀ names (steps : list (estimator leaf)) weights,
      feature_union leaf names (map Val steps) weights
      = Val (FeatureUnion leaf (zip names steps) weights))
  ∧ (∀ X_test y_test y_train (t : trace leaf),
      score' FIT_FAILURE X_test y_test None y_train t
      = (Ok (Single FIT_FAILURE), t))
  ∧ (∀ X_test y_test X_train y_train (t : trace leaf),
      score' FIT_FAILURE X_test y_test (Some X_train) y_train t
      = (Ok (Pair FIT_FAILURE FIT_FAILURE), t)).
Proof.
  repeat apply conj; intros.
  - unfold pipeline. now rewrite any_FIT_FAILURE_app.
  - unfold pipeline. now rewrite any_FIT_FAILURE_Val, the_fitted_Val.
  - unfold feature_union. now rewrite any_FIT_FAILURE_app.
  - unfold feature_union. now rewrite any_FIT_FAILURE_Val, the_fitted_Val.
  - apply score_FIT_FAILURE.
  - apply score_FIT_FAILURE.
Qed.

(** *** [fit] and [fit_transform] *)

Lemma set_params_copy_fault est fields params (t : trace leaf) e :
  copy_estimator est = Raise e →
  set_params' est fields params true t = (Raise e, t ++ [CopyEstimator leaf est]).
Proof.
  intros H. unfold set_params, call, emit, bind, modify, lift. now rewrite H.
Qed.

Lemma set_params_set_fault est est1 fs ps (t : trace leaf) e :
  copy_estimator est = Ok est1 →
  est_set_params est1 (dict_of_pairs (given_pairs fs ps)) = Raise e →
  set_params' est (Some fs) (Some ps) true t =
    (Raise e, t ++ [CopyEstimator leaf est] ++ [LockAcquire leaf]
                ++ [SetParams leaf est1 (dict_of_pairs (given_pairs fs ps))]
                ++ [LockRelease leaf]).
Proof.
  intros H1 H2.
  unfold set_params, with_SET_PARAMS_LOCK, call, emit, bind, modify, lift.
  rewrite H1. simpl. rewrite H2. now rewrite <- !app_assoc.
Qed.

Lemma fit_set_params_fault est X y v fields params fit_params
    (t t1 : trace leaf) e :
  set_params' est fields params true t = (Raise e, t1) →
  fit' (Val est) (Val X) y (ErrorScore v) fields params fit_params t =
    (Ok FIT_FAILURE, t1 ++ [FitFailedWarning leaf v e]).
Proof.
  intros H. unfold fit, try_except, bind. now rewrite H.
Qed.

Lemma fit_transform_set_params_fault est X y v fields params fit_params
    (t t1 : trace leaf) e :
  set_params' est fields params true t = (Raise e, t1) →
  fit_transform' (Val est) (Val X) y (ErrorScore v) fields params
      fit_params t =
    (Ok (FIT_FAILURE, FIT_FAILURE), t1 ++ [FitFailedWarning leaf v e]).
Proof.
  intros H. unfold fit_transform, try_except, bind. now rewrite H.
Qed.

(** C3. [fit] on a model or on an [X] that is [FIT_FAILURE] returns
    [FIT_FAILURE] and leaves the trace as it was: nothing is copied, set
    or fitted. Otherwise, when the parameters were applied and [est.fit]
    raises [e]: under ['raise'] the call raises [e]; under a numeric
    error score [v] a [FitFailedWarning] that carries [v] and [e] is
    emitted and the call returns [FIT_FAILURE]. *)
Theorem fit_short_circuits_and_applies_error_policy :
  ∀ (est0 : estimator leaf) (X0 y : data) fields params fit_params
    (t : trace leaf),
    (∀ X error_score,
        fit' FIT_FAILURE X y error_score fields params fit_params t
        = (Ok FIT_FAILURE, t))
    ∧ (∀ est error_score,
        fit' est FIT_FAILURE y error_score fields params fit_params t
        = (Ok FIT_FAILURE, t))
    ∧ (∀ est1 t1 e,
        set_params' est0 fields params true t = (Ok est1, t1) →
        est_fit est1 X0 y (or_empty fit_params) = Raise e →
        fit' (Val est0) (Val X0) y ErrorRaise fields params fit_params t
        = (Raise e, t1 ++ [Fit leaf est1 X0 y (or_empty fit_params)])
        ∧ ∀ v,
          fit' (Val est0) (Val X0) y (ErrorScore v) fields params
               fit_params t
          = (Ok FIT_FAILURE,
             t1 ++ [Fit leaf est1 X0 y (or_empty fit_params)]
                ++ [FitFailedWarning leaf v e])).
Proof.
  intros est0 X0 y fields params fit_params t. repeat apply conj.
  - reflexivity.
  - intros [|est] error_score; reflexivity.
  - intros est1 t1 e Hset Hfit. split; [|intros v].
    + unfold fit, try_except, bind, call, emit, modify, lift.
      rewrite Hset. simpl. now rewrite Hfit.
    + unfold fit, try_except, bind, call, emit, modify, lift.
      rewrite Hset. simpl. rewrite Hfit.
      unfold warn_fit_failure, emit, modify, ret. simpl.
      now rewrite <- app_assoc.
Qed.

(** C10. Under a numeric error score, a fault of the parameter
    application, raised by [copy_estimator] or by [est.set_params]
    inside [set_params], is caught by [fit] and by [fit_transform] as a
    fault of [est.fit] is: a [FitFailedWarning] with the error score and
    the fault is emitted, [fit] returns [FIT_FAILURE] and [fit_transform]
    returns [FIT_FAILURE] for both outputs; nothing is raised. *)
Theorem parameter_application_fault_is_caught :
  ∀ (est : estimator leaf) (X y : data) (v : float) fit_params
    (t : trace leaf) (e : exn),
    (∀ fields params,
        copy_estimator est = Raise e →
        let t1 := t ++ [CopyEstimator leaf est] in
        fit' (Val est) (Val X) y (ErrorScore v) fields params fit_params t
        = (Ok FIT_FAILURE, t1 ++ [FitFailedWarning leaf v e])
        ∧ fit_transform' (Val est) (Val X) y (ErrorScore v) fields params
              fit_params t
          = (Ok (FIT_FAILURE, FIT_FAILURE),
             t1 ++ [FitFailedWarning leaf v e]))
    ∧ (∀ est1 fs ps,
        copy_estimator est = Ok est1 →
        est_set_params est1 (dict_of_pairs (given_pairs fs ps)) = Raise e →
        let t1 := t ++ [CopyEstimator leaf est] ++ [LockAcquire leaf]
                    ++ [SetParams leaf est1
                          (dict_of_pairs (given_pairs fs ps))]
                    ++ [LockRelease leaf] in
        fit' (Val est) (Val X) y (ErrorScore v) (Some fs) (Some ps)
             fit_params t
        = (Ok FIT_FAILURE, t1 ++ [FitFailedWarning leaf v e])
        ∧ fit_transform' (Val est) (Val X) y (ErrorScore v) (Some fs)
              (Some ps) fit_params t
          = (Ok (FIT_FAILURE, FIT_FAILURE),
             t1 ++ [FitFailedWarning leaf v e])).
Proof.
  intros est X y v fit_params t e. split.
  - intros fields params Hcopy t1.
    pose proof (set_params_copy_fault est fields params t e Hcopy) as Hset.
    split.
    + now apply fit_set_params_fault.
    + now apply fit_transform_set_params_fault.
  - intros est1 fs ps Hcopy Hsp t1.
    pose proof (set_params_set_fault est est1 fs ps t e Hcopy Hsp) as Hset.
    split.
    + now apply fit_set_params_fault.
    + now apply fit_transform_set_params_fault.
Qed.
End EvaluationProperties.

(** ** The properties on the samples *)

Lemma table_of_ok (t : result (gmap string column)) :
  is_ok t = true → t = Ok (Sample.table_of t).
Proof. destruct t; [reflexivity | discriminate]. Qed.

Example sample_take_rows :
  Sample.take_rows (Some Sample.X) (IntIndex [0; 1]%Z) = Ok Sample.X_train0.
Proof. reflexivity. Qed.

Lemma extract_is_memoized_witness :
  cache (self Sample.fresh) ≠ None
  ∧ extract Sample.take_rows Sample.X Sample.y 0 true true Sample.fresh
    = (Ok (Some Sample.X_train0), Sample.after_first)
  ∧ extract Sample.take_rows Sample.X Sample.y 0 true true Sample.after_first
    = (Ok (Some Sample.X_train0), Sample.after_first)
  ∧ cache_lookup (slot_key 0 true true) Sample.after_first
    = Some Sample.X_train0
  ∧ cache_lookup (slot_key 0 true true)
      (run_calls Sample.take_rows Sample.is_arraylike
         [CallExtract Sample.X Sample.y 1 true false;
          CallExtractParam "sample_weight" Sample.X 0]
         Sample.after_first)
    = Some Sample.X_train0
  ∧ (let later :=
       run_calls Sample.take_rows Sample.is_arraylike
         [CallExtract Sample.X Sample.y 1 true false;
          CallExtractParam "sample_weight" Sample.X 0;
          CallExtract Sample.X Sample.y 0 false true]
         Sample.after_first in
     length (extractions later) = 4
     ∧ extract Sample.take_rows Sample.X Sample.y 0 true true later
       = (Ok (Some Sample.X_train0), later)).
Proof.
  assert (cache (self Sample.fresh) ≠ None) as H1 by discriminate.
  assert (extract Sample.take_rows Sample.X Sample.y 0 true true Sample.fresh
          = (Ok (Some Sample.X_train0), Sample.after_first)) as H2
    by (vm_compute; reflexivity).
  destruct (extract_is_memoized Sample.take_rows Sample.is_arraylike
              _ _ _ _ _ _ _ _ H1 H2) as (Hsecond & Hstored & Hkeep & Hlater).
  pose proof (Hstored _ eq_refl) as Hs.
  split; [exact H1|]. split; [exact H2|]. split; [exact Hsecond|].
  split; [exact Hs|]. split; [apply Hkeep; exact Hs|].
  split; [reflexivity | apply Hlater].
Defined.

Lemma pairwise_extraction_validates_and_slices_witness :
  (∃ msg,
      extract Sample.take_rows Sample.plain_list None 0 true true
        Sample.fresh_pairwise
      = (Raise (ValueError msg), Sample.fresh_pairwise))
  ∧ (∃ msg,
        extract Sample.take_rows Sample.wide None 0 true true
          Sample.fresh_pairwise
        = (Raise (ValueError msg), Sample.fresh_pairwise))
  ∧ (∃ r w',
        extract Sample.take_rows Sample.kernel None 0 true false
          Sample.fresh_pairwise = (Ok (Some r), w')
        ∧ get_shape r = Some [1; 2]
        ∧ elements r = Sample.floats [7; 8]%Z).
Proof.
  assert (pairwise (self Sample.fresh_pairwise) = true) as Hp
    by reflexivity.
  assert (∀ is_train,
            cache_lookup (slot_key 0 true is_train) Sample.fresh_pairwise
            = None) as Hmiss by reflexivity.
  split; [|split].
  - apply (pairwise_extraction_validates_and_slices Sample.take_rows
             Sample.fresh_pairwise Sample.plain_list None 0 true Hp
             (Hmiss true)).
    reflexivity.
  - apply (proj1 (proj2 (pairwise_extraction_validates_and_slices
             Sample.take_rows Sample.fresh_pairwise Sample.wide None 0 true
             Hp (Hmiss true))) 2 3 []); [reflexivity | lia].
  - destruct (proj2 (proj2 (pairwise_extraction_validates_and_slices
                Sample.take_rows Sample.fresh_pairwise Sample.kernel None 0
                false Hp (Hmiss false)))
                3 (IntIndex [0; 1]%Z) (IntIndex [2]%Z) [2] [0; 1]
                eq_refl eq_refl eq_refl eq_refl)
      as (r & w' & Hr & Hshape & Hel).
    exists r, w'. split; [exact Hr|]. split; [exact Hshape|].
    rewrite Hel. reflexivity.
Defined.

(** C7, counterexample. In pairwise mode a one-dimensional array, which
    exposes no two-dimensional shape, makes the extraction raise
    [IndexError], not [ValueError]; and once the slice of a square kernel
    is cached, the extraction of the same slot from a 2 x 3 array, which
    is not square, returns the cached slice and raises nothing. *)
Lemma pairwise_extraction_counterexample :
  (get_shape Sample.flat_array = Some [3]
   ∧ extract Sample.take_rows Sample.flat_array None 0 true true
       Sample.fresh_pairwise
     = (Raise IndexError, Sample.fresh_pairwise))
  ∧ (get_shape Sample.wide = Some [2; 3]
     ∧ pairwise (self Sample.after_kernel) = true
     ∧ extract Sample.take_rows Sample.wide None 0 true true
         Sample.after_kernel
       = (Ok (Some (NdArray [2; 2] (Sample.floats [1; 2; 4; 5]%Z))),
          Sample.after_kernel)).
Proof.
  repeat apply conj; vm_compute; reflexivity.
Qed.

Lemma feature_union_concat_spec_witness :
  scaled_survivors Sample.branch_outputs Sample.branch_weights
    [Sample.dense_block_scaled; Sample.sparse_block]
  ∧ Forall2 (λ b c, get_shape b = Some [2; c])
      [Sample.dense_block_scaled; Sample.sparse_block] [1; 2]
  ∧ feature_union_concat (map Val Sample.branch_outputs) 2
      Sample.branch_weights
    = Ok (Val (SpMatrix 2 3 (Sample.floats [2; 0; 3; 4; 4; 0]%Z)))
  ∧ scaled_survivors [None; None] [None; Some (F64.of_Z 2)] []
  ∧ feature_union_concat (map Val [None; None]) 5 [None; Some (F64.of_Z 2)]
    = Ok (Val (NdArray [5; 0] [])).
Proof.
  assert (scaled_survivors Sample.branch_outputs Sample.branch_weights
            [Sample.dense_block_scaled; Sample.sparse_block]) as Hs.
  { apply survivors_scaled.
    - unfold scaled_by. repeat apply conj; [discriminate | reflexivity ..].
    - apply survivors_dropped, survivors_plain, survivors_nil. }
  assert (Forall2 (λ b c, get_shape b = Some [2; c])
            [Sample.dense_block_scaled; Sample.sparse_block] [1; 2]) as Hsh
    by (repeat constructor).
  assert (scaled_survivors [None; None] [None; Some (F64.of_Z 2)] []) as Hd
    by (repeat constructor).
  split; [exact Hs|]. split; [exact Hsh|].
  destruct (proj2 (feature_union_concat_spec 2) _ _ _ Hs) as [_ Hout].
  destruct (Hout 2 [1; 2] ltac:(discriminate) Hsh)
    as (out & Hres & Hsp & Hshape & Hel).
  split.
  - rewrite Hres. do 2 f_equal.
    apply container_eq_intro; simpl; [discriminate | exact Hshape |
      exact Hsp | rewrite Hel; reflexivity].
  - split; [exact Hd|].
    apply (proj1 (proj2 (feature_union_concat_spec 5) _ _ _ Hd)).
    reflexivity.
Defined.

Lemma masked_parameter_columns_witness :
  create_cv_results
    [Single (Val (F64.dec 5 10)); Single (Val (F64.dec 6 10))]
    [Sample.cand_A; Sample.cand_B] 1 (ErrorScore F64.zero) None
  = Ok Sample.masked_table
  ∧ Sample.masked_table !! "param_n"
    = Some (MaskedCol [Some (PyInt 3); None])
  ∧ Sample.masked_table !! "param_k"
    = Some (MaskedCol [None; Some (PyInt 5)])
  ∧ Sample.masked_table !! "param_C" = None.
Proof.
  assert (create_cv_results
            [Single (Val (F64.dec 5 10)); Single (Val (F64.dec 6 10))]
            [Sample.cand_A; Sample.cand_B] 1 (ErrorScore F64.zero) None
          = Ok Sample.masked_table) as H
    by (apply table_of_ok; vm_compute; reflexivity).
  split; [exact H|].
  pose proof (masked_parameter_columns _ _ _ _ _ _ H) as Hcol.
  split; [|split].
  - change "param_n" with ("param_" +:+ "n"). rewrite (Hcol "n"). reflexivity.
  - change "param_k" with ("param_" +:+ "k"). rewrite (Hcol "k"). reflexivity.
  - change "param_C" with ("param_" +:+ "C"). rewrite (Hcol "C"). reflexivity.
Defined.

Lemma rank_test_score_counts_greater_means_witness :
  create_cv_results ties_scores [∅; ∅; ∅] 1 (ErrorScore F64.zero) None
  = Ok Sample.ties_table
  ∧ Sample.ties_table !! "mean_test_score"
    = Some (FloatCol Sample.ties_means)
  ∧ Forall not_nan Sample.ties_means
  ∧ (Z.of_nat (length Sample.ties_means) < 2 ^ 31)%Z
  ∧ Sample.ties_table !! "rank_test_score" = Some (RankCol [1; 1; 3]%Z).
Proof.
  assert (create_cv_results ties_scores [∅; ∅; ∅] 1 (ErrorScore F64.zero)
            None = Ok Sample.ties_table) as H
    by (apply table_of_ok; vm_compute; reflexivity).
  assert (Sample.ties_table !! "mean_test_score"
          = Some (FloatCol Sample.ties_means)) as Hm
    by (vm_compute; reflexivity).
  assert (Forall not_nan Sample.ties_means) as Hn
    by (repeat constructor).
  assert (Z.of_nat (length Sample.ties_means) < 2 ^ 31)%Z as Hl
    by (simpl; lia).
  split; [exact H|]. split; [exact Hm|]. split; [exact Hn|].
  split; [exact Hl|].
  rewrite (proj1 (proj1 rank_test_score_counts_greater_means
                    _ _ _ _ _ _ _ H Hm Hn Hl)).
  reflexivity.
Defined.

(** C4, counterexample. With the mean test scores [0.9, 0.9, 0.8] the
    third candidate has one distinct mean above its own, so that the
    count of distinct greater means plus 1 is 2; its rank in the table
    is 3. *)
Lemma rank_is_not_the_count_of_distinct_greater_means :
  create_cv_results ties_scores [∅; ∅; ∅] 1 (ErrorScore F64.zero) None
  = Ok Sample.ties_table
  ∧ Sample.ties_table !! "mean_test_score"
    = Some (FloatCol Sample.ties_means)
  ∧ map (rank_by_distinct_greater Sample.ties_means) Sample.ties_means
    = [1; 1; 2]%Z
  ∧ Sample.ties_table !! "rank_test_score" = Some (RankCol [1; 1; 3]%Z)
  ∧ Sample.ties_table !! "rank_test_score"
    ≠ Some (RankCol (map (rank_by_distinct_greater Sample.ties_means)
                       Sample.ties_means)).
Proof.
  split; [apply table_of_ok; vm_compute; reflexivity|].
  repeat apply conj; try (vm_compute; reflexivity).
  vm_compute. discriminate.
Qed.

Lemma failures_are_penalized_witness :
  create_cv_results Sample.failing_scores [Sample.cand_A; Sample.cand_B] 2
    (ErrorScore F64.zero) Sample.fold_sizes = Ok Sample.failing_table
  ∧ split_scores Sample.failing_scores
    = Ok ([FIT_FAILURE; Val (F64.dec 8 10); FIT_FAILURE; Val (F64.dec 6 10)],
          None)
  ∧ weights_ok Sample.fold_sizes
  ∧ (∃ means stds,
        Sample.failing_table !! "mean_test_score" = Some (FloatCol means)
        ∧ means !! 0 = Some F64.zero
        ∧ Sample.failing_table !! "std_test_score" = Some (FloatCol stds)
        ∧ stds !! 0 = Some F64.zero)
  ∧ create_cv_results Sample.failing_scores [Sample.cand_A; Sample.cand_B] 2
      (ErrorScore (F64.dec 1 10)) Sample.fold_sizes
    = Ok SampleMore.penalized_table
  ∧ (∃ col,
        SampleMore.penalized_table !! split_name 1 "test_score"
        = Some (FloatCol col)
        ∧ col !! 0 = Some (F64.dec 1 10))
  ∧ (∃ col,
        SampleMore.penalized_table !! split_name 1 "test_score"
        = Some (FloatCol col)
        ∧ col !! 1 = Some (F64.dec 6 10)).
Proof.
  assert (create_cv_results Sample.failing_scores
            [Sample.cand_A; Sample.cand_B] 2 (ErrorScore F64.zero)
            Sample.fold_sizes = Ok Sample.failing_table) as H
    by (apply table_of_ok; vm_compute; reflexivity).
  assert (split_scores Sample.failing_scores
          = Ok ([FIT_FAILURE; Val (F64.dec 8 10); FIT_FAILURE;
                 Val (F64.dec 6 10)], None)) as Hs by reflexivity.
  assert (weights_ok Sample.fold_sizes) as Hw
    by (split; [repeat constructor | reflexivity]).
  assert (create_cv_results Sample.failing_scores
            [Sample.cand_A; Sample.cand_B] 2 (ErrorScore (F64.dec 1 10))
            Sample.fold_sizes = Ok SampleMore.penalized_table) as H'
    by (apply table_of_ok; vm_compute; reflexivity).
  destruct failures_are_penalized as (_ & Hzero & Hcells).
  destruct (Hcells _ _ _ _ _ _ _ _ H' Hs) as (Hcell & _ & _).
  split; [exact H|]. split; [exact Hs|]. split; [exact Hw|].
  split; [|split; [exact H'|split]].
  - apply (Hzero _ _ _ _ _ _ _ 0 H Hs).
    + lia.
    + reflexivity.
    + exact Hw.
    + simpl. lia.
    + intros s Hlt. destruct s as [|[|s]]; [reflexivity | reflexivity | lia].
  - apply (Hcell 1 0 FIT_FAILURE); [lia | simpl; lia | reflexivity].
  - apply (Hcell 1 1 (Val (F64.dec 6 10))); [lia | simpl; lia | reflexivity].
Defined.

Lemma scenario_and_best_params_witness :
  ({["rank_test_score" := RankCol [2; 1; 1]%Z]} : gmap string column)
    !! "rank_test_score" = Some (RankCol [2; 1; 1]%Z)
  ∧ get_best_params [Sample.cand_A; Sample.cand_B; ∅]
      {["rank_test_score" := RankCol [2; 1; 1]%Z]}
    = Ok Sample.cand_B.
Proof.
  assert (({["rank_test_score" := RankCol [2; 1; 1]%Z]}
           : gmap string column) !! "rank_test_score"
          = Some (RankCol [2; 1; 1]%Z)) as H by reflexivity.
  split; [exact H|].
  apply (proj2 (proj2 scenario_and_best_params) _ _ _ 1 _ H).
  - reflexivity.
  - intros j Hj. destruct j as [|j]; [discriminate | lia].
  - reflexivity.
Defined.

Lemma fit_short_circuits_and_applies_error_policy_witness :
  set_params string Sample.clone_ok Sample.set_ok Sample.est Sample.fields
    Sample.params true []
  = (Ok Sample.est,
     [CopyEstimator string Sample.est; LockAcquire string;
      SetParams string Sample.est Sample.params_dict; LockRelease string])
  ∧ Sample.fit_fails Sample.est (Some Sample.X) Sample.y (or_empty None)
    = Raise (Fault "fit failed")
  ∧ fit string Sample.clone_ok Sample.set_ok Sample.fit_fails
      (Val Sample.est) (Val (Some Sample.X)) Sample.y ErrorRaise
      Sample.fields Sample.params None []
    = (Raise (Fault "fit failed"),
       [CopyEstimator string Sample.est; LockAcquire string;
        SetParams string Sample.est Sample.params_dict; LockRelease string]
       ++ [Fit string Sample.est (Some Sample.X) Sample.y (or_empty None)])
  ∧ fit string Sample.clone_ok Sample.set_ok Sample.fit_fails
      (Val Sample.est) (Val (Some Sample.X)) Sample.y (ErrorScore F64.zero)
      Sample.fields Sample.params None []
    = (Ok FIT_FAILURE,
       [CopyEstimator string Sample.est; LockAcquire string;
        SetParams string Sample.est Sample.params_dict; LockRelease string]
       ++ [Fit string Sample.est (Some Sample.X) Sample.y (or_empty None)]
       ++ [FitFailedWarning string F64.zero (Fault "fit failed")]).
Proof.
  assert (set_params string Sample.clone_ok Sample.set_ok Sample.est
            Sample.fields Sample.params true []
          = (Ok Sample.est,
             [CopyEstimator string Sample.est; LockAcquire string;
              SetParams string Sample.est Sample.params_dict;
              LockRelease string])) as Hset by reflexivity.
  assert (Sample.fit_fails Sample.est (Some Sample.X) Sample.y (or_empty None)
          = Raise (Fault "fit failed")) as Hfit by reflexivity.
  destruct (fit_short_circuits_and_applies_error_policy
              Sample.clone_ok Sample.set_ok Sample.fit_fails
              Sample.est (Some Sample.X) Sample.y Sample.fields Sample.params
              None []) as (_ & _ & Hfault).
  destruct (Hfault _ _ _ Hset Hfit) as [Hraise Hwarn].
  split; [exact Hset|]. split; [exact Hfit|]. split; [exact Hraise|].
  exact (Hwarn F64.zero).
Defined.

Lemma parameter_application_fault_is_caught_witness :
  Sample.clone_fails Sample.est = Raise (Fault "cannot clone")
  ∧ fit string Sample.clone_fails Sample.set_ok Sample.fit_fails
      (Val Sample.est) (Val (Some Sample.X)) Sample.y (ErrorScore F64.zero)
      Sample.fields Sample.params None []
    = (Ok FIT_FAILURE,
       ([] ++ [CopyEstimator string Sample.est])
       ++ [FitFailedWarning string F64.zero (Fault "cannot clone")])
  ∧ Sample.clone_ok Sample.est = Ok Sample.est
  ∧ Sample.set_fails Sample.est Sample.params_dict
    = Raise (ValueError "Invalid parameter")
  ∧ fit_transform string Sample.clone_ok Sample.set_fails Sample.fit_fails
      Sample.no_fit_transform Sample.fit_transform_fails
      Sample.transform_fails
      (Val Sample.est) (Val (Some Sample.X)) Sample.y (ErrorScore F64.zero)
      (Some ["C"]) (Some [Given (PyInt 10)]) None []
    = (Ok (FIT_FAILURE, FIT_FAILURE),
       ([] ++ [CopyEstimator string Sample.est] ++ [LockAcquire string]
           ++ [SetParams string Sample.est Sample.params_dict]
           ++ [LockRelease string])
       ++ [FitFailedWarning string F64.zero
             (ValueError "Invalid parameter")]).
Proof.
  assert (Sample.clone_fails Sample.est = Raise (Fault "cannot clone"))
    as Hclone by reflexivity.
  assert (Sample.clone_ok Sample.est = Ok Sample.est) as Hok by reflexivity.
  assert (Sample.set_fails Sample.est
            (dict_of_pairs (given_pairs ["C"] [Given (PyInt 10)]))
          = Raise (ValueError "Invalid parameter")) as Hset by reflexivity.
  split; [exact Hclone|].
  split.
  - exact (proj1 (proj1 (parameter_application_fault_is_caught
             Sample.clone_fails Sample.set_ok Sample.fit_fails
             Sample.no_fit_transform Sample.fit_transform_fails
             Sample.transform_fails
             Sample.est (Some Sample.X) Sample.y F64.zero None []
             (Fault "cannot clone")) Sample.fields Sample.params Hclone)).
  - split; [exact Hok|]. split; [exact Hset|].
    exact (proj2 (proj2 (parameter_application_fault_is_caught
             Sample.clone_ok Sample.set_fails Sample.fit_fails
             Sample.no_fit_transform Sample.fit_transform_fails
             Sample.transform_fails
             Sample.est (Some Sample.X) Sample.y F64.zero None []
             (ValueError "Invalid parameter"))
             Sample.est ["C"] [Given (PyInt 10)] Hok Hset)).
Defined.

(* ===================================================================== *)
(** * Further properties                                                  *)
(* ===================================================================== *)

(** ** More on the fold cache *)

Lemma memoized_other_keys k compute w r w' k0 :
  keeps_self compute →
  memoized k compute w = (r, w') →
  k0 ≠ k →
  cache_lookup k0 w' = cache_lookup k0 w.
Proof.
  intros Hk H Hne. unfold memoized in H.
  destruct (cache_lookup k w); [now inversion H; subst|].
  destruct (compute w) as [[v|e] w1] eqn:Hc; apply Hk in Hc;
    inversion H; subst; clear H; unfold cache_lookup; rewrite <- Hc.
  - destruct (cache (self w1)) as [c|] eqn:E; simpl; rewrite ?E; simpl;
      [|reflexivity].
    now apply lookup_insert_ne.
  - reflexivity.
Qed.

Lemma memoized_raise k compute w e w' :
  keeps_self compute →
  memoized k compute w = (Raise e, w') →
  self w' = self w.
Proof.
  intros Hk H. unfold memoized in H.
  destruct (cache_lookup k w); [discriminate|].
  destruct (compute w) as [[v|e'] w1] eqn:Hc; [discriminate|].
  apply Hk in Hc. now inversion H; subst.
Qed.

Lemma memoized_miss k compute w r w1 :
  cache_lookup k w = None →
  compute w = (Ok r, w1) →
  self w1 = self w →
  memoized k compute w =
    (Ok r, match cache (self w) with
           | Some c => set_cache (Some (<[k := r]> c)) w1
           | None => w1
           end).
Proof.
  intros Hmiss Hc Hs. unfold memoized. now rewrite Hmiss, Hc, Hs.
Qed.

Lemma memoized_miss_raise k compute w e w1 :
  cache_lookup k w = None →
  compute w = (Raise e, w1) →
  memoized k compute w = (Raise e, w1).
Proof.
  intros Hmiss Hc. unfold memoized. now rewrite Hmiss, Hc.
Qed.

Lemma memoized_frame k compute w r w' :
  keeps_self compute →
  memoized k compute w = (r, w') →
  splits (self w') = splits (self w)
  ∧ pairwise (self w') = pairwise (self w)
  ∧ (cache (self w') = None ↔ cache (self w) = None)
  ∧ (∀ k0, k0 ≠ k → cache_lookup k0 w' = cache_lookup k0 w).
Proof.
  intros Hk Hm.
  split; [|split; [|split]].
  - unfold memoized in Hm. destruct (cache_lookup k w); [now inversion Hm|].
    destruct (compute w) as [[v|e] w1] eqn:Hc; apply Hk in Hc;
      inversion Hm; subst; clear Hm; rewrite <- Hc; [|reflexivity].
    now destruct (cache (self w1)).
  - unfold memoized in Hm. destruct (cache_lookup k w); [now inversion Hm|].
    destruct (compute w) as [[v|e] w1] eqn:Hc; apply Hk in Hc;
      inversion Hm; subst; clear Hm; rewrite <- Hc; [|reflexivity].
    now destruct (cache (self w1)).
  - unfold memoized in Hm. destruct (cache_lookup k w); [now inversion Hm|].
    destruct (compute w) as [[v|e] w1] eqn:Hc; apply Hk in Hc;
      inversion Hm; subst; clear Hm; rewrite <- Hc; [|reflexivity].
    destruct (cache (self w1)) eqn:E; simpl; rewrite ?E; split; congruence.
  - intros k0 Hne. eapply memoized_other_keys; eauto.
Qed.

Lemma out_of_range_getitem {A} (l : list A) (n : Z) :
  out_of_range (length l) n → py_getitem l n = Raise IndexError.
Proof.
  unfold out_of_range, py_getitem. intros H.
  destruct (Z.ltb_spec n 0).
  - destruct (Z.leb_spec 0 (n + Z.of_nat (length l))); [|reflexivity].
    destruct (Z.ltb_spec (n + Z.of_nat (length l)) (Z.of_nat (length l)));
      simpl; [lia | reflexivity].
  - destruct (Z.leb_spec 0 n); [|reflexivity].
    destruct (Z.ltb_spec n (Z.of_nat (length l))); simpl; [lia | reflexivity].
Qed.

Section FoldCacheMore.
Variable safe_indexing : option container → index_set → result container.
Variable _is_arraylike : container → bool.

Local Abbreviation extract' := (extract safe_indexing).
Local Abbreviation extract_param' :=
  (extract_param safe_indexing _is_arraylike).
Local Abbreviation run_call' := (run_call safe_indexing _is_arraylike).
Local Abbreviation run_calls'' := (run_calls safe_indexing _is_arraylike).
Local Abbreviation cv_extract_params' :=
  (cv_extract_params safe_indexing _is_arraylike).

Lemma extract_plain_compute (w : world) X y n is_x is_train :
  (is_x = true → pairwise (self w) = false) →
  chosen_compute safe_indexing (pairwise (self w)) X y n is_x is_train
  = compute_extract safe_indexing X y n is_x is_train.
Proof.
  intros Hpw. unfold chosen_compute. destruct is_x; [|reflexivity].
  now rewrite (Hpw eq_refl).
Qed.

Lemma extract_with_labels {B} (y : option container) is_x
    (a b : B) :
  (is_x = false → y ≠ None) →
  (if is_x then a else match y with Some _ => a | None => b end) = a.
Proof.
  intros Hy. destruct is_x; [reflexivity|].
  destruct y; [reflexivity|]. now destruct (Hy eq_refl).
Qed.

(** X1. Outside pairwise mode (and for the labels in any mode), when
    nothing is cached under the key, because the slot was not extracted
    yet or because memoization is disabled, [extract] selects from [X]
    (features) or [y] (labels) the rows of the train or of the test index
    set of fold [n]. It performs exactly one [safe_indexing], and stores
    the result under its key when memoization is enabled. *)
Theorem extract_selects_rows_on_miss :
  ∀ (w : world) X (y : option container) n is_x is_train train test r,
    (is_x = true → pairwise (self w) = false) →
    (is_x = false → y ≠ None) →
    cache_lookup (slot_key n is_x is_train) w = None →
    py_getitem (splits (self w)) n = Ok (train, test) →
    safe_indexing (if is_x then Some X else y)
      (if is_train then train else test) = Ok r →
    ∃ w',
      extract' X y n is_x is_train w = (Ok (Some r), w')
      ∧ extractions w' =
          extractions w
          ++ [SafeIndexing (if is_x then Some X else y)
                (if is_train then train else test)]
      ∧ splits (self w') = splits (self w)
      ∧ pairwise (self w') = pairwise (self w)
      ∧ cache (self w') =
          (λ c, <[slot_key n is_x is_train := r]> c) <$> cache (self w).
Proof.
  intros w X y n is_x is_train train test r Hpw Hy Hmiss Hsplit Hsel.
  rewrite extract_as_memoized, (extract_plain_compute _ _ _ _ _ _ Hpw).
  assert (compute_extract safe_indexing X y n is_x is_train w
          = (Ok r, log_probe
                     (SafeIndexing (if is_x then Some X else y)
                        (if is_train then train else test)) w)) as Hc.
  { unfold compute_extract, call_safe_indexing, bind, gets, lift, modify.
    rewrite Hsplit. cbn [fst snd]. now rewrite Hsel. }
  rewrite (memoized_miss _ _ _ _ _ Hmiss Hc eq_refl).
  rewrite (extract_with_labels _ _ _ _ Hy).
  eexists. split; [reflexivity|].
  destruct (cache (self w)) as [c|] eqn:E; simpl; rewrite ?E;
    repeat apply conj; reflexivity.
Qed.

Lemma run_call_frame w c :
  splits (self (run_call' w c)) = splits (self w)
  ∧ pairwise (self (run_call' w c)) = pairwise (self w)
  ∧ (cache (self (run_call' w c)) = None ↔ cache (self w) = None)
  ∧ (∀ k, k ≠ call_key c →
          cache_lookup k (run_call' w c) = cache_lookup k w).
Proof.
  destruct c as [X y n is_x is_train | key x n]; simpl.
  - rewrite extract_as_memoized.
    destruct (memoized (slot_key n is_x is_train)
                (chosen_compute safe_indexing (pairwise (self w)) X y n is_x
                   is_train) w) as [r0 w0] eqn:Hm.
    pose proof (memoized_frame _ _ _ _ _
                  (chosen_compute_keeps_self _ _ _ _ _ _ _) Hm) as Hf.
    destruct is_x, y, r0; simpl; try exact Hf;
      repeat apply conj; tauto.
  - rewrite extract_param_memoized.
    destruct (memoized _ _ w) as [r0 w0] eqn:Hm. simpl.
    exact (memoized_frame _ _ _ _ _ (compute_param_keeps_self _ _ _ _) Hm).
Qed.

(** X2. Whatever calls of [extract] and [extract_param] reach a cache,
    they never change its folds, its pairwise flag or whether it
    memoizes, so [cv_n_samples] answers the same before and after; and
    the entries under the keys that none of the calls uses stay as they
    are (absent ones stay absent). *)
Theorem cache_calls_touch_their_keys_only :
  ∀ (calls : list cache_call) (w : world),
    let w' := run_calls'' calls w in
    splits (self w') = splits (self w)
    ∧ pairwise (self w') = pairwise (self w)
    ∧ (cache (self w') = None ↔ cache (self w) = None)
    ∧ fst (cv_n_samples w') = fst (cv_n_samples w)
    ∧ ∀ k, Forall (λ c, call_key c ≠ k) calls →
           cache_lookup k w' = cache_lookup k w.
Proof.
  intros calls. induction calls as [|c calls IH]; intros w; simpl.
  - repeat apply conj; tauto.
  - destruct (IH (run_call' w c)) as (Hs & Hp & Hc & Hn & Hk).
    destruct (run_call_frame w c) as (Hs1 & Hp1 & Hc1 & Hk1).
    unfold run_calls in *. simpl in *.
    split; [congruence|]. split; [congruence|]. split; [tauto|].
    split.
    + unfold cv_n_samples, gets, num_test_samples in *. simpl in *.
      congruence.
    + intros k HF. inversion HF as [|? ? Hne HF']; subst.
      rewrite (Hk k HF'). apply Hk1. congruence.
Qed.

(** X3. A fold index out of range, from the front or from the end,
    makes [extract] raise [IndexError] outside pairwise mode; no
    extraction is attempted and the cache is left as it was. *)
Theorem extract_fold_out_of_range :
  ∀ (w : world) X (y : option container) n is_x is_train,
    (is_x = true → pairwise (self w) = false) →
    (is_x = false → y ≠ None) →
    cache_lookup (slot_key n is_x is_train) w = None →
    out_of_range (length (splits (self w))) n →
    extract' X y n is_x is_train w = (Raise IndexError, w).
Proof.
  intros w X y n is_x is_train Hpw Hy Hmiss Hout.
  rewrite extract_as_memoized, (extract_plain_compute _ _ _ _ _ _ Hpw).
  assert (compute_extract safe_indexing X y n is_x is_train w
          = (Raise IndexError, w)) as Hc.
  { unfold compute_extract, bind, gets, lift.
    now rewrite (out_of_range_getitem _ _ Hout). }
  rewrite (memoized_miss_raise _ _ _ _ _ Hmiss Hc).
  now rewrite (extract_with_labels _ _ _ _ Hy).
Qed.

(** X4. When [extract] or [extract_param] raises, the cache object is
    exactly as before the call: a failed extraction stores nothing. *)
Theorem failed_call_stores_nothing :
  ∀ (w w' : world) (e : exn),
    (∃ X y n is_x is_train,
        extract' X y n is_x is_train w = (Raise e, w'))
    ∨ (∃ key x n, extract_param' key x n w = (Raise e, w')) →
    self w' = self w.
Proof.
  intros w w' e [(X & y & n & is_x & is_train & H) | (key & x & n & H)].
  - rewrite extract_as_memoized in H.
    destruct (memoized (slot_key n is_x is_train)
                (chosen_compute safe_indexing (pairwise (self w)) X y n is_x
                   is_train) w) as [r0 w0] eqn:Hm.
    assert (r0 = Raise e ∧ w0 = w') as [-> ->].
    { destruct is_x, y; simpl in H; try discriminate;
        destruct r0; inversion H; subst; split; congruence. }
    eapply memoized_raise; eauto using chosen_compute_keeps_self.
  - rewrite extract_param_memoized in H.
    eapply memoized_raise; eauto using compute_param_keeps_self.
Qed.

(** X5. [extract_param] returns a fit parameter that is not array-like
    as it is, for every fold index, even one out of range, and without
    any extraction. With memoization enabled the value is then stored
    under the fold and the token, and a later call with this fold and
    token returns it whatever parameter is passed. *)
Theorem extract_param_passes_scalars_through :
  ∀ (w : world) key x n,
    cache_lookup (param_key n key) w = None →
    _is_arraylike x = false →
    ∃ w',
      extract_param' key x n w = (Ok x, w')
      ∧ extractions w' = extractions w
      ∧ cache (self w') = (λ c, <[param_key n key := x]> c) <$> cache (self w)
      ∧ (cache (self w) ≠ None →
         ∀ x', extract_param' key x' n w' = (Ok x, w')).
Proof.
  intros w key x n Hmiss Hna. rewrite extract_param_memoized.
  assert (compute_param safe_indexing _is_arraylike x n w = (Ok x, w))
    as Hc by (unfold compute_param; now rewrite Hna).
  rewrite (memoized_miss _ _ _ _ _ Hmiss Hc eq_refl).
  eexists. split; [reflexivity|].
  destruct (cache (self w)) as [c|] eqn:E.
  - repeat apply conj; try reflexivity.
    intros _ x'. rewrite extract_param_memoized. apply memoized_hit.
    rewrite cache_lookup_set_cache. apply lookup_insert_eq.
  - repeat apply conj; try (simpl; now rewrite ?E); congruence.
Qed.

(** X6. For an array-like fit parameter that is not cached,
    [extract_param] selects the rows of the train index set of fold [n],
    never those of the test set; it performs one [safe_indexing]. *)
Theorem extract_param_selects_train_rows :
  ∀ (w : world) key x n train test r,
    cache_lookup (param_key n key) w = None →
    _is_arraylike x = true →
    py_getitem (splits (self w)) n = Ok (train, test) →
    safe_indexing (Some x) train = Ok r →
    ∃ w',
      extract_param' key x n w = (Ok r, w')
      ∧ extractions w' = extractions w ++ [SafeIndexing (Some x) train]
      ∧ cache (self w') = (λ c, <[param_key n key := r]> c) <$> cache (self w).
Proof.
  intros w key x n train test r Hmiss Ha Hsplit Hsel.
  rewrite extract_param_memoized.
  assert (compute_param safe_indexing _is_arraylike x n w
          = (Ok r, log_probe (SafeIndexing (Some x) train) w)) as Hc.
  { unfold compute_param, call_safe_indexing, bind, gets, lift, modify.
    rewrite Ha, Hsplit. cbn [fst]. now rewrite Hsel. }
  rewrite (memoized_miss _ _ _ _ _ Hmiss Hc eq_refl).
  eexists. split; [reflexivity|].
  destruct (cache (self w)) eqn:E; simpl; rewrite ?E; split; reflexivity.
Qed.
End FoldCacheMore.

(** X7. Pickling keeps the folds, the pairwise flag and whether the
    cache memoizes, and nothing else: the rebuilt cache has no entry.
    Reducing what was rebuilt from constructor arguments gives these
    arguments back. *)
Theorem reduce_keeps_no_entries :
  (∀ args, CVCache_reduce (CVCache_rebuild args) = args)
  ∧ (∀ self0,
        let self1 := CVCache_rebuild (CVCache_reduce self0) in
        splits self1 = splits self0
        ∧ pairwise self1 = pairwise self0
        ∧ (cache self1 = None ↔ cache self0 = None)
        ∧ num_test_samples self1 = num_test_samples self0
        ∧ ∀ (extractions0 : list probe) k,
            cache_lookup k (mkWorld self1 extractions0) = None).
Proof.
  split.
  - intros [[s p] c]. unfold CVCache_rebuild, CVCache_reduce, CVCache_init.
    cbn [fst snd splits pairwise cache]. destruct c.
    + now rewrite bool_decide_eq_true_2 by discriminate.
    + now rewrite bool_decide_eq_false_2 by (intros H; now apply H).
  - intros [s p c]. unfold CVCache_rebuild, CVCache_reduce, CVCache_init.
    cbn [fst snd splits pairwise cache]. destruct c as [c|].
    + rewrite bool_decide_eq_true_2 by discriminate.
      repeat apply conj; try reflexivity; try discriminate.
    + rewrite bool_decide_eq_false_2 by (intros H; now apply H).
      repeat apply conj; reflexivity.
Qed.

Section FoldCacheMore2.
Variable safe_indexing : option container → index_set → result container.
Variable _is_arraylike : container → bool.
Local Abbreviation extract_param' :=
  (extract_param safe_indexing _is_arraylike).
Local Abbreviation cv_extract_params' :=
  (cv_extract_params safe_indexing _is_arraylike).

(** What [extract_param] computes for [v] on the folds [sp]. *)
Local Abbreviation param_output sp n :=
  (λ (v out : container),
     if _is_arraylike v then
       ∃ train test, py_getitem sp n = Ok (train, test)
                     ∧ safe_indexing (Some v) train = Ok out
     else out = v).

Lemma compute_param_output (w : world) n v out :
  param_output (splits (self w)) n v out →
  ∃ w1, compute_param safe_indexing _is_arraylike v n w = (Ok out, w1)
        ∧ self w1 = self w.
Proof.
  unfold compute_param. destruct (_is_arraylike v).
  - intros (train & test & Hsplit & Hsel).
    unfold call_safe_indexing, bind, gets, lift, modify.
    rewrite Hsplit. cbn [fst]. rewrite Hsel. eexists. split; reflexivity.
  - intros ->. eexists. split; reflexivity.
Qed.

Lemma cv_extract_params_loop_outputs kvs :
  ∀ outs acc n (w : world),
    Forall2 (param_output (splits (self w)) n) (map snd kvs) outs →
    cache (self w) = None ∨ NoDup (map (λ kv, snd (fst kv)) kvs) →
    Forall (λ kv, cache_lookup (param_key n (snd (fst kv))) w = None) kvs →
    ∃ w',
      cv_extract_params_loop safe_indexing _is_arraylike kvs n acc w
      = (Ok (foldl (λ m kv, <[kv.1 := kv.2]> m) acc
               (zip (map (λ kv, fst (fst kv)) kvs) outs)), w')
      ∧ splits (self w') = splits (self w).
Proof.
  induction kvs as [|[[k tok] v] kvs IH]; intros outs acc n w HF Hd Hmiss.
  - apply Forall2_nil_inv_l in HF as ->. eexists. split; reflexivity.
  - apply Forall2_cons_inv_l in HF as (out & outs' & Hout & HF & ->).
    apply Forall_cons in Hmiss as [Hm0 Hmiss]. cbn [fst snd] in Hm0, Hout.
    destruct (compute_param_output _ _ _ _ Hout) as (w1 & Hc & Hs1).
    pose proof (memoized_miss _ _ _ _ _ Hm0 Hc Hs1) as Hrun.
    rewrite <- extract_param_memoized in Hrun.
    pose proof Hrun as Hfr. rewrite extract_param_memoized in Hfr.
    apply memoized_frame in Hfr as (Hsp & _ & Hen & Hother);
      [|apply compute_param_keeps_self].
    match type of Hrun with _ = (_, ?x) => set (w2 := x) in * end.
    destruct (IH outs' (<[k := out]> acc) n w2) as (w' & Hloop & Hsp').
    + now rewrite Hsp.
    + destruct Hd as [Hd|Hd]; [left; now apply Hen | right].
      now apply NoDup_cons in Hd as [_ Hd].
    + destruct Hd as [Hd|Hd].
      * apply Forall_forall. intros kv _. unfold cache_lookup.
        now rewrite (proj2 Hen Hd).
      * apply NoDup_cons in Hd as [Hnin Hd].
        rewrite Forall_forall in Hmiss. apply Forall_forall.
        intros kv Hin. rewrite Hother; [now apply Hmiss|].
        intros Heq. apply Hnin. unfold param_key in Heq.
        injection Heq as Heq. rewrite <- Heq.
        apply list_elem_of_In. apply list_elem_of_In in Hin.
        exact (in_map (λ kv : string * string * container, snd (fst kv))
                 _ _ Hin).
    + exists w'. split; [|congruence].
      cbn [cv_extract_params_loop]. unfold bind at 1.
      rewrite Hrun. exact Hloop.
Qed.

(** X8. [cv_extract_params] maps every name of [zip(keys, vals)] to what
    [extract_param] computes for its value: the value itself when it is
    not array-like, its train rows of fold [n] otherwise; the last
    occurrence of a name wins. This holds on a cache without
    memoization, and on a memoizing one when the tokens differ and none
    of them is cached for the fold. *)
Theorem cv_extract_params_outputs :
  ∀ (w : world) keys vals outs n,
    Forall2 (param_output (splits (self w)) n) vals outs →
    length keys = length vals →
    cache (self w) = None ∨ NoDup (map snd keys) →
    Forall (λ key, cache_lookup (param_key n (snd key)) w = None) keys →
    ∃ w',
      cv_extract_params' keys vals n w = (Ok (params_dict_of keys outs), w')
      ∧ splits (self w') = splits (self w).
Proof.
  intros w keys vals outs n HF Hlen Hd Hmiss.
  unfold cv_extract_params, params_dict_of, dict_of_pairs.
  assert (fst <$> zip keys vals = keys) as Hfst
    by (apply fst_zip; unfold zip; lia).
  assert (snd <$> zip keys vals = vals) as Hsnd
    by (apply snd_zip; unfold zip; lia).
  assert (∀ f : string * string → string,
            map (λ kv : string * string * container, f (fst kv))
              (zip keys vals) = map f keys) as Hmap.
  { intros f. rewrite <- Hfst at 2.
    change (map f (fst <$> zip keys vals))
      with (f <$> (fst <$> zip keys vals)).
    now rewrite <- list_fmap_compose. }
  destruct (cv_extract_params_loop_outputs (zip keys vals) outs ∅ n w)
    as (w' & Hloop & Hsp).
  - change (map snd (zip keys vals)) with (snd <$> zip keys vals).
    now rewrite Hsnd.
  - destruct Hd as [Hd|Hd]; [now left | right]. now rewrite (Hmap snd).
  - apply Forall_forall. intros kv Hin. rewrite Forall_forall in Hmiss.
    apply Hmiss. rewrite <- Hfst. apply list_elem_of_fmap. now exists kv.
  - exists w'. split; [|exact Hsp]. rewrite Hloop. now rewrite (Hmap fst).
Qed.
End FoldCacheMore2.

(** X27. [cv_n_samples] reports one number for each fold and leaves the
    cache alone; the number of fold [n] is the number of rows that the
    test index set of the fold selects, for a sequence of positions and
    for a boolean mask alike. *)
Theorem cv_n_samples_counts_test_rows :
  ∀ (w : world) (n : nat) train test m ps,
    splits (self w) !! n = Some (train, test) →
    ix_positions m test = Ok ps →
    ∃ counts,
      cv_n_samples w = (Ok counts, w)
      ∧ length counts = length (splits (self w))
      ∧ counts !! n = Some (length ps).
Proof.
  intros w n train test m ps Hn Hps.
  exists (num_test_samples (self w)). split; [reflexivity|].
  unfold num_test_samples. split; [apply length_map|].
  change (map ?f ?l) with (f <$> l). rewrite list_lookup_fmap, Hn. simpl.
  now rewrite (ix_positions_length _ _ _ Hps).
Qed.

Lemma warnings_app {leaf} (a b : trace leaf) :
  warnings (a ++ b) = warnings a ++ warnings b.
Proof. unfold warnings. apply omap_app. Qed.

Lemma without_lock_app {leaf} (a b : trace leaf) :
  without_lock (a ++ b) = without_lock a ++ without_lock b.
Proof. unfold without_lock. apply List.filter_app. Qed.

Section EvaluationMore.
Context {leaf : Type}.
Variable copy_estimator : estimator leaf → result (estimator leaf).
Variable est_set_params :
  estimator leaf → gmap string pyval → result (estimator leaf).
Variable est_fit :
  estimator leaf → data → data → gmap string container
  → result (estimator leaf).
Variable has_fit_transform : estimator leaf → bool.
Variable est_fit_transform :
  estimator leaf → data → data → gmap string container
  → result (estimator leaf * container).
Variable est_transform : estimator leaf → data → result container.
Variable scorer2 : estimator leaf → data → result float.
Variable scorer3 : estimator leaf → data → container → result float.

Local Abbreviation set_params' := (set_params leaf copy_estimator est_set_params).
Local Abbreviation fit' := (fit leaf copy_estimator est_set_params est_fit).
Local Abbreviation fit_transform' :=
  (fit_transform leaf copy_estimator est_set_params est_fit
     has_fit_transform est_fit_transform est_transform).
Local Abbreviation score' := (score leaf scorer2 scorer3).
Local Abbreviation fit_best' :=
  (fit_best leaf copy_estimator est_set_params est_fit).

(** X9. [set_params] copies the estimator before it takes
    [SET_PARAMS_LOCK], and [est.set_params] is the one call made under
    the lock: on the copy when [copy] is true, never on the estimator
    that was passed in. The lock is released on every exit, also when
    [est.set_params] raises, and it is not taken at all when [fields] is
    [None] or the copy fails. *)
Theorem set_params_lock_discipline :
  ∀ (est : estimator leaf) fields params (copy : bool) (t t' : trace leaf) r,
    set_params' est fields params copy t = (r, t') →
    ∃ locked,
      t' = t ++ (if copy then [CopyEstimator leaf est] else []) ++ locked
      ∧ (locked = []
         ∨ ∃ est1 ps,
             locked = [LockAcquire leaf; SetParams leaf est1 ps;
                       LockRelease leaf]
             ∧ (if copy then copy_estimator est = Ok est1 else est1 = est)
             ∧ r = est_set_params est1 ps
             ∧ ∃ fs ps0, fields = Some fs ∧ params = Some ps0
                         ∧ ps = dict_of_pairs (given_pairs fs ps0))
      ∧ (fields = None → locked = [])
      ∧ (∀ e, copy = true → copy_estimator est = Raise e → locked = []).
Proof.
  intros est fields params copy t t' r H.
  unfold set_params, with_SET_PARAMS_LOCK, call, emit, bind, modify, lift,
    ret, raise in H.
  destruct copy; simpl in H.
  - destruct (copy_estimator est) as [est1|e] eqn:Hc.
    + destruct fields as [fs|]; [destruct params as [ps|]|].
      * destruct (est_set_params est1 (dict_of_pairs (given_pairs fs ps)))
          eqn:Hs; inversion H; subst; clear H;
          (eexists; split; [now rewrite <- !app_assoc|]);
          (split; [right; eexists _, _; repeat apply conj;
                   [reflexivity | reflexivity | now rewrite Hs
                   | eexists _, _; repeat apply conj; reflexivity]
                  | split; [discriminate | discriminate]]).
      * inversion H; subst. exists []. rewrite app_nil_r.
        repeat apply conj; auto; discriminate.
      * inversion H; subst. exists []. rewrite app_nil_r.
        repeat apply conj; auto; discriminate.
    + inversion H; subst. exists []. rewrite app_nil_r.
      repeat apply conj; auto.
  - destruct fields as [fs|]; [destruct params as [ps|]|].
    + destruct (est_set_params est (dict_of_pairs (given_pairs fs ps)))
        eqn:Hs; inversion H; subst; clear H;
        (eexists; split; [now rewrite <- !app_assoc|]);
        (split; [right; eexists _, _; repeat apply conj;
                 [reflexivity | reflexivity | now rewrite Hs
                 | eexists _, _; repeat apply conj; reflexivity]
                | split; [discriminate | discriminate]]).
    + inversion H; subst. exists []. rewrite app_nil_r.
      repeat apply conj; auto; discriminate.
    + inversion H; subst. exists []. rewrite app_nil_r.
      repeat apply conj; auto; discriminate.
Qed.


Lemma set_params_trace est fields params copy (t : trace leaf) :
  ∃ evs, snd (set_params' est fields params copy t) = t ++ evs
         ∧ warnings evs = [].
Proof.
  unfold set_params, with_SET_PARAMS_LOCK, call, emit, bind, modify, lift,
    ret, raise.
  destruct copy; simpl.
  - destruct (copy_estimator est) as [est1|e]; simpl.
    + destruct fields as [fs|]; [destruct params as [ps|]|]; simpl.
      * destruct (est_set_params est1 (dict_of_pairs (given_pairs fs ps)));
          simpl;
          exists [CopyEstimator leaf est; LockAcquire leaf;
                  SetParams leaf est1 (dict_of_pairs (given_pairs fs ps));
                  LockRelease leaf];
          rewrite <- !app_assoc; split; reflexivity.
      * exists [CopyEstimator leaf est]. split; reflexivity.
      * exists [CopyEstimator leaf est]. split; reflexivity.
    + exists [CopyEstimator leaf est]. split; reflexivity.
  - destruct fields as [fs|]; [destruct params as [ps|]|]; simpl.
    + destruct (est_set_params est (dict_of_pairs (given_pairs fs ps)));
        simpl;
        exists [LockAcquire leaf;
                SetParams leaf est (dict_of_pairs (given_pairs fs ps));
                LockRelease leaf];
        rewrite <- !app_assoc; split; reflexivity.
    + exists []. rewrite app_nil_r. split; reflexivity.
    + exists []. rewrite app_nil_r. split; reflexivity.
Qed.

(** X10. Under a numeric error score [fit] never raises. On a model and
    data that are not [FIT_FAILURE] it returns either the fitted
    estimator, without any warning, or [FIT_FAILURE] right after one
    [FitFailedWarning] that carries the error score; on a [FIT_FAILURE]
    input it returns [FIT_FAILURE] and adds nothing to the trace. *)
Theorem fit_numeric_error_score_never_raises :
  ∀ (est : fitted (estimator leaf)) (X : fitted data) (y : data) (v : float)
    fields params fit_params (t : trace leaf),
    ∃ f evs,
      fit' est X y (ErrorScore v) fields params fit_params t
      = (Ok f, t ++ evs)
      ∧ match est, X with
        | Val _, Val _ =>
            (is_FIT_FAILURE f = false ∧ warnings evs = [])
            ∨ (∃ e, f = FIT_FAILURE ∧ warnings evs = [(v, e)]
                    ∧ last evs = Some (FitFailedWarning leaf v e))
        | _, _ => f = FIT_FAILURE ∧ evs = []
        end.
Proof.
  intros [|est] [|X] y v fields params fit_params t;
    try (exists FIT_FAILURE, []; rewrite app_nil_r; now split).
  unfold fit, try_except, bind.
  destruct (set_params_trace est fields params true t) as (evs0 & Ht & Hw).
  destruct (set_params' est fields params true t) as [[est1|e] t1];
    simpl in Ht; subst t1.
  - unfold call, emit, bind, modify, lift. simpl.
    destruct (est_fit est1 X y (or_empty fit_params)) as [est2|e]; simpl.
    + eexists _, _. rewrite <- app_assoc. split; [reflexivity|]. left.
      split; [reflexivity|]. now rewrite warnings_app, Hw.
    + eexists _, _. rewrite <- !app_assoc. split; [reflexivity|]. right.
      exists e. split; [reflexivity|]. split.
      * now rewrite warnings_app, Hw.
      * rewrite app_assoc. apply last_snoc.
  - simpl. eexists _, _. rewrite <- app_assoc. split; [reflexivity|]. right.
    exists e. split; [reflexivity|]. split.
    + now rewrite warnings_app, Hw.
    + apply last_snoc.
Qed.

(** X11. [fit_transform] returns a fitted estimator together with its
    transformed data, or [FIT_FAILURE] for both: never one without the
    other. Under a numeric error score it never raises, and a failure on
    inputs that are not [FIT_FAILURE] comes right after one
    [FitFailedWarning] that carries the error score. *)
Theorem fit_transform_fails_jointly :
  ∀ (est : fitted (estimator leaf)) (X : fitted data) (y : data)
    fields params fit_params (t : trace leaf),
    (∀ error_score f Xt t',
        fit_transform' est X y error_score fields params fit_params t
        = (Ok (f, Xt), t') →
        is_FIT_FAILURE f = is_FIT_FAILURE Xt)
    ∧ ∀ v, ∃ f Xt evs,
        fit_transform' est X y (ErrorScore v) fields params fit_params t
        = (Ok (f, Xt), t ++ evs)
        ∧ match est, X with
          | Val _, Val _ =>
              (is_FIT_FAILURE f = false ∧ warnings evs = [])
              ∨ (∃ e, f = FIT_FAILURE ∧ warnings evs = [(v, e)]
                      ∧ last evs = Some (FitFailedWarning leaf v e))
          | _, _ => f = FIT_FAILURE ∧ evs = []
          end.
Proof.
  intros est X y fields params fit_params t. split.
  - intros error_score f Xt t' H.
    destruct est as [|est], X as [|X]; try (now inversion H).
    unfold fit_transform, try_except, bind, call, emit, modify, lift, ret,
      raise, warn_fit_failure in H.
    destruct (set_params' est fields params true t) as [[est1|e] t1];
      simpl in H.
    + destruct (has_fit_transform est1); simpl in H.
      * destruct (est_fit_transform est1 X y (or_empty fit_params));
          simpl in H; [now inversion H|].
        destruct error_score; simpl in H; now inversion H.
      * destruct (est_fit est1 X y (or_empty fit_params)) as [est2|];
          simpl in H.
        -- destruct (est_transform est2 X); simpl in H; [now inversion H|].
           destruct error_score; simpl in H; now inversion H.
        -- destruct error_score; simpl in H; now inversion H.
    + destruct error_score; simpl in H; now inversion H.
  - intros v. destruct est as [|est], X as [|X];
      try (exists FIT_FAILURE, FIT_FAILURE, []; rewrite app_nil_r; now split).
    unfold fit_transform, try_except, bind.
    destruct (set_params_trace est fields params true t) as (evs0 & Ht & Hw).
    destruct (set_params' est fields params true t) as [[est1|e] t1];
      simpl in Ht; subst t1.
    + unfold call, emit, bind, modify, lift, ret, warn_fit_failure.
      destruct (has_fit_transform est1); simpl.
      * destruct (est_fit_transform est1 X y (or_empty fit_params))
          as [[est2 Xt]|e]; simpl.
        -- eexists _, _, _. rewrite <- app_assoc. split; [reflexivity|].
           left. split; [reflexivity|]. now rewrite warnings_app, Hw.
        -- eexists _, _, _. rewrite <- !app_assoc. split; [reflexivity|].
           right. exists e. split; [reflexivity|]. split.
           ++ now rewrite warnings_app, Hw.
           ++ rewrite app_assoc. apply last_snoc.
      * destruct (est_fit est1 X y (or_empty fit_params)) as [est2|e];
          simpl.
        -- destruct (est_transform est2 X) as [Xt|e]; simpl.
           ++ eexists _, _, _. rewrite <- !app_assoc.
              split; [reflexivity|].
              left. split; [reflexivity|]. now rewrite warnings_app, Hw.
           ++ eexists _, _, _. rewrite <- !app_assoc.
              split; [reflexivity|].
              right. exists e. split; [reflexivity|]. split.
              ** now rewrite warnings_app, Hw.
              ** rewrite !app_assoc. apply last_snoc.
        -- eexists _, _, _. rewrite <- !app_assoc. split; [reflexivity|].
           right. exists e. split; [reflexivity|]. split.
           ++ now rewrite warnings_app, Hw.
           ++ rewrite app_assoc. apply last_snoc.
    + simpl. eexists _, _, _. rewrite <- app_assoc. split; [reflexivity|].
      right. exists e. split; [reflexivity|]. split.
      * now rewrite warnings_app, Hw.
      * apply last_snoc.
Qed.


(** X12. Under ['raise'], [fit] and [fit_transform] never warn, and they
    return [FIT_FAILURE] only when the model or the data they were given
    is [FIT_FAILURE] already. *)
Theorem raise_policy_never_warns :
  ∀ (est : fitted (estimator leaf)) (X : fitted data) (y : data)
    fields params fit_params (t : trace leaf),
    (∃ evs,
        snd (fit' est X y ErrorRaise fields params fit_params t) = t ++ evs
        ∧ warnings evs = []
        ∧ (fst (fit' est X y ErrorRaise fields params fit_params t)
           = Ok FIT_FAILURE →
           is_FIT_FAILURE est || is_FIT_FAILURE X = true))
    ∧ (∃ evs,
        snd (fit_transform' est X y ErrorRaise fields params fit_params t)
        = t ++ evs
        ∧ warnings evs = []
        ∧ (∀ f Xt,
             fst (fit_transform' est X y ErrorRaise fields params
                    fit_params t) = Ok (f, Xt) →
             is_FIT_FAILURE f || is_FIT_FAILURE Xt = true →
             is_FIT_FAILURE est || is_FIT_FAILURE X = true)).
Proof.
  intros est X y fields params fit_params t. split.
  - destruct est as [|est], X as [|X];
      try (exists []; rewrite app_nil_r; now repeat split).
    unfold fit, try_except, bind.
    destruct (set_params_trace est fields params true t) as (evs0 & Ht & Hw).
    destruct (set_params' est fields params true t) as [[est1|e] t1];
      simpl in Ht; subst t1.
    + unfold call, emit, bind, modify, lift, ret, raise. simpl.
      destruct (est_fit est1 X y (or_empty fit_params)); simpl;
        (eexists; rewrite <- ?app_assoc; split; [reflexivity|]);
        (split; [now rewrite warnings_app, Hw | discriminate]).
    + simpl. exists evs0. repeat split; [exact Hw | discriminate].
  - destruct est as [|est], X as [|X];
      try (exists []; rewrite app_nil_r; now repeat split).
    unfold fit_transform, try_except, bind.
    destruct (set_params_trace est fields params true t) as (evs0 & Ht & Hw).
    destruct (set_params' est fields params true t) as [[est1|e] t1];
      simpl in Ht; subst t1.
    + unfold call, emit, bind, modify, lift, ret, raise.
      destruct (has_fit_transform est1); simpl.
      * destruct (est_fit_transform est1 X y (or_empty fit_params)); simpl;
          (eexists; rewrite <- ?app_assoc; split; [reflexivity|]);
          (split; [now rewrite warnings_app, Hw|]);
          intros f Xt H; inversion H; subst; discriminate.
      * destruct (est_fit est1 X y (or_empty fit_params)) as [est2|];
          simpl; [destruct (est_transform est2 X); simpl|];
          (eexists; rewrite <- ?app_assoc; split; [reflexivity|]);
          (split; [now rewrite warnings_app, Hw|]);
          intros f Xt H; inversion H; subst; discriminate.
    + simpl. exists evs0. repeat split; [exact Hw | discriminate].
Qed.

(** X13. After the parameters are applied, [fit_transform] calls
    [est.fit_transform] when the estimator has it, and neither [est.fit]
    nor [est.transform] then; otherwise it calls [est.fit] and then
    [est.transform] on the fitted estimator, and a fault of
    [est.transform] falls under the error policy like a fault of the
    fit. *)
Theorem fit_transform_dispatch :
  ∀ (est0 est1 : estimator leaf) (X0 y : data) fields params fit_params
    (t t1 : trace leaf),
    set_params' est0 fields params true t = (Ok est1, t1) →
    let fp := or_empty fit_params in
    (has_fit_transform est1 = true →
     ∀ est2 Xt error_score,
       est_fit_transform est1 X0 y fp = Ok (est2, Xt) →
       fit_transform' (Val est0) (Val X0) y error_score fields params
         fit_params t
       = (Ok (Val est2, Val Xt), t1 ++ [FitTransform leaf est1 X0 y fp]))
    ∧ (has_fit_transform est1 = false →
       ∀ est2,
         est_fit est1 X0 y fp = Ok est2 →
         let t2 := t1 ++ [Fit leaf est1 X0 y fp; Transform leaf est2 X0] in
         (∀ Xt error_score,
             est_transform est2 X0 = Ok Xt →
             fit_transform' (Val est0) (Val X0) y error_score fields params
               fit_params t
             = (Ok (Val est2, Val Xt), t2))
         ∧ (∀ e,
             est_transform est2 X0 = Raise e →
             fit_transform' (Val est0) (Val X0) y ErrorRaise fields params
               fit_params t
             = (Raise e, t2)
             ∧ ∀ v,
               fit_transform' (Val est0) (Val X0) y (ErrorScore v) fields
                 params fit_params t
               = (Ok (FIT_FAILURE, FIT_FAILURE),
                  t2 ++ [FitFailedWarning leaf v e]))).
Proof.
  intros est0 est1 X0 y fields params fit_params t t1 Hset fp. split.
  - intros Hft est2 Xt error_score Hcall.
    unfold fit_transform, try_except, bind, call, emit, modify, lift.
    rewrite Hset, Hft. simpl. fold fp. now rewrite Hcall.
  - intros Hft est2 Hfit t2. split.
    + intros Xt error_score Htr.
      unfold fit_transform, try_except, bind, call, emit, modify, lift.
      rewrite Hset, Hft. simpl. fold fp. rewrite Hfit. simpl. rewrite Htr.
      unfold t2. now rewrite <- app_assoc.
    + intros e Htr. split; [|intros v];
        unfold fit_transform, try_except, bind, call, emit, modify, lift,
          warn_fit_failure, ret, raise;
        rewrite Hset, Hft; simpl; fold fp; rewrite Hfit; simpl; rewrite Htr;
        unfold t2; simpl; now rewrite <- ?app_assoc.
Qed.

(** X14. [score] on a fitted model scores the test data first, with the
    two-argument scorer call when the labels are [None]. A fault of
    that call propagates, and the train data is then never scored.
    Without train data the result is the test score alone; otherwise it
    is the pair, from a second scorer call on the train data. *)
Theorem score_calls_scorer_in_order :
  ∀ (est : estimator leaf) (X_test y_test y_train : data) (t : trace leaf),
    let scorer := λ X (y : data),
      match y with None => scorer2 est X | Some y => scorer3 est X y end in
    let t1 := t ++ [Score leaf est X_test y_test] in
    (∀ e X_train,
        scorer X_test y_test = Raise e →
        score' (Val est) X_test y_test X_train y_train t = (Raise e, t1))
    ∧ (∀ s,
        scorer X_test y_test = Ok s →
        score' (Val est) X_test y_test None y_train t
        = (Ok (Single (Val s)), t1)
        ∧ ∀ X_train,
          score' (Val est) X_test y_test (Some X_train) y_train t
          = (result_map (λ s', Pair (Val s) (Val s'))
               (scorer (Some X_train) y_train),
             t1 ++ [Score leaf est (Some X_train) y_train])).
Proof.
  intros est X_test y_test y_train t scorer t1. split.
  - intros e X_train H. unfold score, _score, bind, call, emit, modify, lift.
    simpl. fold (scorer X_test y_test). now rewrite H.
  - intros s H. split; [|intros X_train];
      unfold score, _score, bind, call, emit, modify, lift, ret; simpl;
      fold (scorer X_test y_test); rewrite H; simpl; [reflexivity|].
    fold (scorer (Some X_train) y_train).
    now destruct (scorer (Some X_train) y_train).
Qed.

(** X15. [fit_best] does what [fit] does under ['raise'] for the same
    parameters: the same calls on the collaborators in the same order,
    the same fitted estimator or the same exception, and no warning.
    But it applies the parameters without taking [SET_PARAMS_LOCK]. *)
Theorem fit_best_is_fit_without_lock :
  ∀ (est : estimator leaf) fs ps (X y : data) fit_params (t : trace leaf),
    ∃ r evs evs',
      fit_best' est (dict_of_pairs (given_pairs fs ps)) X y fit_params t
      = (r, t ++ evs)
      ∧ fit' (Val est) (Val X) y ErrorRaise (Some fs) (Some ps)
          (Some fit_params) t
        = (result_map Val r, t ++ evs')
      ∧ evs = without_lock evs'
      ∧ warnings evs = []
      ∧ List.filter is_lock_event evs = [].
Proof.
  intros est fs ps X y fit_params t.
  unfold fit_best, fit, set_params, with_SET_PARAMS_LOCK, try_except, bind,
    call, emit, modify, lift, ret, raise, or_empty. simpl.
  set (pd := dict_of_pairs (given_pairs fs ps)).
  destruct (copy_estimator est) as [est1|e]; simpl.
  - destruct (est_set_params est1 pd) as [est2|e]; simpl.
    + exists (est_fit est2 X y fit_params),
        [CopyEstimator leaf est; SetParams leaf est1 pd;
         Fit leaf est2 X y fit_params],
        [CopyEstimator leaf est; LockAcquire leaf; SetParams leaf est1 pd;
         LockRelease leaf; Fit leaf est2 X y fit_params].
      rewrite <- !app_assoc.
      destruct (est_fit est2 X y fit_params) as [est3|e]; simpl;
        unfold bind; simpl; rewrite <- ?app_assoc; repeat split.
    + exists (Raise e),
        [CopyEstimator leaf est; SetParams leaf est1 pd],
        [CopyEstimator leaf est; LockAcquire leaf; SetParams leaf est1 pd;
         LockRelease leaf].
      rewrite <- !app_assoc. repeat split.
  - exists (Raise e), [CopyEstimator leaf est], [CopyEstimator leaf est].
    repeat split.
Qed.
End EvaluationMore.

Section FitAndScoreMore.
Context {leaf : Type}.
Variable copy_estimator : estimator leaf → result (estimator leaf).
Variable est_set_params :
  estimator leaf → gmap string pyval → result (estimator leaf).
Variable est_fit :
  estimator leaf → data → data → gmap string container
  → result (estimator leaf).
Variable scorer2 : estimator leaf → data → result float.
Variable scorer3 : estimator leaf → data → container → result float.
Variable safe_indexing : option container → index_set → result container.

Local Abbreviation fit' := (fit leaf copy_estimator est_set_params est_fit).
Local Abbreviation score' := (score leaf scorer2 scorer3).
Local Abbreviation fit_and_score' :=
  (fit_and_score leaf copy_estimator est_set_params est_fit scorer2 scorer3
     safe_indexing).
Local Abbreviation extract_fold' := (extract_fold safe_indexing).

(** [fit_and_score] is the extraction of the fold, on the cache, followed
    by the fit and the scoring, on the estimator. *)
Lemma fit_and_score_phases est X y n error_score fields params fit_params
    (return_train_score : bool) (w : world) (t : trace leaf) :
  fit_and_score' est X y n error_score fields params fit_params
    return_train_score (w, t)
  = match extract_fold' X y n w with
    | (Raise e, w1) => (Raise e, (w1, t))
    | (Ok (X_train, y_train, X_test, y_test), w1) =>
        let '(r, t') :=
          (let! est := fit' est (Val X_train) y_train error_score fields
                         params fit_params in
           score' est X_test y_test
             (if return_train_score then X_train else None)
             (if return_train_score then y_train else None)) t in
        (r, (w1, t'))
    end.
Proof.
  cbv beta iota delta [fit_and_score extract_fold bind on_fst on_snd ret
                         fst snd].
  destruct (extract safe_indexing X y n true true w) as [[X_train|e] w1];
    [|reflexivity].
  destruct (extract safe_indexing X y n false true w1) as [[y_train|e] w2];
    [|reflexivity].
  destruct (extract safe_indexing X y n true false w2) as [[X_test|e] w3];
    [|reflexivity].
  destruct (extract safe_indexing X y n false false w3) as [[y_test|e] w4];
    [|reflexivity].
  destruct (fit' est (Val X_train) y_train error_score fields params
              fit_params t) as [[f|e] t1]; [|reflexivity].
  reflexivity.
Qed.

Lemma extract_features_Some X y n is_train (w w' : world) r :
  extract safe_indexing X y n true is_train w = (Ok r, w') → r ≠ None.
Proof.
  rewrite extract_as_memoized.
  destruct (memoized _ _ w) as [[a|e] w1]; simpl; intros H; inversion H;
    discriminate.
Qed.

Lemma extract_fold_train_Some X y n (w w1 : world) X_train y_train X_test
    y_test :
  extract_fold' X y n w = (Ok (X_train, y_train, X_test, y_test), w1) →
  X_train ≠ None.
Proof.
  unfold extract_fold, bind, ret.
  destruct (extract safe_indexing X y n true true w) as [[r|e] w2] eqn:H1;
    [|discriminate].
  destruct (extract safe_indexing X y n false true w2) as [[r2|e] w3];
    [|discriminate].
  destruct (extract safe_indexing X y n true false w3) as [[r3|e] w4];
    [|discriminate].
  destruct (extract safe_indexing X y n false false w4) as [[r4|e] w5];
    [|discriminate].
  intros H. inversion H; subst. eapply extract_features_Some; eauto.
Qed.

(** X16. A fault of the extraction of the fold propagates out of
    [fit_and_score] whatever the error score is: the error policy covers
    the fit only. The estimator is not touched then: nothing is copied,
    set, fitted or scored, and no warning is emitted. *)
Theorem fit_and_score_extraction_fault_propagates :
  ∀ (w w1 : world) X y n (e : exn),
    extract_fold' X y n w = (Raise e, w1) →
    ∀ est error_score fields params fit_params return_train_score
      (t : trace leaf),
      fit_and_score' est X y n error_score fields params fit_params
        return_train_score (w, t)
      = (Raise e, (w1, t)).
Proof.
  intros w w1 X y n e H est error_score fields params fit_params rts t.
  now rewrite fit_and_score_phases, H.
Qed.

(** X17. When the fit of [fit_and_score] yields [FIT_FAILURE], because
    the model that came in is [FIT_FAILURE] or because the fit failed
    under a numeric error score, the scores are [FIT_FAILURE]: the pair
    when train scores are asked for, the test score alone otherwise. The
    scorer is not called: the trace is the one the fit left. *)
Theorem fit_and_score_of_a_failed_fit :
  ∀ (w w1 : world) X y n X_train y_train X_test y_test est error_score
    fields params fit_params (t t1 : trace leaf),
    extract_fold' X y n w = (Ok (X_train, y_train, X_test, y_test), w1) →
    fit' est (Val X_train) y_train error_score fields params fit_params t
    = (Ok FIT_FAILURE, t1) →
    ∀ return_train_score,
      fit_and_score' est X y n error_score fields params fit_params
        return_train_score (w, t)
      = (Ok (failure_item return_train_score), (w1, t1)).
Proof.
  intros w w1 X y n X_train y_train X_test y_test est error_score fields
    params fit_params t t1 Hex Hfit rts.
  rewrite fit_and_score_phases, Hex. unfold bind. rewrite Hfit.
  pose proof (extract_fold_train_Some _ _ _ _ _ _ _ _ _ Hex) as HX.
  destruct rts, X_train; try reflexivity. now destruct HX.
Qed.

(** X18. [fit_and_score] returns the pair (test score, train score)
    exactly when [return_train_score] is true, and a single test score
    otherwise; the cache is left as the four extractions left it. *)
Theorem fit_and_score_result_shape :
  ∀ (w w' : world) X y n est error_score fields params fit_params
    (return_train_score : bool) (t t' : trace leaf) r,
    fit_and_score' est X y n error_score fields params fit_params
      return_train_score (w, t)
    = (Ok r, (w', t')) →
    match r with
    | Pair _ _ => return_train_score = true
    | Single _ => return_train_score = false
    end
    ∧ w' = snd (extract_fold' X y n w).
Proof.
  intros w w' X y n est error_score fields params fit_params rts t t' r H.
  rewrite fit_and_score_phases in H.
  destruct (extract_fold' X y n w) as [[[[[X_train y_train] X_test] y_test]|e]
                                       w1] eqn:Hex; [|discriminate].
  pose proof (extract_fold_train_Some _ _ _ _ _ _ _ _ _ Hex) as HX.
  unfold bind in H.
  destruct (fit' est (Val X_train) y_train error_score fields params
              fit_params t) as [[f|e] t1]; [|discriminate].
  unfold score, bind, ret in H.
  destruct (_score leaf scorer2 scorer3 f X_test y_test t1) as [[s|e] t2];
    [|discriminate].
  destruct rts.
  - destruct X_train as [Xtr|]; [|now destruct HX].
    destruct (_score leaf scorer2 scorer3 f (Some Xtr) y_train t2)
      as [[s'|e] t3]; inversion H; subst. now split.
  - inversion H; subst. now split.
Qed.
End FitAndScoreMore.

(** ** Dictionaries of parameters *)

Lemma foldl_insert_absent {V} (kvs : list (string * V)) :
  ∀ (acc : gmap string V) f,
    f ∉ map fst kvs →
    foldl (λ m kv, <[kv.1 := kv.2]> m) acc kvs !! f = acc !! f.
Proof.
  induction kvs as [|[k v] kvs IH]; intros acc f Hnin; [reflexivity|].
  simpl in *. rewrite IH.
  - apply lookup_insert_ne. intros ->. apply Hnin. left.
  - intros Hin. apply Hnin. now right.
Qed.

Lemma foldl_insert_present {V} (kvs : list (string * V)) :
  ∀ (acc : gmap string V) f v,
    NoDup (map fst kvs) → (f, v) ∈ kvs →
    foldl (λ m kv, <[kv.1 := kv.2]> m) acc kvs !! f = Some v.
Proof.
  induction kvs as [|[k v0] kvs IH]; intros acc f v Hnd Hin.
  - now apply elem_of_nil in Hin.
  - simpl in *. apply NoDup_cons in Hnd as [Hnin Hnd].
    apply elem_of_cons in Hin as [Heq|Hin].
    + inversion Heq; subst. rewrite foldl_insert_absent by exact Hnin.
      apply lookup_insert_eq.
    + now apply IH.
Qed.

Lemma given_pairs_elem_of {V} (fields : list string) :
  ∀ (p : list (param V)) f v,
    (f, v) ∈ given_pairs fields p
    ↔ ∃ i, fields !! i = Some f ∧ p !! i = Some (Given v).
Proof.
  unfold given_pairs.
  induction fields as [|f0 fields IH]; intros p f v.
  - simpl. split; [intros H; now apply elem_of_nil in H|].
    intros (i & H & _). discriminate.
  - destruct p as [|p0 p].
    + simpl. split; [intros H; now apply elem_of_nil in H|].
      intros (i & _ & H). discriminate.
    + change (zip (f0 :: fields) (p0 :: p)) with ((f0, p0) :: zip fields p).
      cbn [omap list_omap snd fst].
      assert ((f, v) ∈ omap (λ fp : string * param V,
                               match fp.2 with
                               | MISSING => None
                               | Given v => Some (fp.1, v)
                               end) (zip fields p)
              ↔ ∃ i, (f0 :: fields) !! S i = Some f
                     ∧ (p0 :: p) !! S i = Some (Given v)) as Htail
        by apply IH.
      destruct p0 as [|v0].
      * rewrite Htail. split.
        -- intros (i & H); now exists (S i).
        -- intros ([|i] & H1 & H2); [discriminate | now exists i].
      * rewrite elem_of_cons, Htail. split.
        -- intros [Heq|(i & H)]; [|now exists (S i)].
           inversion Heq; subst. now exists 0.
        -- intros ([|i] & H1 & H2); [|right; now exists i].
           left. simpl in *. congruence.
Qed.

Lemma given_pairs_keys {V} (fields : list string) :
  ∀ (p : list (param V)),
    map fst (given_pairs fields p) `sublist_of` fields.
Proof.
  unfold given_pairs.
  induction fields as [|f0 fields IH]; intros p; [constructor|].
  destruct p as [|[|v0] p]; simpl.
  - apply sublist_nil_l.
  - apply sublist_cons, IH.
  - apply sublist_skip, IH.
Qed.

(** X19. For field names without duplicates, the dictionary that
    [decompress_params] builds for a candidate holds a field exactly when
    the candidate's value at the position of the field is there and is
    not [MISSING], with this value; it holds no other name. There is one
    dictionary for each candidate, in order. *)
Theorem decompress_params_lookup :
  ∀ (fields : list string) (params : list (list (param pyval))),
    NoDup fields →
    length (decompress_params fields params) = length params
    ∧ ∀ j p,
        params !! j = Some p →
        ∃ d, decompress_params fields params !! j = Some d
             ∧ (∀ i f, fields !! i = Some f → d !! f = p !! i ≫= given)
             ∧ (∀ f, f ∉ fields → d !! f = None).
Proof.
  intros fields params Hnd. unfold decompress_params.
  split; [apply length_map|].
  intros j p Hp. eexists. split.
  { change (map ?f params) with (f <$> params).
    rewrite list_lookup_fmap, Hp. reflexivity. }
  unfold dict_of_pairs.
  assert (NoDup (map fst (given_pairs fields p))) as Hnd'
    by (eapply sublist_NoDup; [exact Hnd | apply given_pairs_keys]).
  split.
  - intros i f Hf.
    destruct (p !! i) as [[|v]|] eqn:Hpi; simpl.
    + rewrite foldl_insert_absent; [apply lookup_empty|].
      intros Hin. apply (list_elem_of_fmap_1 fst) in Hin
        as ([f' v'] & Heq & Hin).
      simpl in Heq. subst f'.
      apply given_pairs_elem_of in Hin as (i' & Hf' & Hp').
      assert (i' = i) as -> by exact (NoDup_lookup _ _ _ _ Hnd Hf' Hf).
      congruence.
    + apply foldl_insert_present; [exact Hnd'|].
      apply given_pairs_elem_of. now exists i.
    + rewrite foldl_insert_absent; [apply lookup_empty|].
      intros Hin. apply (list_elem_of_fmap_1 fst) in Hin
        as ([f' v'] & Heq & Hin).
      simpl in Heq. subst f'.
      apply given_pairs_elem_of in Hin as (i' & Hf' & Hp').
      assert (i' = i) as -> by exact (NoDup_lookup _ _ _ _ Hnd Hf' Hf).
      congruence.
  - intros f Hnin. rewrite foldl_insert_absent; [apply lookup_empty|].
    intros Hin. apply Hnin.
    eapply elem_of_sublist; [exact Hin | apply given_pairs_keys].
Qed.

(** ** Ranks of any array, NaN included *)

Lemma count_true_take_le (obs : list bool) k :
  count_true (take k obs) ≤ count_true obs.
Proof.
  revert k. induction obs as [|b obs IH]; intros [|k]; unfold count_true in *;
    simpl; try lia.
  specialize (IH k). destruct b; simpl; lia.
Qed.

Lemma nonzero_from_count k (obs : list bool) :
  length (nonzero_from k obs) = count_true obs.
Proof.
  revert k. induction obs as [|b obs IH]; intros k; [reflexivity|].
  unfold count_true in *. destruct b; simpl; rewrite IH; reflexivity.
Qed.

Section RankdataTotal.
Context {A : Type}.
Variable lt : A → A → bool.
Variable neq : A → A → bool.

(** Every position gets a rank, and the position that the sort puts
    first gets rank 1, whatever the order does with the elements. *)
Lemma rankdata_min_total (arr : list A) :
  length (rankdata_min lt neq arr) = length arr
  ∧ (arr ≠ [] → ∃ i, rankdata_min lt neq arr !! i = Some 1).
Proof.
  destruct (decide (arr = [])) as [->|Hne]; [split; [reflexivity | congruence]|].
  unfold rankdata_min.
  set (sorter := argsort lt arr).
  set (vals := fancy arr sorter).
  set (obs := obs_of neq vals).
  set (count := nonzero obs ++ [length obs]).
  set (D := λ k, count_true (take (S k) obs)).
  set (c := λ j, default 0 (count !! j)).
  pose proof (argsort_perm lt arr) as Hperm. fold sorter in Hperm.
  assert (length sorter = length arr) as Hlen
    by (rewrite Hperm; apply length_seq).
  rewrite <- Hlen in Hperm.
  destruct (inverse_of_lookup sorter Hperm) as [Hilen Hinv].
  assert (Permutation vals arr) as Hvperm by apply sorted_values_perm.
  assert (length vals = length arr) as Hvlen by now rewrite Hvperm.
  assert (length obs = length arr) as Holen.
  { unfold obs. rewrite obs_of_length; [exact Hvlen|].
    intros E. rewrite E in Hvlen. destruct arr; [congruence|discriminate]. }
  assert (∃ obs', obs = true :: obs') as [obs' Hobs]
    by (unfold obs, obs_of; eauto).
  assert (∀ k, 1 ≤ D k ≤ count_true obs) as HD.
  { intros k. split; [|apply count_true_take_le].
    unfold D. rewrite Hobs. unfold count_true. simpl. lia. }
  assert (Forall (λ k, k < length arr) (inverse_of sorter)) as Hbound.
  { apply Forall_lookup. intros s k' Hs.
    assert (s ∈ sorter) as Hin.
    { rewrite Hperm. apply elem_of_seq. apply lookup_lt_Some in Hs. lia. }
    apply list_elem_of_lookup in Hin as [k Hk].
    rewrite (Hinv _ _ Hk) in Hs. inversion Hs; subst k'.
    apply lookup_lt_Some in Hk. lia. }
  assert (fancy (cumsum obs) (inverse_of sorter)
          = map D (inverse_of sorter)) as ->.
  { apply fancy_map. eapply Forall_impl; [exact Hbound|].
    intros k Hk. cbv beta. unfold cumsum.
    cbv beta in Hk. rewrite cumsum_from_lookup by lia. reflexivity. }
  rewrite map_map.
  assert (fancy count (map (λ k, D k - 1) (inverse_of sorter))
          = map c (map (λ k, D k - 1) (inverse_of sorter))) as ->.
  { apply fancy_map. apply Forall_forall. intros j Hj.
    apply list_elem_of_fmap in Hj as (k & -> & _).
    unfold c. destruct (count !! (D k - 1)) eqn:E; [reflexivity|].
    apply lookup_ge_None in E. unfold count, nonzero in E.
    rewrite length_app, nonzero_from_count in E. cbn [length] in E.
    specialize (HD k). lia. }
  rewrite !map_map. split.
  - now rewrite length_map, Hilen.
  - intros _. destruct sorter as [|i0 sorter'] eqn:Es;
      [destruct arr; [congruence | discriminate]|].
    exists i0. change (map ?f ?l !! i0) with ((f <$> l) !! i0).
    rewrite list_lookup_fmap, (Hinv 0 i0 eq_refl). reflexivity.
Qed.
End RankdataTotal.

Lemma first_rank_one_total (ranks : list Z) i :
  ranks !! i = Some 1%Z →
  ∃ j, first_rank_one ranks = Some j ∧ j ≤ i ∧ ranks !! j = Some 1%Z.
Proof.
  revert i. induction ranks as [|r ranks IH]; intros i Hi; [discriminate|].
  simpl. destruct (Z.eqb_spec r 1) as [->|Hne].
  - exists 0. repeat split. lia.
  - destruct i as [|i]; simpl in Hi; [congruence|].
    destruct (IH i Hi) as (j & -> & Hj & Hr). exists (S j).
    repeat split; [lia | exact Hr].
Qed.

Lemma np_average_length a weights n means :
  length (m_data a) = n →
  np_average a ((λ w, broadcast_rows w n) <$> weights) = Ok means →
  length means = n.
Proof.
  intros Ha. destruct weights as [ws|]; simpl.
  - destruct (negb _); [discriminate|].
    destruct (any _ _); [discriminate|].
    intros H. inversion H; subst.
    rewrite length_zip_with, !length_map, length_zip_with, length_replicate.
    lia.
  - intros H. inversion H; subst. now rewrite length_map.
Qed.

Lemma reshape_T_length flat n_splits n_candidates a :
  reshape_T flat n_splits n_candidates = Ok a →
  length (m_data a) = n_candidates.
Proof.
  unfold reshape_T. destruct (_ =? _); [|discriminate].
  intros H. inversion H; subst. simpl. now rewrite length_map, length_seq.
Qed.

(** X20. On the table that [create_cv_results] returns for at least one
    candidate, [get_best_params] always answers, with a candidate of the
    list: some candidate holds rank 1, even when mean scores are NaN. *)
Theorem get_best_params_succeeds :
  ∀ scores (candidate_params : list (gmap string pyval)) n_splits
    error_score weights results,
    candidate_params ≠ [] →
    create_cv_results scores candidate_params n_splits error_score weights
      = Ok results →
    ∃ best_index best ranks,
      results !! "rank_test_score" = Some (RankCol ranks)
      ∧ length ranks = length candidate_params
      ∧ ranks !! best_index = Some 1%Z
      ∧ candidate_params !! best_index = Some best
      ∧ get_best_params candidate_params results = Ok best.
Proof.
  intros scores cands n_splits error_score weights results Hne H.
  apply create_cv_results_test_columns in H
    as (tests & trains & test_array & a & means & vars & _ & _ & Ha & Hm
        & _ & _ & _ & Hrank).
  pose proof (reshape_T_length _ _ _ _ Ha) as Hal.
  pose proof (np_average_length _ _ _ _ Hal Hm) as Hml.
  set (rk := rankdata_min np_sort_lt F64.neqb (map F64.opp means)) in *.
  destruct (rankdata_min_total np_sort_lt F64.neqb (map F64.opp means))
    as [Hrl Hone]. fold rk in Hrl, Hone.
  rewrite length_map, Hml in Hrl.
  destruct Hone as [i Hi].
  { intros E. apply (f_equal length) in E. rewrite length_map, Hml in E.
    destruct cands; [congruence | discriminate]. }
  set (ranks := map (λ r, to_int32 (Z.of_nat r)) rk) in *.
  assert (ranks !! i = Some 1%Z) as Hri.
  { unfold ranks. change (map ?f rk) with (f <$> rk).
    now rewrite list_lookup_fmap, Hi. }
  destruct (first_rank_one_total ranks i Hri) as (j & Hj & Hji & Hrj).
  assert (j < length cands) as Hjlt.
  { apply lookup_lt_Some in Hri. unfold ranks in Hri.
    rewrite length_map, Hrl in Hri. lia. }
  destruct (lookup_lt_is_Some_2 cands j Hjlt) as [best Hbest].
  exists j, best, ranks. split; [exact Hrank|].
  split; [unfold ranks; now rewrite length_map|].
  split; [exact Hrj|]. split; [exact Hbest|].
  unfold get_best_params. rewrite Hrank, Hj. now apply py_getitem_nat.
Qed.

(** X21. [create_cv_results] takes the scores in split-major order: the
    column [split<i>_test_score] is the [i]-th chunk of [n_candidates]
    test scores, so the score of candidate [c] on split [i] is read at
    position [i * n_candidates + c]; the columns [split<i>_train_score]
    are the chunks of the train scores when there are train scores. *)
Theorem split_columns_are_chunks_of_the_scores :
  ∀ scores (candidate_params : list (gmap string pyval)) n_splits
    error_score weights results,
    create_cv_results scores candidate_params n_splits error_score weights
      = Ok results →
    let n := length candidate_params in
    length scores = n_splits * n
    ∧ ∃ tests trains test_array,
        split_scores scores = Ok (tests, trains)
        ∧ to_float64 (map (replace_failure error_score) tests)
          = Ok test_array
        ∧ (∀ i, i < n_splits →
                results !! split_name i "test_score"
                = Some (FloatCol (take n (drop (i * n) test_array))))
        ∧ (∀ trs, trains = Some trs →
             ∃ train_array,
               to_float64 (map (replace_failure error_score) trs)
               = Ok train_array
               ∧ ∀ i, i < n_splits →
                   results !! split_name i "train_score"
                   = Some (FloatCol (take n (drop (i * n) train_array)))).
Proof.
  intros scores cands n_splits error_score weights results H n.
  apply create_cv_results_inv in H
    as (tests & trains & test_array & r1 & r2 & Hsp & Hta & Hs1 & Htr & ->).
  destruct (split_scores_length _ _ _ Hsp) as (Hlt & _ & _).
  assert (length test_array = n_splits * n) as Hlen.
  { unfold _store in Hs1. unfold reshape_T in Hs1.
    destruct (Nat.eqb_spec (length test_array) (n_splits * length cands));
      [assumption | discriminate]. }
  split.
  { apply to_float64_length in Hta. rewrite length_map in Hta. lia. }
  exists tests, trains, test_array. do 2 (split; [assumption|]). split.
  - intros i Hi.
    rewrite update_results_other by (intros name; apply split_name_not_param).
    destruct (_store_split_columns _ _ _ _ _ _ _ _ i Hs1 Hi) as [_ Hcol].
    destruct trains as [trs|]; [|now subst].
    destruct Htr as (train_array & _ & Hs2).
    rewrite (_store_no_rank _ _ _ _ _ _ _ _ _ Hs2); [exact Hcol | | |].
    + intros j. apply split_name_test_train.
    + discriminate.
    + discriminate.
  - intros trs ->. destruct Htr as (train_array & Htra & Hs2).
    exists train_array. split; [exact Htra|]. intros i Hi.
    rewrite update_results_other by (intros name; apply split_name_not_param).
    now destruct (_store_split_columns _ _ _ _ _ _ _ _ i Hs2 Hi).
Qed.

(** X22. The table of [create_cv_results] holds the candidates under
    [params], and a mean, a standard deviation and a rank of the test
    scores for each candidate. It never holds a rank of the train scores,
    and it holds the mean and the standard deviation of the train scores
    exactly when the first score is a tuple. *)
Theorem cv_results_columns :
  ∀ scores (candidate_params : list (gmap string pyval)) n_splits
    error_score weights results,
    create_cv_results scores candidate_params n_splits error_score weights
      = Ok results →
    let n := length candidate_params in
    results !! "params" = Some (ParamsCol candidate_params)
    ∧ (∃ means stds ranks,
          results !! "mean_test_score" = Some (FloatCol means)
          ∧ results !! "std_test_score" = Some (FloatCol stds)
          ∧ results !! "rank_test_score" = Some (RankCol ranks)
          ∧ length means = n ∧ length stds = n ∧ length ranks = n)
    ∧ results !! "rank_train_score" = None
    ∧ ((∃ a b rest, scores = Pair a b :: rest)
       → ∃ means stds,
           results !! "mean_train_score" = Some (FloatCol means)
           ∧ results !! "std_train_score" = Some (FloatCol stds)
           ∧ length means = n ∧ length stds = n)
    ∧ ((∃ a rest, scores = Single a :: rest)
       → results !! "mean_train_score" = None
         ∧ results !! "std_train_score" = None).
Proof.
  intros scores cands n_splits error_score weights results H n.
  pose proof (create_cv_results_test_columns _ _ _ _ _ _ H)
    as (tests0 & trains0 & test_array0 & a & means & vars & Hsp0 & _ & Ha
        & Hm & Hv & Hmean & Hstd & Hrank).
  pose proof (np_average_length _ _ _ _ (reshape_T_length _ _ _ _ Ha) Hm)
    as Hml.
  assert (length vars = n) as Hvl.
  { eapply np_average_length; [|exact Hv]. unfold squared_deviations. simpl.
    rewrite length_zip_with, (reshape_T_length _ _ _ _ Ha), Hml.
    unfold n. lia. }
  apply create_cv_results_inv in H
    as (tests & trains & test_array & r1 & r2 & Hsp & Hta & Hs1 & Htr & ->).
  destruct (split_scores_length _ _ _ Hsp) as (_ & _ & Hpair).
  assert (∀ k, (∀ i, k ≠ split_name i "test_score") →
               k ≠ "mean_test_score" → k ≠ "std_test_score" →
               k ≠ "rank_test_score" → k ≠ "params" → r1 !! k = None) as Hr1.
  { intros k H1 H2 H3 H4 H5.
    rewrite (_store_other _ _ _ _ _ _ _ _ _ k Hs1) by assumption.
    now apply lookup_singleton_ne. }
  split; [|split; [|split; [|split]]].
  - rewrite update_results_other by discriminate.
    assert (r1 !! "params" = Some (ParamsCol cands)) as Hp1.
    { rewrite (_store_other _ _ _ _ _ _ _ _ _ "params" Hs1)
        by discriminate.
      apply lookup_singleton_eq. }
    destruct trains as [trs|]; [|now subst].
    destruct Htr as (train_array & _ & Hs2).
    rewrite (_store_no_rank _ _ _ _ _ _ _ _ "params" Hs2) by discriminate.
    exact Hp1.
  - eexists means, (map F64.sqrt vars), _.
    do 3 (split; [eassumption|]).
    split; [exact Hml|]. split; [now rewrite length_map|].
    rewrite length_map.
    destruct (rankdata_min_total np_sort_lt F64.neqb (map F64.opp means))
      as [-> _].
    now rewrite length_map.
  - rewrite update_results_other by discriminate.
    destruct trains as [trs|].
    + destruct Htr as (train_array & _ & Hs2).
      rewrite (_store_no_rank _ _ _ _ _ _ _ _ "rank_train_score" Hs2)
        by discriminate.
      apply Hr1; discriminate.
    + subst r2. apply Hr1; discriminate.
  - intros Hfirst. apply Hpair in Hfirst.
    destruct trains as [trs|]; [|congruence].
    destruct Htr as (train_array & _ & Hs2).
    apply _store_columns in Hs2
      as (a2 & means2 & vars2 & Ha2 & Hm2 & Hv2 & Hmean2 & Hstd2 & _).
    exists means2, (map F64.sqrt vars2).
    rewrite !update_results_other by discriminate.
    do 2 (split; [assumption|]).
    pose proof (np_average_length a2 None n means2
                  (reshape_T_length _ _ _ _ Ha2) Hm2) as Hml2.
    split; [exact Hml2|]. rewrite length_map.
    apply (np_average_length (squared_deviations a2 means2) None n);
      [|exact Hv2].
    unfold squared_deviations. simpl.
    rewrite length_zip_with, (reshape_T_length _ _ _ _ Ha2), Hml2.
    unfold n. lia.
  - intros (a0 & rest & ->).
    destruct trains as [trs|].
    + exfalso. assert (Some trs ≠ None) as Hn by discriminate.
      apply Hpair in Hn as (? & ? & ? & ?). discriminate.
    + subst r2. rewrite !update_results_other by discriminate.
      split; apply Hr1; discriminate.
Qed.

Lemma mapM_raise {A B} (f : A → result B) (l : list A) (e : exn) :
  (∀ x e', x ∈ l → f x = Raise e' → e' = e) →
  (∃ x, x ∈ l ∧ is_ok (f x) = false) →
  mapM f l = Raise e.
Proof.
  induction l as [|a l IH]; intros Hsame (x & Hin & Hx).
  - now apply elem_of_nil in Hin.
  - simpl. destruct (f a) as [b|e'] eqn:Ha.
    + simpl. rewrite IH; [reflexivity | |].
      * intros y e' Hy. apply Hsame. now right.
      * apply elem_of_cons in Hin as [->|Hin]; [|now exists x].
        rewrite Ha in Hx. discriminate.
    + simpl. f_equal. apply (Hsame a); [left | exact Ha].
Qed.

(** X23. [create_cv_results] rejects scores it cannot read: an empty
    list with [IndexError] (there is no first score); a list that starts
    with a tuple and holds a score that is no tuple with [TypeError]; a
    list that starts with a plain score and holds a tuple with
    [ValueError]. *)
Theorem create_cv_results_rejects_malformed_scores :
  ∀ (candidate_params : list (gmap string pyval)) n_splits error_score
    weights,
    create_cv_results [] candidate_params n_splits error_score weights
    = Raise IndexError
    ∧ (∀ a b pre c post,
          create_cv_results (Pair a b :: pre ++ Single c :: post)
            candidate_params n_splits error_score weights
          = Raise TypeError)
    ∧ (∀ a pre b c post,
          ∃ msg,
            create_cv_results (Single a :: pre ++ Pair b c :: post)
              candidate_params n_splits error_score weights
            = Raise (ValueError msg)).
Proof.
  intros cands n_splits error_score weights. repeat apply conj.
  - reflexivity.
  - intros a b pre c post. unfold create_cv_results, split_scores.
    change (first_is_tuple (Pair a b :: pre ++ Single c :: post))
      with (Ok (A := bool) true).
    cbn [result_bind]. unfold unzip_scores.
    rewrite (mapM_raise _ _ TypeError); [reflexivity | |].
    + intros [x|x y] e' _ H; [now inversion H | discriminate].
    + exists (Single c). split; [|reflexivity].
      right. apply elem_of_app. right. left.
  - intros a pre b c post. eexists. unfold create_cv_results, split_scores.
    change (first_is_tuple (Single a :: pre ++ Pair b c :: post))
      with (Ok (A := bool) false).
    cbn [result_bind]. unfold plain_scores.
    rewrite (mapM_raise _ _
               (ValueError "setting an array element with a sequence"));
      [reflexivity | |].
    + intros [x|x y] e' _ H; [discriminate | now inversion H].
    + exists (Pair b c). split; [|reflexivity].
      right. apply elem_of_app. right. left.
Qed.

Lemma any_replicate {B} (p : B → bool) n x :
  0 < n → any p (replicate n x) = p x.
Proof.
  intros Hn. destruct n as [|n]; [lia|]. unfold any. simpl.
  destruct (p x) eqn:E; [reflexivity|]. simpl.
  clear Hn. induction n as [|n IH]; [reflexivity|]. simpl. now rewrite E.
Qed.

(** X24. For scores that can be read, [create_cv_results] raises
    [ValueError] unless there are [n_splits * n_candidates] of them;
    then, when fold weights are given, it raises [TypeError] unless there
    is one weight for each split, and [ZeroDivisionError] when the
    weights sum to zero. *)
Theorem create_cv_results_rejects_bad_shapes :
  ∀ scores (candidate_params : list (gmap string pyval)) n_splits
    error_score weights tests trains test_array,
    split_scores scores = Ok (tests, trains) →
    to_float64 (map (replace_failure error_score) tests) = Ok test_array →
    let n := length candidate_params in
    (length scores ≠ n_splits * n →
     ∃ msg,
       create_cv_results scores candidate_params n_splits error_score weights
       = Raise (ValueError msg))
    ∧ (∀ ws,
          weights = Some ws →
          length scores = n_splits * n →
          (length ws ≠ n_splits →
           create_cv_results scores candidate_params n_splits error_score
             weights = Raise TypeError)
          ∧ (length ws = n_splits →
             F64.eqb (fsum ws) F64.zero = true →
             create_cv_results scores candidate_params n_splits error_score
               weights = Raise ZeroDivisionError)).
Proof.
  intros scores cands n_splits error_score weights tests trains test_array
    Hsp Hta n.
  destruct (split_scores_length _ _ _ Hsp) as (Hlt & _ & _).
  pose proof (to_float64_length _ _ Hta) as Hla. rewrite length_map in Hla.
  split.
  - intros Hne. eexists.
    unfold create_cv_results. rewrite Hsp. cbn [result_bind fst].
    rewrite Hta. cbn [result_bind]. unfold _store, reshape_T.
    destruct (Nat.eqb_spec (length test_array) (n_splits * length cands))
      as [E|_]; [|reflexivity].
    exfalso. apply Hne. unfold n. lia.
  - intros ws -> Hlen.
    assert (0 < n) as Hn.
    { destruct scores; [discriminate|]. simpl in Hlen. nia. }
    assert (reshape_T test_array n_splits n
            = Ok (mkMatrix n n_splits
                    (map (λ c, map (λ s, nth (s * n + c) test_array F64.zero)
                                   (seq 0 n_splits)) (seq 0 n)))) as Hre.
    { unfold reshape_T.
      destruct (Nat.eqb_spec (length test_array) (n_splits * n));
        [reflexivity | lia]. }
    split.
    + intros Hw. unfold create_cv_results.
      rewrite Hsp. cbn [result_bind fst]. rewrite Hta. cbn [result_bind].
      unfold _store. fold n. rewrite Hre. cbn [result_bind].
      unfold np_average. cbn [fmap option_fmap option_map m_rows m_cols
                              broadcast_rows].
      rewrite Nat.eqb_refl.
      destruct (Nat.eqb_spec n_splits (length ws)) as [E|_]; [lia|].
      reflexivity.
    + intros Hw Hz. unfold create_cv_results.
      rewrite Hsp. cbn [result_bind fst]. rewrite Hta. cbn [result_bind].
      unfold _store. fold n. rewrite Hre. cbn [result_bind].
      unfold np_average. cbn [fmap option_fmap option_map m_rows m_cols
                              m_data broadcast_rows].
      rewrite Nat.eqb_refl.
      destruct (Nat.eqb_spec n_splits (length ws)) as [_|E]; [|lia].
      cbn [andb negb].
      change (map fsum (replicate n ws)) with (fsum <$> replicate n ws).
      rewrite fmap_replicate, (any_replicate _ _ _ Hn), Hz. reflexivity.
Qed.

(** ** More on the concatenation *)

Lemma mapM_zip_with {A B C} (f : A → result B) (g : A → C → B)
    (R : A → C → Prop) l l' :
  (∀ a c, R a c → f a = Ok (g a c)) →
  Forall2 R l l' → mapM f l = Ok (zip_with g l l').
Proof.
  intros Hf. induction 1 as [|a c l l' Hac _ IH]; [reflexivity|].
  simpl. now rewrite (Hf _ _ Hac), IH.
Qed.

Lemma forallb_zip_with {A B C} (p : B → bool) (q : C → bool)
    (g : A → C → B) (R : A → C → Prop) l l' :
  (∀ a c, p (g a c) = q c) →
  Forall2 R l l' → forallb p (zip_with g l l') = forallb q l'.
Proof.
  intros Hp. induction 1 as [|a c l l' _ _ IH]; [reflexivity|].
  simpl. now rewrite Hp, IH.
Qed.

Lemma forallb_rows_differ (shapes : list (nat * nat)) r0 :
  (∃ r, r ∈ map fst shapes ∧ r ≠ r0) →
  forallb (λ rc : nat * nat, fst rc =? r0) shapes = false.
Proof.
  intros (r & Hin & Hne). apply not_true_is_false. intros H.
  rewrite forallb_forall in H.
  apply list_elem_of_fmap in Hin as ([r' c'] & -> & Hin).
  apply list_elem_of_In in Hin. apply H in Hin. simpl in *.
  apply Nat.eqb_eq in Hin. congruence.
Qed.

Lemma as_matrix_2d b r c :
  get_shape b = Some [r; c] → as_matrix b = Ok (r, c, elements b).
Proof.
  destruct b as [|[|?[|?[|]]]|]; simpl; intros H; inversion H; reflexivity.
Qed.

Lemma atleast_1d_2d b r c :
  get_shape b = Some [r; c] ∧ issparse b = false →
  atleast_1d b = Ok ([r; c], elements b).
Proof.
  destruct b as [|[|?[|?[|]]]|]; simpl; intros [H H']; try discriminate;
    inversion H; reflexivity.
Qed.

Lemma hstack_compatible_rows r0 c0 r c :
  hstack_compatible [r0; c0] [r; c] = (r =? r0).
Proof.
  simpl. rewrite Nat.eqb_sym. now destruct (r =? r0).
Qed.

(** X25. When two of the surviving blocks, two-dimensional all of them,
    differ in their number of rows, [feature_union_concat] raises
    [ValueError], for dense blocks and for sparse ones. *)
Theorem feature_union_concat_rejects_row_mismatch :
  ∀ (Xs : list data) weights branches (shapes : list (nat * nat)) nsamples,
    scaled_survivors Xs weights branches →
    Forall2 (λ b rc, get_shape b = Some [fst rc; snd rc]) branches shapes →
    (∃ r r', r ∈ map fst shapes ∧ r' ∈ map fst shapes ∧ r ≠ r') →
    ∃ msg,
      feature_union_concat (map Val Xs) nsamples weights
      = Raise (ValueError msg).
Proof.
  intros Xs weights branches shapes nsamples Hsurv Hsh (r & r' & Hr & Hr' & Hne).
  apply weighted_branches_survivors in Hsurv.
  unfold feature_union_concat.
  rewrite any_FIT_FAILURE_Val, the_fitted_Val, Hsurv. cbn [result_bind].
  destruct Hsh as [|b [r0 c0] bs shapes' Hb Hsh].
  { now apply elem_of_nil in Hr. }
  assert (∃ r1, r1 ∈ map fst ((r0, c0) :: shapes') ∧ r1 ≠ r0) as Hdiff.
  { destruct (decide (r = r0)) as [->|Hr0]; [exists r' | exists r]; auto. }
  assert (Forall2 (λ b rc, get_shape b = Some [fst rc; snd rc])
            (b :: bs) ((r0, c0) :: shapes')) as Hall
    by (constructor; assumption).
  destruct (any issparse (b :: bs)) eqn:Hsp.
  - unfold sparse_hstack.
    rewrite (mapM_zip_with as_matrix
               (λ b rc, (fst rc, snd rc, elements b)) _ _ _
               (λ b rc, as_matrix_2d b (fst rc) (snd rc)) Hall).
    cbn [result_bind zip_with fst snd].
    change ((r0, c0, elements b)
            :: zip_with (λ b rc, (fst rc, snd rc, elements b)) bs shapes')
      with (zip_with (λ (b : container) (rc : nat * nat),
                        (fst rc, snd rc, elements b))
              (b :: bs) ((r0, c0) :: shapes')).
    rewrite (forallb_zip_with
               (λ m : nat * nat * list float, fst (fst m) =? r0)
               (λ rc : nat * nat, fst rc =? r0)
               (λ (b : container) (rc : nat * nat),
                  (fst rc, snd rc, elements b)) _ _ _
               (λ _ _, eq_refl) Hall).
    rewrite (forallb_rows_differ _ _ Hdiff). eexists. reflexivity.
  - unfold np_hstack.
    assert (Forall2 (λ b rc, get_shape b = Some [fst rc; snd rc]
                             ∧ issparse b = false)
              (b :: bs) ((r0, c0) :: shapes')) as Hall'.
    { clear -Hall Hsp. induction Hall as [|x rc l l' Hx _ IH];
        [constructor|].
      simpl in Hsp. apply orb_false_iff in Hsp as [Hx' Hsp].
      constructor; [now split | now apply IH]. }
    rewrite (mapM_zip_with atleast_1d
               (λ b rc, ([fst rc; snd rc], elements b)) _ _ _
               (λ b rc, atleast_1d_2d b (fst rc) (snd rc)) Hall').
    cbn [result_bind zip_with fst snd].
    change (([r0; c0], elements b)
            :: zip_with (λ b rc, ([fst rc; snd rc], elements b)) bs shapes')
      with (zip_with (λ (b : container) (rc : nat * nat),
                        ([fst rc; snd rc], elements b))
              (b :: bs) ((r0, c0) :: shapes')).
    rewrite (forallb_zip_with
               (λ a : list nat * list float,
                  hstack_compatible [r0; c0] (fst a))
               (λ rc : nat * nat, fst rc =? r0)
               (λ (b : container) (rc : nat * nat),
                  ([fst rc; snd rc], elements b)) _ _ _
               (λ _ rc, hstack_compatible_rows r0 c0 (fst rc) (snd rc))
               Hall').
    rewrite (forallb_rows_differ _ _ Hdiff). eexists. reflexivity.
Qed.

Lemma the_fitted_take {A} (l : list (fitted A)) k :
  any is_FIT_FAILURE l = false →
  the_fitted (take k l) = take k (the_fitted l).
Proof.
  revert k. induction l as [|[|a] l IH]; intros [|k] H; try reflexivity;
    try discriminate.
  simpl in H. unfold the_fitted in *. cbn [take omap list_omap].
  now rewrite IH.
Qed.

Lemma any_take_false {A} (p : A → bool) (l : list A) k :
  any p l = false → any p (take k l) = false.
Proof.
  revert k. induction l as [|a l IH]; intros [|k] H; try reflexivity.
  simpl in *. apply orb_false_iff in H as [Ha H].
  now rewrite Ha, IH.
Qed.

Lemma zip_take_shorter {A B} (l : list A) (k : list B) :
  zip (take (length k) l) k = zip l k.
Proof.
  revert k. induction l as [|a l IH]; intros [|b k]; try reflexivity.
  simpl. f_equal. apply IH.
Qed.

(** X26. [feature_union_concat] reads the outputs and the weights in
    pairs: outputs beyond the list of weights are dropped without any
    error, as if they were [None]. A [FIT_FAILURE] among them still
    makes the result [FIT_FAILURE]. *)
Theorem feature_union_concat_drops_outputs_without_weight :
  ∀ (Xs : list (fitted data)) nsamples weights,
    (any is_FIT_FAILURE Xs = false →
     feature_union_concat Xs nsamples weights
     = feature_union_concat (take (length weights) Xs) nsamples weights)
    ∧ (any is_FIT_FAILURE Xs = true →
       feature_union_concat Xs nsamples weights = Ok FIT_FAILURE).
Proof.
  intros Xs nsamples weights. split; intros H.
  - unfold feature_union_concat.
    rewrite H, (any_take_false _ _ _ H), (the_fitted_take _ _ H).
    unfold weighted_branches. now rewrite zip_take_shorter.
  - unfold feature_union_concat. now rewrite H.
Qed.

(** ** The further properties on the samples *)

Lemma extract_selects_rows_on_miss_witness :
  cache_lookup (slot_key 1 false false) Sample.fresh = None
  ∧ ∃ w',
      extract Sample.take_rows Sample.X Sample.y 1 false false Sample.fresh
      = (Ok (Some SampleMore.y_test1), w')
      ∧ extractions w' = [SafeIndexing Sample.y (IntIndex [0]%Z)]
      ∧ splits (self w') = Sample.folds
      ∧ pairwise (self w') = false
      ∧ cache (self w')
        = Some (<[slot_key 1 false false := SampleMore.y_test1]> ∅).
Proof.
  split; [reflexivity|].
  apply (extract_selects_rows_on_miss Sample.take_rows Sample.fresh Sample.X
           Sample.y 1 false false (IntIndex [1; 2]%Z) (IntIndex [0]%Z)
           SampleMore.y_test1);
    [discriminate | discriminate | reflexivity | reflexivity | reflexivity].
Defined.

Lemma cache_calls_touch_their_keys_only_witness :
  let calls := [CallExtract Sample.X Sample.y 0 true true;
                CallExtractParam "sample_weight" Sample.flat_array 0] in
  let w' := run_calls Sample.take_rows Sample.is_arraylike calls
              Sample.after_first in
  splits (self w') = Sample.folds
  ∧ cache_lookup (slot_key 1 true true) w' = None
  ∧ cache_lookup (slot_key 0 true true) w' = Some Sample.X_train0.
Proof.
  intros calls w'.
  destruct (cache_calls_touch_their_keys_only Sample.take_rows
              Sample.is_arraylike calls Sample.after_first)
    as (Hs & _ & _ & _ & Hk).
  split; [exact Hs|]. split.
  - apply (Hk (slot_key 1 true true)). repeat constructor; discriminate.
  - reflexivity.
Defined.

Lemma extract_fold_out_of_range_witness :
  out_of_range (length (splits (self Sample.fresh))) 2
  ∧ out_of_range (length (splits (self Sample.fresh))) (-3)
  ∧ extract Sample.take_rows Sample.X Sample.y 2 true true Sample.fresh
    = (Raise IndexError, Sample.fresh)
  ∧ extract Sample.take_rows Sample.X Sample.y (-3) false true Sample.fresh
    = (Raise IndexError, Sample.fresh).
Proof.
  assert (out_of_range (length (splits (self Sample.fresh))) 2) as H1
    by (right; simpl; lia).
  assert (out_of_range (length (splits (self Sample.fresh))) (-3)) as H2
    by (left; simpl; lia).
  split; [exact H1|]. split; [exact H2|]. split.
  - apply extract_fold_out_of_range;
      [reflexivity | discriminate | reflexivity | exact H1].
  - apply extract_fold_out_of_range;
      [discriminate | discriminate | reflexivity | exact H2].
Defined.

Lemma failed_call_stores_nothing_witness :
  let w' := log_probe (SafeIndexing (Some SampleMore.scalar_param)
                         (IntIndex [0; 1]%Z)) Sample.fresh in
  extract Sample.take_rows SampleMore.scalar_param None 0 true true
    Sample.fresh
  = (Raise IndexError, w')
  ∧ self w' = self Sample.fresh.
Proof.
  intros w'.
  assert (extract Sample.take_rows SampleMore.scalar_param None 0 true true
            Sample.fresh
          = (Raise IndexError, w')) as H by reflexivity.
  split; [exact H|].
  apply (failed_call_stores_nothing Sample.take_rows Sample.is_arraylike
           Sample.fresh w' IndexError).
  left. exists SampleMore.scalar_param, None, 0%Z, true, true. exact H.
Defined.

Lemma extract_param_passes_scalars_through_witness :
  ∃ w',
    extract_param Sample.take_rows Sample.is_arraylike "C"
      SampleMore.scalar_param 9 Sample.fresh
    = (Ok SampleMore.scalar_param, w')
    ∧ extractions w' = []
    ∧ cache (self w')
      = Some (<[param_key 9 "C" := SampleMore.scalar_param]> ∅)
    ∧ (cache (self Sample.fresh) ≠ None →
       ∀ x', extract_param Sample.take_rows Sample.is_arraylike "C" x' 9 w'
             = (Ok SampleMore.scalar_param, w')).
Proof.
  apply (extract_param_passes_scalars_through Sample.take_rows
           Sample.is_arraylike Sample.fresh "C" SampleMore.scalar_param 9);
    reflexivity.
Defined.

Lemma extract_param_selects_train_rows_witness :
  ∃ w',
    extract_param Sample.take_rows Sample.is_arraylike "sample_weight"
      Sample.flat_array 0 Sample.fresh
    = (Ok SampleMore.weights_train0, w')
    ∧ extractions w'
      = [SafeIndexing (Some Sample.flat_array) (IntIndex [0; 1]%Z)]
    ∧ cache (self w')
      = Some (<[param_key 0 "sample_weight" := SampleMore.weights_train0]> ∅).
Proof.
  apply (extract_param_selects_train_rows Sample.take_rows
           Sample.is_arraylike Sample.fresh "sample_weight"
           Sample.flat_array 0 (IntIndex [0; 1]%Z) (IntIndex [2]%Z)
           SampleMore.weights_train0);
    reflexivity.
Defined.

Lemma cv_extract_params_outputs_witness :
  ∃ w',
    cv_extract_params Sample.take_rows Sample.is_arraylike
      [("sample_weight", "token-1"); ("C", "token-2")]
      [Sample.flat_array; SampleMore.scalar_param] 0 Sample.fresh
    = (Ok (params_dict_of [("sample_weight", "token-1"); ("C", "token-2")]
             [SampleMore.weights_train0; SampleMore.scalar_param]), w')
    ∧ splits (self w') = splits (self Sample.fresh).
Proof.
  apply cv_extract_params_outputs.
  - constructor; [|constructor; [reflexivity | constructor]].
    exists (IntIndex [0; 1]%Z), (IntIndex [2]%Z). split; reflexivity.
  - reflexivity.
  - right. apply NoDup_cons. split; [|apply NoDup_singleton].
    intros H. apply list_elem_of_singleton in H. discriminate.
  - repeat constructor.
Defined.

Lemma reduce_keeps_no_entries_witness :
  CVCache_reduce (self Sample.after_first) = (Sample.folds, false, true)
  ∧ cache_lookup (slot_key 0 true true) Sample.after_first
    = Some Sample.X_train0
  ∧ cache_lookup (slot_key 0 true true)
      (mkWorld (CVCache_rebuild (CVCache_reduce (self Sample.after_first)))
         []) = None.
Proof.
  split; [reflexivity|]. split; [reflexivity|].
  destruct reduce_keeps_no_entries as [_ H].
  destruct (H (self Sample.after_first)) as (_ & _ & _ & _ & Hcold).
  apply Hcold.
Defined.

Lemma set_params_lock_discipline_witness :
  set_params string Sample.clone_ok Sample.set_fails Sample.est Sample.fields
    Sample.params true []
  = (Raise (ValueError "Invalid parameter"),
     [CopyEstimator string Sample.est; LockAcquire string;
      SetParams string Sample.est Sample.params_dict; LockRelease string])
  ∧ ∃ locked,
      [CopyEstimator string Sample.est; LockAcquire string;
       SetParams string Sample.est Sample.params_dict; LockRelease string]
      = [] ++ [CopyEstimator string Sample.est] ++ locked
      ∧ (locked = []
         ∨ ∃ est1 ps,
             locked = [LockAcquire string; SetParams string est1 ps;
                       LockRelease string]
             ∧ Sample.clone_ok Sample.est = Ok est1
             ∧ Raise (ValueError "Invalid parameter")
               = Sample.set_fails est1 ps
             ∧ ∃ fs ps0, Sample.fields = Some fs ∧ Sample.params = Some ps0
                         ∧ ps = dict_of_pairs (given_pairs fs ps0))
      ∧ (Sample.fields = None → locked = [])
      ∧ (∀ e, true = true → Sample.clone_ok Sample.est = Raise e →
              locked = []).
Proof.
  assert (set_params string Sample.clone_ok Sample.set_fails Sample.est
            Sample.fields Sample.params true []
          = (Raise (ValueError "Invalid parameter"),
             [CopyEstimator string Sample.est; LockAcquire string;
              SetParams string Sample.est Sample.params_dict;
              LockRelease string])) as H by reflexivity.
  split; [exact H|].
  exact (set_params_lock_discipline Sample.clone_ok Sample.set_fails
           Sample.est Sample.fields Sample.params true [] _ _ H).
Defined.

Lemma fit_transform_fails_jointly_witness :
  fit_transform string Sample.clone_ok Sample.set_ok SampleMore.fit_ok
    Sample.no_fit_transform Sample.fit_transform_fails Sample.transform_fails
    (Val Sample.est) (Val (Some Sample.X)) Sample.y (ErrorScore F64.zero)
    None None None []
  = (Ok (FIT_FAILURE, FIT_FAILURE),
     [CopyEstimator string Sample.est;
      Fit string Sample.est (Some Sample.X) Sample.y ∅;
      Transform string SampleMore.fitted_est (Some Sample.X);
      FitFailedWarning string F64.zero (Fault "not fitted")])
  ∧ is_FIT_FAILURE (A := estimator string) FIT_FAILURE
    = is_FIT_FAILURE (A := container) FIT_FAILURE.
Proof.
  assert (fit_transform string Sample.clone_ok Sample.set_ok
            SampleMore.fit_ok Sample.no_fit_transform
            Sample.fit_transform_fails Sample.transform_fails
            (Val Sample.est) (Val (Some Sample.X)) Sample.y
            (ErrorScore F64.zero) None None None []
          = (Ok (FIT_FAILURE, FIT_FAILURE),
             [CopyEstimator string Sample.est;
              Fit string Sample.est (Some Sample.X) Sample.y ∅;
              Transform string SampleMore.fitted_est (Some Sample.X);
              FitFailedWarning string F64.zero (Fault "not fitted")])) as H
    by reflexivity.
  split; [exact H|].
  exact (proj1 (fit_transform_fails_jointly Sample.clone_ok Sample.set_ok
                  SampleMore.fit_ok Sample.no_fit_transform
                  Sample.fit_transform_fails Sample.transform_fails
                  (Val Sample.est) (Val (Some Sample.X)) Sample.y None None
                  None [])
           _ _ _ _ H).
Defined.

Lemma fit_transform_dispatch_witness :
  let t2 := [CopyEstimator string Sample.est;
             Fit string Sample.est (Some Sample.X) Sample.y ∅;
             Transform string SampleMore.fitted_est (Some Sample.X)] in
  fit_transform string Sample.clone_ok Sample.set_ok SampleMore.fit_ok
    Sample.no_fit_transform Sample.fit_transform_fails Sample.transform_fails
    (Val Sample.est) (Val (Some Sample.X)) Sample.y ErrorRaise None None
    None []
  = (Raise (Fault "not fitted"), t2)
  ∧ ∀ v,
      fit_transform string Sample.clone_ok Sample.set_ok SampleMore.fit_ok
        Sample.no_fit_transform Sample.fit_transform_fails
        Sample.transform_fails (Val Sample.est) (Val (Some Sample.X))
        Sample.y (ErrorScore v) None None None []
      = (Ok (FIT_FAILURE, FIT_FAILURE),
         t2 ++ [FitFailedWarning string v (Fault "not fitted")]).
Proof.
  intros t2.
  destruct (fit_transform_dispatch Sample.clone_ok Sample.set_ok
              SampleMore.fit_ok Sample.no_fit_transform
              Sample.fit_transform_fails Sample.transform_fails
              Sample.est Sample.est (Some Sample.X) Sample.y None None None
              [] [CopyEstimator string Sample.est] eq_refl) as [_ H].
  destruct (H eq_refl SampleMore.fitted_est eq_refl) as [_ Hfault].
  exact (Hfault (Fault "not fitted") eq_refl).
Defined.

Lemma score_calls_scorer_in_order_witness :
  (∀ X_train,
      score string SampleMore.score_unsupervised SampleMore.scorer_fails
        (Val Sample.est) (Some Sample.X) Sample.y X_train Sample.y []
      = (Raise (Fault "scorer failed"),
         [Score string Sample.est (Some Sample.X) Sample.y]))
  ∧ score string SampleMore.score_unsupervised SampleMore.score_supervised
      (Val Sample.est) (Some Sample.X) None (Some Sample.X) Sample.y []
    = (Ok (Pair (Val (F64.dec 5 10)) (Val (F64.of_Z 1))),
       [Score string Sample.est (Some Sample.X) None;
        Score string Sample.est (Some Sample.X) Sample.y]).
Proof.
  split.
  - intros X_train.
    exact (proj1 (score_calls_scorer_in_order SampleMore.score_unsupervised
                    SampleMore.scorer_fails Sample.est (Some Sample.X)
                    Sample.y Sample.y [])
             (Fault "scorer failed") X_train eq_refl).
  - exact (proj2 (proj2 (score_calls_scorer_in_order
                           SampleMore.score_unsupervised
                           SampleMore.score_supervised Sample.est
                           (Some Sample.X) None Sample.y [])
                    (F64.dec 5 10) eq_refl) Sample.X).
Defined.

Lemma fit_and_score_extraction_fault_propagates_witness :
  extract_fold Sample.take_rows Sample.X Sample.y 2 Sample.fresh
  = (Raise IndexError, Sample.fresh)
  ∧ fit_and_score string Sample.clone_ok Sample.set_ok SampleMore.fit_ok
      SampleMore.score_unsupervised SampleMore.score_supervised
      Sample.take_rows (Val Sample.est) Sample.X Sample.y 2
      (ErrorScore F64.zero) None None None true (Sample.fresh, [])
    = (Raise IndexError, (Sample.fresh, [])).
Proof.
  assert (extract_fold Sample.take_rows Sample.X Sample.y 2 Sample.fresh
          = (Raise IndexError, Sample.fresh)) as H by reflexivity.
  split; [exact H|].
  exact (fit_and_score_extraction_fault_propagates Sample.clone_ok
           Sample.set_ok SampleMore.fit_ok SampleMore.score_unsupervised
           SampleMore.score_supervised Sample.take_rows _ _ _ _ _ _ H
           (Val Sample.est) (ErrorScore F64.zero) None None None true []).
Defined.

Lemma fit_and_score_of_a_failed_fit_witness :
  ∃ w1 t1,
    snd (extract_fold Sample.take_rows Sample.X Sample.y 0 Sample.fresh) = w1
    ∧ warnings t1 = [(F64.zero, Fault "fit failed")]
    ∧ ∀ return_train_score,
        fit_and_score string Sample.clone_ok Sample.set_ok Sample.fit_fails
          SampleMore.score_unsupervised SampleMore.score_supervised
          Sample.take_rows (Val Sample.est) Sample.X Sample.y 0
          (ErrorScore F64.zero) None None None return_train_score
          (Sample.fresh, [])
        = (Ok (failure_item return_train_score), (w1, t1)).
Proof.
  eexists _, _. split; [reflexivity|]. split;
    [|eapply (fit_and_score_of_a_failed_fit Sample.clone_ok Sample.set_ok
                Sample.fit_fails SampleMore.score_unsupervised
                SampleMore.score_supervised Sample.take_rows);
      reflexivity].
  reflexivity.
Defined.

Lemma fit_and_score_result_shape_witness :
  fst SampleMore.evaluated
  = Ok (Pair (Val (F64.of_Z 1)) (Val (F64.of_Z 1)))
  ∧ true = true
  ∧ fst (snd SampleMore.evaluated)
    = snd (extract_fold Sample.take_rows Sample.X Sample.y 0 Sample.fresh).
Proof.
  split; [vm_compute; reflexivity|].
  apply (fit_and_score_result_shape Sample.clone_ok Sample.set_ok
           SampleMore.fit_ok SampleMore.score_unsupervised
           SampleMore.score_supervised Sample.take_rows Sample.fresh _
           Sample.X Sample.y 0 (Val Sample.est) ErrorRaise None None None
           true [] (snd (snd SampleMore.evaluated))
           (Pair (Val (F64.of_Z 1)) (Val (F64.of_Z 1)))).
  vm_compute. reflexivity.
Defined.

Lemma decompress_params_lookup_witness :
  NoDup ["C"; "kernel"]
  ∧ ∃ d,
      decompress_params ["C"; "kernel"] SampleMore.compressed !! 1 = Some d
      ∧ d !! "C" = None
      ∧ d !! "kernel" = Some (PyStr "rbf")
      ∧ d !! "gamma" = None.
Proof.
  assert (NoDup ["C"; "kernel"]) as Hnd.
  { apply NoDup_cons. split; [|apply NoDup_singleton].
    intros H. apply list_elem_of_singleton in H. discriminate. }
  split; [exact Hnd|].
  destruct (decompress_params_lookup ["C"; "kernel"] SampleMore.compressed
              Hnd) as [_ H].
  destruct (H 1 [MISSING; Given (PyStr "rbf")] eq_refl)
    as (d & Hd & Hin & Hout).
  exists d. split; [exact Hd|]. split; [exact (Hin 0 "C" eq_refl)|].
  split; [exact (Hin 1 "kernel" eq_refl)|].
  apply Hout. intros Hg.
  apply elem_of_cons in Hg as [Hg|Hg]; [discriminate|].
  apply list_elem_of_singleton in Hg. discriminate.
Defined.

Lemma get_best_params_succeeds_witness :
  [Sample.cand_A; Sample.cand_B] ≠ []
  ∧ ∃ best_index best ranks,
      Sample.masked_table !! "rank_test_score" = Some (RankCol ranks)
      ∧ length ranks = 2
      ∧ ranks !! best_index = Some 1%Z
      ∧ [Sample.cand_A; Sample.cand_B] !! best_index = Some best
      ∧ get_best_params [Sample.cand_A; Sample.cand_B] Sample.masked_table
        = Ok best.
Proof.
  split; [discriminate|].
  apply (get_best_params_succeeds
           [Single (Val (F64.dec 5 10)); Single (Val (F64.dec 6 10))]
           [Sample.cand_A; Sample.cand_B] 1 (ErrorScore F64.zero) None);
    [discriminate|].
  apply table_of_ok. vm_compute. reflexivity.
Defined.

Lemma split_columns_are_chunks_of_the_scores_witness :
  length Sample.failing_scores = 2 * 2
  ∧ Sample.failing_table !! split_name 0 "test_score"
    = Some (FloatCol [F64.zero; F64.dec 8 10])
  ∧ Sample.failing_table !! split_name 1 "test_score"
    = Some (FloatCol [F64.zero; F64.dec 6 10]).
Proof.
  destruct (split_columns_are_chunks_of_the_scores Sample.failing_scores
              [Sample.cand_A; Sample.cand_B] 2 (ErrorScore F64.zero)
              Sample.fold_sizes Sample.failing_table)
    as (Hlen & tests & trains & test_array & Hsp & Hta & Htest & _).
  { apply table_of_ok. vm_compute. reflexivity. }
  split; [exact Hlen|].
  assert (test_array
          = [F64.zero; F64.dec 8 10; F64.zero; F64.dec 6 10]) as ->.
  { assert (tests = [FIT_FAILURE; Val (F64.dec 8 10); FIT_FAILURE;
                     Val (F64.dec 6 10)]) as -> by now inversion Hsp.
    now inversion Hta. }
  split; [exact (Htest 0 (Nat.lt_0_succ 1)) | exact (Htest 1 (Nat.lt_succ_diag_r 1))].
Defined.

Lemma cv_results_columns_witness :
  Sample.masked_table !! "params"
  = Some (ParamsCol [Sample.cand_A; Sample.cand_B])
  ∧ Sample.masked_table !! "rank_train_score" = None
  ∧ Sample.masked_table !! "mean_train_score" = None
  ∧ Sample.masked_table !! "std_train_score" = None.
Proof.
  destruct (cv_results_columns
              [Single (Val (F64.dec 5 10)); Single (Val (F64.dec 6 10))]
              [Sample.cand_A; Sample.cand_B] 1 (ErrorScore F64.zero) None
              Sample.masked_table)
    as (Hp & _ & Hr & _ & Hsingle).
  { apply table_of_ok. vm_compute. reflexivity. }
  split; [exact Hp|]. split; [exact Hr|].
  apply Hsingle. eexists _, _. reflexivity.
Defined.

Lemma create_cv_results_rejects_bad_shapes_witness :
  length Sample.failing_scores ≠ 2 * length [Sample.cand_A]
  ∧ (∃ msg,
        create_cv_results Sample.failing_scores [Sample.cand_A] 2
          (ErrorScore F64.zero) Sample.fold_sizes
        = Raise (ValueError msg))
  ∧ create_cv_results Sample.failing_scores [Sample.cand_A; Sample.cand_B] 2
      (ErrorScore F64.zero) (Some (Sample.floats [5; 4; 1]%Z))
    = Raise TypeError
  ∧ create_cv_results Sample.failing_scores [Sample.cand_A; Sample.cand_B] 2
      (ErrorScore F64.zero) (Some (Sample.floats [0; 0]%Z))
    = Raise ZeroDivisionError.
Proof.
  assert (length Sample.failing_scores ≠ 2 * length [Sample.cand_A]) as Hne
    by (simpl; lia).
  split; [exact Hne|]. split; [|split].
  - exact (proj1 (create_cv_results_rejects_bad_shapes Sample.failing_scores
                    [Sample.cand_A] 2 (ErrorScore F64.zero) Sample.fold_sizes
                    _ _ _ eq_refl eq_refl) Hne).
  - exact (proj1 (proj2 (create_cv_results_rejects_bad_shapes
                           Sample.failing_scores
                           [Sample.cand_A; Sample.cand_B] 2
                           (ErrorScore F64.zero)
                           (Some (Sample.floats [5; 4; 1]%Z))
                           _ _ _ eq_refl eq_refl)
                    _ eq_refl eq_refl)
             ltac:(simpl; lia)).
  - exact (proj2 (proj2 (create_cv_results_rejects_bad_shapes
                           Sample.failing_scores
                           [Sample.cand_A; Sample.cand_B] 2
                           (ErrorScore F64.zero)
                           (Some (Sample.floats [0; 0]%Z))
                           _ _ _ eq_refl eq_refl)
                    _ eq_refl eq_refl)
             eq_refl eq_refl).
Defined.

Lemma feature_union_concat_rejects_row_mismatch_witness :
  ∃ msg,
    feature_union_concat
      (map Val [Some Sample.dense_block; None; Some SampleMore.tall_block])
      2 [None; None; None]
    = Raise (ValueError msg).
Proof.
  apply (feature_union_concat_rejects_row_mismatch
           [Some Sample.dense_block; None; Some SampleMore.tall_block]
           [None; None; None]
           [Sample.dense_block; SampleMore.tall_block]
           [(2, 1); (3, 1)] 2).
  - repeat constructor.
  - repeat constructor.
  - exists 2, 3. split; [left|]. split; [right; left | lia].
Defined.

Lemma feature_union_concat_drops_outputs_without_weight_witness :
  feature_union_concat
    [Val (Some Sample.dense_block); Val (Some SampleMore.tall_block)] 2
    [None]
  = Ok (Val Sample.dense_block)
  ∧ feature_union_concat
      [Val (Some Sample.dense_block); FIT_FAILURE] 2 [None]
    = Ok FIT_FAILURE.
Proof.
  destruct (feature_union_concat_drops_outputs_without_weight
              [Val (Some Sample.dense_block); Val (Some SampleMore.tall_block)]
              2 [None]) as [H _].
  destruct (feature_union_concat_drops_outputs_without_weight
              [Val (Some Sample.dense_block); FIT_FAILURE]
              2 [None]) as [_ H'].
  split; [|exact (H' eq_refl)].
  rewrite (H eq_refl). reflexivity.
Defined.

Lemma cv_n_samples_counts_test_rows_witness :
  let masked := mkWorld (CVCache_init
                           [(BoolMask [true; false; true],
                             BoolMask [false; true; false])] false true) [] in
  ix_positions 3 (BoolMask [false; true; false]) = Ok [1]
  ∧ ∃ counts,
      cv_n_samples masked = (Ok counts, masked)
      ∧ length counts = 1
      ∧ counts !! 0 = Some 1.
Proof.
  intros masked. split; [reflexivity|].
  exact (cv_n_samples_counts_test_rows masked 0
           (BoolMask [true; false; true]) (BoolMask [false; true; false])
           3 [1] eq_refl eq_refl).
Defined.
